(** * The chat channel subsystem of canary (src/creatures/interactions/chat.cpp)

    A shallow embedding of [ChatChannel], [PrivateChatChannel] and the
    [Chat] registry, with the notifications they send recorded as a trace,
    and the properties of the registry proved over it.

    Conventions.
    - A [std::map] is a [gmap]; a loop over a map visits it by ascending
      key ([in_order]), as the C++ iteration does.
    - A [Player*] is the [Player] it points to; the subsystem only reads
      players and sends them notifications.
    - A member function returns its C++ result, the object it mutated and
      the trace of effects it performed, in that order.
    - The Lua scripts behind the hooks are an external evaluator
      ([LuaScriptInterface]): a nesting guard and the answer of each call,
      taken as a function of the event and its arguments.  A script that
      calls back into the registry is outside the model.
    - Integers are [Z]; the one narrowing the code performs, the cast of a
      player id to [uint16_t], is [to_uint16].
    - The text of the log lines is not embedded. *)

From stdpp Require Import gmap strings list fin_maps sorting list_numbers.

Open Scope Z_scope.

(** ** Declarations of the headers

    The constants come from chat.h and the definition headers, which are
    outside chat.cpp: they are parameters of the development.  [baseOwner]
    is what the virtual [ChatChannel::getOwner] answers for a channel that
    is not a [PrivateChatChannel]. *)

Class Header := {
  CHANNEL_GUILD : Z;
  CHANNEL_PARTY : Z;
  CHANNEL_PRIVATE : Z;
  TALKTYPE_CHANNEL_Y : Z;
  TALKTYPE_CHANNEL_O : Z;
  baseOwner : Z
}.

(** ** Players and their directory data *)

Record Guild := {
  guild_getId : Z;
  guild_getName : string;
  guild_getMotd : string
}.

Record GuildRank := { level : Z }.

Inductive PlayerSex := PLAYERSEX_FEMALE | PLAYERSEX_MALE.

Record Player := {
  getID : Z;                       (* creature id, key of [users] *)
  getGUID : Z;                     (* database id, key of [invites], owner *)
  getName : string;
  getSex : PlayerSex;
  isPremium : bool;
  getGuild : option Guild;
  getParty : option Z;             (* Party*, the party's identity *)
  getGuildRank : option GuildRank
}.

(** ** Effects *)

Inductive ChannelEvent :=
  | CHANNELEVENT_JOIN
  | CHANNELEVENT_LEAVE
  | CHANNELEVENT_INVITE
  | CHANNELEVENT_EXCLUDE.

Inductive Effect :=
  | sendTextMessage (to : Player) (text : string)
  | sendChannelEvent (to : Player) (channelId : Z) (playerName : string)
      (event : ChannelEvent)
  | sendClosePrivate (to : Player) (channelId : Z)
  | sendChannelMessage (to : Player) (author text : string) (type : Z)
      (channel : Z)
  | sendToChannel (to : Player) (creature : Player) (type : Z)
      (text : string) (channel : Z)
  | addEvent_sendGuildMotd (delay : Z) (playerId : Z)
  | luaCall (event : Z) (player : Player) (speak : option (Z * string))
  | logError (event : Z)
  | logWarn (script : string).

(** ** The hook evaluator *)

(** What a protected call of [onSpeak] leaves for the caller. *)
Inductive LuaResult :=
  | LuaFailed                      (* protectedCall returned non-zero *)
  | LuaBoolean (b : bool)
  | LuaNumber (type : Z)           (* as read by getNumber<SpeakClasses> *)
  | LuaOther.                      (* nil, table, ... *)

Record LuaScriptInterface := {
  reserveScriptEnv : bool;
  callFunction : Z → Player → bool;
  protectedCall : Z → Player → Z → string → LuaResult;
  loadFile : string → Z;
  getEvent : string → string → Z
}.

(** ** Channels *)

Record ChatChannel := {
  users : gmap Z Player;           (* keyed by Player::getID *)
  chan_id : Z;                     (* the member [id] *)
  chan_name : string;              (* the member [name] *)
  canJoinEvent : Z;
  onJoinEvent : Z;
  onLeaveEvent : Z;
  onSpeakEvent : Z;
  publicChannel : bool
}.

Record PrivateChatChannel := {
  base : ChatChannel;              (* the ChatChannel base object *)
  invites : gmap Z Player;         (* keyed by Player::getGUID *)
  owner : Z
}.

Definition set_users (u : gmap Z Player) (c : ChatChannel) : ChatChannel :=
  {| users := u; chan_id := chan_id c; chan_name := chan_name c;
     canJoinEvent := canJoinEvent c; onJoinEvent := onJoinEvent c;
     onLeaveEvent := onLeaveEvent c; onSpeakEvent := onSpeakEvent c;
     publicChannel := publicChannel c |}.

Definition set_base (b : ChatChannel) (c : PrivateChatChannel)
  : PrivateChatChannel :=
  {| base := b; invites := invites c; owner := owner c |}.

Definition set_invites (i : gmap Z Player) (c : PrivateChatChannel)
  : PrivateChatChannel :=
  {| base := base c; invites := i; owner := owner c |}.

Definition setOwner (newOwner : Z) (c : PrivateChatChannel)
  : PrivateChatChannel :=
  {| base := base c; invites := invites c; owner := newOwner |}.

(** Modelled from the spec: the constructors are declared in chat.h, which
    is not among the sources; a channel starts with an empty membership
    ledger, no bound hook (the code tests a hook against -1) and the
    public flag clear, and a private channel with an empty invite ledger
    and owner 0. *)
Definition ChatChannel_new (channelId : Z) (channelName : string)
  : ChatChannel :=
  {| users := ∅; chan_id := channelId; chan_name := channelName;
     canJoinEvent := -1; onJoinEvent := -1; onLeaveEvent := -1;
     onSpeakEvent := -1; publicChannel := false |}.

Definition PrivateChatChannel_new (channelId : Z) (channelName : string)
  : PrivateChatChannel :=
  {| base := ChatChannel_new channelId channelName; invites := ∅;
     owner := 0 |}.

(** Iteration over a [std::map]: ascending keys. *)
Definition key_le {V} (a b : Z * V) : Prop := a.1 ≤ b.1.

Global Instance key_le_dec {V} (a b : Z * V) : Decision (key_le a b).
Proof. unfold key_le. apply _. Defined.

Definition in_order {V} (m : gmap Z V) : list (Z * V) :=
  merge_sort key_le (map_to_list m).

Definition to_uint16 (n : Z) : Z := n `mod` 65536.

Section chat.
Context {hdr : Header}.
Variable lua : LuaScriptInterface.

(** *** PrivateChatChannel *)

Definition isInvited (c : PrivateChatChannel) (guid : Z) : bool :=
  if decide (guid = owner c) then true
  else bool_decide (is_Some (invites c !! guid)).

Definition removeInvite (c : PrivateChatChannel) (guid : Z)
  : bool * PrivateChatChannel :=
  match invites c !! guid with
  | Some _ => (true, set_invites (delete guid (invites c)) c)
  | None => (false, c)
  end.

Definition closeChannel (c : PrivateChatChannel) : list Effect :=
  (λ it, sendClosePrivate it.2 (chan_id (base c))) <$> in_order (users (base c)).

(** *** Hooks *)

(** The three hooks that take the player alone share their body. *)
Definition executeEvent (event : Z) (player : Player) : bool * list Effect :=
  if decide (event = -1) then (true, [])
  else if negb (reserveScriptEnv lua) then (false, [logError event])
  else (callFunction lua event player, [luaCall event player None]).

Definition executeCanJoinEvent (c : ChatChannel) (player : Player) :=
  executeEvent (canJoinEvent c) player.

Definition executeOnJoinEvent (c : ChatChannel) (player : Player) :=
  executeEvent (onJoinEvent c) player.

Definition executeOnLeaveEvent (c : ChatChannel) (player : Player) :=
  executeEvent (onLeaveEvent c) player.

(** Returns the verdict, the (possibly rewritten) type and the trace. *)
Definition executeOnSpeakEvent (c : ChatChannel) (player : Player)
    (type : Z) (message : string) : bool * Z * list Effect :=
  if decide (onSpeakEvent c = -1) then (true, type, [])
  else if negb (reserveScriptEnv lua) then
    (false, type, [logError (onSpeakEvent c)])
  else
    let call := luaCall (onSpeakEvent c) player (Some (type, message)) in
    match protectedCall lua (onSpeakEvent c) player type message with
    | LuaFailed => (false, type, [call; logError (onSpeakEvent c)])
    | LuaBoolean b => (b, type, [call])
    | LuaNumber t => (true, t, [call])
    | LuaOther => (false, type, [call])
    end.

(** *** ChatChannel *)

Definition addUser (c : ChatChannel) (player : Player)
  : bool * ChatChannel * list Effect :=
  match users c !! getID player with
  | Some _ => (false, c, [])
  | None =>
    let '(ok, t1) := executeOnJoinEvent c player in
    if negb ok then (false, c, t1)
    else
      let t2 :=
        if decide (chan_id c = CHANNEL_GUILD) then
          match getGuild player with
          | Some guild =>
            if decide (guild_getMotd guild = ""%string) then []
            else [addEvent_sendGuildMotd 150 (getID player)]
          | None => []
          end
        else [] in
      let t3 :=
        if publicChannel c then []
        else (λ it, sendChannelEvent it.2 (chan_id c) (getName player)
                      CHANNELEVENT_JOIN) <$> in_order (users c) in
      (true, set_users (<[getID player := player]> (users c)) c,
       t1 ++ t2 ++ t3)
  end.

Definition removeUser (c : ChatChannel) (player : Player)
  : bool * ChatChannel * list Effect :=
  match users c !! getID player with
  | None => (false, c, [])
  | Some _ =>
    let c' := set_users (delete (getID player) (users c)) c in
    let t1 :=
      if publicChannel c' then []
      else (λ it, sendChannelEvent it.2 (chan_id c') (getName player)
                    CHANNELEVENT_LEAVE) <$> in_order (users c') in
    let '(_, t2) := executeOnLeaveEvent c' player in
    (true, c', t1 ++ t2)
  end.

Definition hasUser (c : ChatChannel) (player : Player) : bool :=
  bool_decide (is_Some (users c !! getID player)).

Definition sendToAll (c : ChatChannel) (message : string) (type : Z)
  : list Effect :=
  (λ it, sendChannelMessage it.2 "" message type (to_uint16 it.1))
    <$> in_order (users c).

Definition talk (c : ChatChannel) (fromPlayer : Player) (type : Z)
    (text : string) : bool * list Effect :=
  match users c !! getID fromPlayer with
  | None => (false, [])
  | Some _ =>
    (true, (λ it, sendToChannel it.2 fromPlayer type text (to_uint16 it.1))
             <$> in_order (users c))
  end.

(** *** PrivateChatChannel, continued *)

Definition invitePlayer (c : PrivateChatChannel) (player invitee : Player)
  : PrivateChatChannel * list Effect :=
  match invites c !! getGUID invitee with
  | Some _ => (c, [])
  | None =>
    let c' := set_invites (<[getGUID invitee := invitee]> (invites c)) c in
    (c',
     [sendTextMessage invitee
        (getName player ++ " invites you to "
         ++ (match getSex player with
             | PLAYERSEX_FEMALE => "her"
             | PLAYERSEX_MALE => "his"
             end)
         ++ " private chat channel.")%string;
      sendTextMessage player (getName invitee ++ " has been invited.")%string]
     ++ ((λ it, sendChannelEvent it.2 (chan_id (base c')) (getName invitee)
                  CHANNELEVENT_INVITE) <$> in_order (users (base c'))))
  end.

Definition excludePlayer (c : PrivateChatChannel) (player excluded : Player)
  : PrivateChatChannel * list Effect :=
  let '(revoked, c1) := removeInvite c (getGUID excluded) in
  if negb revoked then (c, [])
  else
    let '(_, b, t1) := removeUser (base c1) excluded in
    let c2 := set_base b c1 in
    (c2,
     t1
     ++ [sendTextMessage player
           (getName excluded ++ " has been excluded.")%string;
         sendClosePrivate excluded (chan_id (base c2))]
     ++ ((λ it, sendChannelEvent it.2 (chan_id (base c2)) (getName excluded)
                  CHANNELEVENT_EXCLUDE) <$> in_order (users (base c2)))).

End chat.

(** ** The registry *)

Record Chat := {
  normalChannels : gmap Z ChatChannel;
  privateChannels : gmap Z PrivateChatChannel;
  partyChannels : gmap Z ChatChannel;       (* keyed by Party* *)
  guildChannels : gmap Z ChatChannel
}.

Definition set_normal (m : gmap Z ChatChannel) (chat : Chat) : Chat :=
  {| normalChannels := m; privateChannels := privateChannels chat;
     partyChannels := partyChannels chat;
     guildChannels := guildChannels chat |}.

Definition set_private (m : gmap Z PrivateChatChannel) (chat : Chat) : Chat :=
  {| normalChannels := normalChannels chat; privateChannels := m;
     partyChannels := partyChannels chat;
     guildChannels := guildChannels chat |}.

Definition set_party (m : gmap Z ChatChannel) (chat : Chat) : Chat :=
  {| normalChannels := normalChannels chat;
     privateChannels := privateChannels chat; partyChannels := m;
     guildChannels := guildChannels chat |}.

Definition set_guild (m : gmap Z ChatChannel) (chat : Chat) : Chat :=
  {| normalChannels := normalChannels chat;
     privateChannels := privateChannels chat;
     partyChannels := partyChannels chat; guildChannels := m |}.

(** A [ChatChannel*] handed out by the registry: the collection and key it
    points into. *)
Inductive ChannelRef :=
  | InGuild (guildId : Z)
  | InParty (party : Z)
  | InNormal (channelId : Z)
  | InPrivate (channelId : Z).

(** The object behind a [ChatChannel*], with its dynamic type. *)
Inductive Channel :=
  | Plain (c : ChatChannel)
  | Private (c : PrivateChatChannel).

Definition as_base (ch : Channel) : ChatChannel :=
  match ch with Plain c => c | Private c => base c end.

Definition deref (chat : Chat) (r : ChannelRef) : option Channel :=
  match r with
  | InGuild k => Plain <$> guildChannels chat !! k
  | InParty k => Plain <$> partyChannels chat !! k
  | InNormal k => Plain <$> normalChannels chat !! k
  | InPrivate k => Private <$> privateChannels chat !! k
  end.

(** Writing the [ChatChannel] part of the object a pointer designates. *)
Definition store_base (chat : Chat) (r : ChannelRef) (b : ChatChannel)
  : Chat :=
  match r with
  | InGuild k => set_guild (<[k := b]> (guildChannels chat)) chat
  | InParty k => set_party (<[k := b]> (partyChannels chat)) chat
  | InNormal k => set_normal (<[k := b]> (normalChannels chat)) chat
  | InPrivate k =>
    set_private (alter (set_base b) k (privateChannels chat)) chat
  end.

(** An element of a [ChannelList]: a pointer into the registry, or the
    pointer to the placeholder [dummyPrivate]. *)
Inductive ListEntry :=
  | Listed (r : ChannelRef) (ch : Channel)
  | ListedDummy.

(** The object a pointer designates once its [ChatChannel] part has been
    written. *)
Definition with_base (b : ChatChannel) (ch : Channel) : Channel :=
  match ch with
  | Plain _ => Plain b
  | Private c => Private (set_base b c)
  end.

Section registry.
Context {hdr : Header}.
Variable lua : LuaScriptInterface.

(** The virtual [getOwner]. *)
Definition getOwner (ch : Channel) : Z :=
  match ch with Plain _ => baseOwner | Private c => owner c end.

Definition getChannel (chat : Chat) (player : Player) (channelId : Z)
  : option (ChannelRef * Channel) * list Effect :=
  if decide (channelId = CHANNEL_GUILD) then
    match getGuild player with
    | Some guild =>
      match guildChannels chat !! guild_getId guild with
      | Some c => (Some (InGuild (guild_getId guild), Plain c), [])
      | None => (None, [])
      end
    | None => (None, [])
    end
  else if decide (channelId = CHANNEL_PARTY) then
    match getParty player with
    | Some party =>
      match partyChannels chat !! party with
      | Some c => (Some (InParty party, Plain c), [])
      | None => (None, [])
      end
    | None => (None, [])
    end
  else
    match normalChannels chat !! channelId with
    | Some channel =>
      let '(ok, t) := executeCanJoinEvent lua channel player in
      if ok then (Some (InNormal channelId, Plain channel), t) else (None, t)
    | None =>
      match privateChannels chat !! channelId with
      | Some pc =>
        if isInvited pc (getGUID player)
        then (Some (InPrivate channelId, Private pc), [])
        else (None, [])
      | None => (None, [])
      end
    end.

Definition getPrivateChannel (chat : Chat) (player : Player)
  : option (Z * PrivateChatChannel) :=
  head (filter (λ it, owner it.2 = getGUID player)
          (in_order (privateChannels chat))).

(** The scan for a free private slot; [emplace] places the channel only
    under a key the map does not hold yet. *)
Fixpoint createPrivate (slots : list Z) (chat : Chat) (player : Player)
  : option (ChannelRef * Channel) * Chat :=
  match slots with
  | [] => (None, chat)
  | i :: rest =>
    match privateChannels chat !! i with
    | Some _ => createPrivate rest chat player
    | None =>
      let newChannel :=
        setOwner (getGUID player)
          (PrivateChatChannel_new i (getName player ++ "'s Channel")) in
      (Some (InPrivate i, Private newChannel),
       set_private (<[i := newChannel]> (privateChannels chat)) chat)
    end
  end.

Definition createChannel (chat : Chat) (player : Player) (channelId : Z)
  : option (ChannelRef * Channel) * Chat * list Effect :=
  let '(found, t0) := getChannel chat player channelId in
  match found with
  | Some _ => (None, chat, t0)
  | None =>
    if decide (channelId = CHANNEL_GUILD) then
      match getGuild player with
      | Some guild =>
        match guildChannels chat !! guild_getId guild with
        | Some c => (Some (InGuild (guild_getId guild), Plain c), chat, t0)
        | None =>
          let c := ChatChannel_new channelId (guild_getName guild) in
          (Some (InGuild (guild_getId guild), Plain c),
           set_guild (<[guild_getId guild := c]> (guildChannels chat)) chat,
           t0)
        end
      | None => (None, chat, t0)
      end
    else if decide (channelId = CHANNEL_PARTY) then
      match getParty player with
      | Some party =>
        match partyChannels chat !! party with
        | Some c => (Some (InParty party, Plain c), chat, t0)
        | None =>
          let c := ChatChannel_new channelId "Party" in
          (Some (InParty party, Plain c),
           set_party (<[party := c]> (partyChannels chat)) chat, t0)
        end
      | None => (None, chat, t0)
      end
    else if decide (channelId = CHANNEL_PRIVATE) then
      if negb (isPremium player)
         || bool_decide (is_Some (getPrivateChannel chat player))
      then (None, chat, t0)
      else
        let '(r, chat') := createPrivate (seqZ 100 9900) chat player in
        (r, chat', t0)
    else (None, chat, t0)
  end.

Definition deleteChannel (chat : Chat) (player : Player) (channelId : Z)
  : bool * Chat * list Effect :=
  if decide (channelId = CHANNEL_GUILD) then
    match getGuild player with
    | None => (false, chat, [])
    | Some guild =>
      match guildChannels chat !! guild_getId guild with
      | None => (false, chat, [])
      | Some _ =>
        (true,
         set_guild (delete (guild_getId guild) (guildChannels chat)) chat, [])
      end
    end
  else if decide (channelId = CHANNEL_PARTY) then
    match getParty player with
    | None => (false, chat, [])
    | Some party =>
      match partyChannels chat !! party with
      | None => (false, chat, [])
      | Some _ =>
        (true, set_party (delete party (partyChannels chat)) chat, [])
      end
    end
  else
    match privateChannels chat !! channelId with
    | None => (false, chat, [])
    | Some pc =>
      (true, set_private (delete channelId (privateChannels chat)) chat,
       closeChannel pc)
    end.

Definition addUserToChannel (chat : Chat) (player : Player) (channelId : Z)
  : option ChannelRef * Chat * list Effect :=
  let '(found, t0) := getChannel chat player channelId in
  match found with
  | None => (None, chat, t0)
  | Some (r, ch) =>
    let '(ok, b, t1) := addUser lua (as_base ch) player in
    (if ok then Some r else None, store_base chat r b, t0 ++ t1)
  end.

Definition removeUserFromChannel (chat : Chat) (player : Player)
    (channelId : Z) : bool * Chat * list Effect :=
  let '(found, t0) := getChannel chat player channelId in
  match found with
  | None => (false, chat, t0)
  | Some (r, ch) =>
    let '(ok, b, t1) := removeUser lua (as_base ch) player in
    let chat1 := store_base chat r b in
    if negb ok then (false, chat1, t0 ++ t1)
    else if decide (getOwner ch = getGUID player) then
      let '(_, chat2, t2) := deleteChannel chat1 player channelId in
      (true, chat2, t0 ++ t1 ++ t2)
    else (true, chat1, t0 ++ t1)
  end.

(** A loop [for (auto& [id, channel] : m) channel.removeUser(player)]: every
    channel is updated in place, the effects follow the key order. *)
Definition removeUser_each (m : gmap Z ChatChannel) (player : Player)
  : gmap Z ChatChannel * list Effect :=
  ((λ c, (removeUser lua c player).1.2) <$> m,
   in_order m ≫= λ it, (removeUser lua it.2 player).2).

(** The loop over the private channels binds [auto [id, channel]]: each
    [channel] is a copy of the registry's entry, and the invite removal and
    the user removal act on that copy.  When the copy's owner is the
    player, the copy is closed and [privateChannels.clear()] empties the
    whole collection; this invalidates the loop's iterator, and the model
    ends the loop there.  What the C++ does past that point is undefined:
    for a player who owns a private channel the model says what happens up
    to the [clear()] and no more; for a player who owns none the loop runs
    to its end as written. *)
Fixpoint removeFromPrivate (snapshot : list (Z * PrivateChatChannel))
    (live : gmap Z PrivateChatChannel) (player : Player)
  : gmap Z PrivateChatChannel * list Effect :=
  match snapshot with
  | [] => (live, [])
  | (_, channel) :: rest =>
    let '(_, channel1) := removeInvite channel (getGUID player) in
    let '(_, b, t1) := removeUser lua (base channel1) player in
    let channel2 := set_base b channel1 in
    if decide (owner channel2 = getGUID player) then
      (∅, t1 ++ closeChannel channel2)
    else
      let '(live', t2) := removeFromPrivate rest live player in
      (live', t1 ++ t2)
  end.

Definition removeUserFromAllChannels (chat : Chat) (player : Player)
  : Chat * list Effect :=
  let '(normal', t1) := removeUser_each (normalChannels chat) player in
  let '(party', t2) := removeUser_each (partyChannels chat) player in
  let '(guild', t3) := removeUser_each (guildChannels chat) player in
  let '(private', t4) :=
    removeFromPrivate (in_order (privateChannels chat))
      (privateChannels chat) player in
  ({| normalChannels := normal'; privateChannels := private';
      partyChannels := party'; guildChannels := guild' |},
   t1 ++ t2 ++ t3 ++ t4).

(** The tail of [talkToChannel]: the [onSpeak] hook, then [talk]. *)
Definition speakAndTalk (channel : ChatChannel) (player : Player) (type : Z)
    (text : string) : bool * list Effect :=
  let '(ok, type', t1) := executeOnSpeakEvent lua channel player type text in
  if negb ok then (false, t1)
  else let '(r, t2) := talk channel player type' text in (r, t1 ++ t2).

(** The coercion of the speak type at the head of [talkToChannel]. *)
Definition coerceType (player : Player) (type : Z) (channelId : Z) : Z :=
  if decide (channelId = CHANNEL_GUILD) then
    match getGuildRank player with
    | Some rank =>
      if decide (level rank > 1) then TALKTYPE_CHANNEL_O
      else if decide (type ≠ TALKTYPE_CHANNEL_Y) then TALKTYPE_CHANNEL_Y
      else type
    | None =>
      if decide (type ≠ TALKTYPE_CHANNEL_Y) then TALKTYPE_CHANNEL_Y
      else type
    end
  else if decide (type ≠ TALKTYPE_CHANNEL_Y
                  ∧ (channelId = CHANNEL_PRIVATE
                     ∨ channelId = CHANNEL_PARTY))
  then TALKTYPE_CHANNEL_Y
  else type.

Definition talkToChannel (chat : Chat) (player : Player) (type : Z)
    (text : string) (channelId : Z) : bool * list Effect :=
  let '(found, t0) := getChannel chat player channelId in
  match found with
  | None => (false, t0)
  | Some (_, ch) =>
    let '(r, t1) :=
      speakAndTalk (as_base ch) player (coerceType player type channelId)
        text in
    (r, t0 ++ t1)
  end.

(** *** Chat::load

    The parsed document is a list of channel nodes; [None] stands for a
    document that failed to load. *)

Record ChannelNode := {
  node_id : Z;                     (* attribute("id").as_int() *)
  node_name : string;
  node_public : bool;
  node_script : option string
}.

(** Both branches of [load] bind the hooks with the same statements. *)
Definition loadScript (script : option string) (c : ChatChannel)
  : ChatChannel * list Effect :=
  match script with
  | None => (c, [])
  | Some s =>
    let file := ("data/chatchannels/scripts/" ++ s)%string in
    if decide (loadFile lua file = 0) then
      ({| users := users c; chan_id := chan_id c; chan_name := chan_name c;
          canJoinEvent := getEvent lua file "canJoin";
          onJoinEvent := getEvent lua file "onJoin";
          onLeaveEvent := getEvent lua file "onLeave";
          onSpeakEvent := getEvent lua file "onSpeak";
          publicChannel := publicChannel c |}, [])
    else (c, [logWarn s])
  end.

Definition set_public_name (isPublic : bool) (channelName : string)
    (c : ChatChannel) : ChatChannel :=
  {| users := users c; chan_id := chan_id c; chan_name := channelName;
     canJoinEvent := canJoinEvent c; onJoinEvent := onJoinEvent c;
     onLeaveEvent := onLeaveEvent c; onSpeakEvent := onSpeakEvent c;
     publicChannel := isPublic |}.

(** The loop over [tempUserMap], the map moved out of [channel.users]. *)
Fixpoint readdUsers (tempUserMap : list (Z * Player)) (channel : ChatChannel)
  : ChatChannel * list Effect :=
  match tempUserMap with
  | [] => (channel, [])
  | (_, player) :: rest =>
    let '(_, channel1, t1) := addUser lua channel player in
    let '(channel2, t2) := readdUsers rest channel1 in
    (channel2, t1 ++ t2)
  end.

Definition loadNode (chat : Chat) (node : ChannelNode) : Chat * list Effect :=
  let channelId := to_uint16 (node_id node) in
  match normalChannels chat !! channelId with
  | Some channel =>
    let c1 := set_public_name (node_public node) (node_name node) channel in
    let '(c2, t1) := loadScript (node_script node) c1 in
    let '(c3, t2) := readdUsers (in_order (users c2)) (set_users ∅ c2) in
    (set_normal (<[channelId := c3]> (normalChannels chat)) chat, t1 ++ t2)
  | None =>
    let c1 :=
      set_public_name (node_public node) (node_name node)
        (ChatChannel_new channelId (node_name node)) in
    let '(c2, t1) := loadScript (node_script node) c1 in
    (set_normal (<[chan_id c2 := c2]> (normalChannels chat)) chat, t1)
  end.

Fixpoint loadNodes (nodes : list ChannelNode) (chat : Chat)
  : Chat * list Effect :=
  match nodes with
  | [] => (chat, [])
  | node :: rest =>
    let '(chat1, t1) := loadNode chat node in
    let '(chat2, t2) := loadNodes rest chat1 in
    (chat2, t1 ++ t2)
  end.

Definition load (doc : option (list ChannelNode)) (chat : Chat)
  : bool * Chat * list Effect :=
  match doc with
  | None => (false, chat, [])
  | Some nodes => let '(chat', t) := loadNodes nodes chat in (true, chat', t)
  end.

(** *** The channel list and the plain lookups *)

(** The placeholder of the channel list, the member [dummyPrivate] that
    the constructor of [Chat] builds. *)
Definition dummyPrivate : PrivateChatChannel :=
  PrivateChatChannel_new CHANNEL_PRIVATE "Private Chat Channel".

Definition getGuildChannelById (chat : Chat) (guildId : Z)
  : option ChatChannel :=
  guildChannels chat !! guildId.

Definition getChannelById (chat : Chat) (channelId : Z)
  : option ChatChannel :=
  normalChannels chat !! channelId.

(** The block [getChannelList] runs for the guild id and again for the
    party id: the channel that resolves, or else the one created. *)
Definition listOrCreate (chat : Chat) (player : Player) (channelId : Z)
  : list ListEntry * Chat * list Effect :=
  let '(found, t0) := getChannel chat player channelId in
  match found with
  | Some (r, ch) => ([Listed r ch], chat, t0)
  | None =>
    let '(created, chat', t1) := createChannel chat player channelId in
    (match created with
     | Some (r, ch) => [Listed r ch]
     | None => []
     end, chat', t0 ++ t1)
  end.

(** The loop over [normalChannels], which resolves every key again. *)
Fixpoint listNormal (ids : list Z) (chat : Chat) (player : Player)
  : list ListEntry * list Effect :=
  match ids with
  | [] => ([], [])
  | channelId :: rest =>
    let '(found, t0) := getChannel chat player channelId in
    let '(l, t1) := listNormal rest chat player in
    (match found with
     | Some (r, ch) => Listed r ch :: l
     | None => l
     end, t0 ++ t1)
  end.

(** The loop over [privateChannels]: the entries and [hasPrivate]. *)
Fixpoint listPrivate (channels : list (Z * PrivateChatChannel)) (guid : Z)
  : list ListEntry * bool :=
  match channels with
  | [] => ([], false)
  | (k, channel) :: rest =>
    let '(l, hasPrivate) := listPrivate rest guid in
    (if isInvited channel guid
     then Listed (InPrivate k) (Private channel) :: l
     else l,
     bool_decide (owner channel = guid) || hasPrivate)
  end.

Definition getChannelList (chat : Chat) (player : Player)
  : list ListEntry * Chat * list Effect :=
  let '(l1, chat1, t1) :=
    match getGuild player with
    | Some _ => listOrCreate chat player CHANNEL_GUILD
    | None => ([], chat, [])
    end in
  let '(l2, chat2, t2) :=
    match getParty player with
    | Some _ => listOrCreate chat1 player CHANNEL_PARTY
    | None => ([], chat1, [])
    end in
  let '(l3, t3) :=
    listNormal (in_order (normalChannels chat2)).*1 chat2 player in
  let '(l4, hasPrivate) :=
    listPrivate (in_order (privateChannels chat2)) (getGUID player) in
  let list := l1 ++ l2 ++ l3 ++ l4 in
  (if negb hasPrivate && isPremium player then ListedDummy :: list else list,
   chat2, t1 ++ t2 ++ t3).

End registry.

(** ** Sample data

    The values the project's headers give the constants, a few evaluators,
    a few players and a few registries, to run the definitions on. *)

#[export] Instance canary_header : Header := {|
  CHANNEL_GUILD := 0;
  CHANNEL_PARTY := 1;
  CHANNEL_PRIVATE := 65535;
  TALKTYPE_CHANNEL_Y := 7;
  TALKTYPE_CHANNEL_O := 8;
  baseOwner := 0
|}.

(** An evaluator whose scripts allow everything. *)
Definition lua_allow : LuaScriptInterface :=
  {| reserveScriptEnv := true;
     callFunction := λ _ _, true;
     protectedCall := λ _ _ _ _, LuaBoolean true;
     loadFile := λ _, 0;
     getEvent := λ _ _, -1 |}.

(** An evaluator whose scripts bind every hook to event 1 and deny. *)
Definition lua_deny : LuaScriptInterface :=
  {| reserveScriptEnv := true;
     callFunction := λ _ _, false;
     protectedCall := λ _ _ _ _, LuaBoolean false;
     loadFile := λ _, 0;
     getEvent := λ _ _, 1 |}.

(** An evaluator whose [onSpeak] answers the number 9. *)
Definition lua_number : LuaScriptInterface :=
  {| reserveScriptEnv := true;
     callFunction := λ _ _, true;
     protectedCall := λ _ _ _ _, LuaNumber 9;
     loadFile := λ _, 0;
     getEvent := λ _ _, 1 |}.

Definition mkPlayer (n : Z) (nm : string) (premium : bool) : Player :=
  {| getID := 1000 + n; getGUID := n; getName := nm;
     getSex := PLAYERSEX_FEMALE; isPremium := premium; getGuild := None;
     getParty := None; getGuildRank := None |}.

Definition alice : Player := mkPlayer 1 "Alice" true.
Definition bob : Player := mkPlayer 2 "Bob" true.
Definition carol : Player := mkPlayer 3 "Carol" false.

Definition emptyChat : Chat :=
  {| normalChannels := ∅; privateChannels := ∅; partyChannels := ∅;
     guildChannels := ∅ |}.

(** Alice's private channel 101, with Alice and Carol in it; Bob's private
    channel 100, with Bob in it. *)
Definition alice_channel : PrivateChatChannel :=
  {| base :=
       set_users {[getID alice := alice; getID carol := carol]}
         (ChatChannel_new 101 "Alice's Channel");
     invites := {[getGUID carol := carol]};
     owner := getGUID alice |}.

Definition bob_channel : PrivateChatChannel :=
  {| base :=
       set_users {[getID bob := bob]} (ChatChannel_new 100 "Bob's Channel");
     invites := ∅;
     owner := getGUID bob |}.

Definition two_private : Chat :=
  set_private {[100 := bob_channel; 101 := alice_channel]} emptyChat.

(** Bob's private channel 100 with Alice invited and joined; Alice owns
    no channel. *)
Definition bob_hosts_alice : Chat :=
  set_private
    {[100 :=
        {| base :=
             set_users {[getID bob := bob; getID alice := alice]}
               (ChatChannel_new 100 "Bob's Channel");
           invites := {[getGUID alice := alice]};
           owner := getGUID bob |}]}
    emptyChat.

(** A guild with a message of the day; Dave, an officer of it (rank level
    2); Erin, in party 77; the registry with the guild's channel, Dave in
    it, and the one with the party's channel, Erin in it. *)
Definition knights : Guild :=
  {| guild_getId := 9; guild_getName := "Knights";
     guild_getMotd := "Welcome" |}.

Definition dave : Player :=
  {| getID := 1004; getGUID := 4; getName := "Dave";
     getSex := PLAYERSEX_MALE; isPremium := false; getGuild := Some knights;
     getParty := None; getGuildRank := Some {| level := 2 |} |}.

Definition erin : Player :=
  {| getID := 1005; getGUID := 5; getName := "Erin";
     getSex := PLAYERSEX_FEMALE; isPremium := false; getGuild := None;
     getParty := Some 77; getGuildRank := None |}.

Definition knights_channel : ChatChannel :=
  set_users {[getID dave := dave]} (ChatChannel_new CHANNEL_GUILD "Knights").

Definition knights_chat : Chat := set_guild {[9 := knights_channel]} emptyChat.

Definition party_channel : ChatChannel :=
  set_users {[getID erin := erin]} (ChatChannel_new CHANNEL_PARTY "Party").

Definition party_chat : Chat := set_party {[77 := party_channel]} emptyChat.

(** An evaluator whose scripts bind every hook to event 1 and refuse the
    player with GUID 3, Carol, and nobody else. *)
Definition lua_picky : LuaScriptInterface :=
  {| reserveScriptEnv := true;
     callFunction := λ _ p, bool_decide (getGUID p ≠ 3);
     protectedCall := λ _ _ _ _, LuaBoolean true;
     loadFile := λ _, 0;
     getEvent := λ _ _, 1 |}.

(** Static channel 5 with Alice, Carol and Dave in it, and a configuration
    node for it that names a script and keeps it non-public. *)
Definition lobby_channel : ChatChannel :=
  set_users {[getID alice := alice; getID carol := carol; getID dave := dave]}
    (ChatChannel_new 5 "Help").

Definition lobby_chat : Chat := set_normal {[5 := lobby_channel]} emptyChat.

Definition node_members : ChannelNode :=
  {| node_id := 5; node_name := "Help desk"; node_public := false;
     node_script := Some "help.lua" |}.

(** Zed, of the same guild as Dave, whose GUID is the number the base
    [getOwner] answers; the guild's channel with Dave and Zed in it; and a
    registry where the static channel 100, with Zed in it, has the same
    number as Bob's private channel. *)
Definition zed : Player :=
  {| getID := 1000; getGUID := baseOwner; getName := "Zed";
     getSex := PLAYERSEX_MALE; isPremium := false; getGuild := Some knights;
     getParty := None; getGuildRank := None |}.

Definition knights_hall : Chat :=
  set_guild
    {[9 := set_users {[getID dave := dave; getID zed := zed]}
             (ChatChannel_new CHANNEL_GUILD "Knights")]}
    emptyChat.

Definition trade_channel : ChatChannel :=
  set_users {[getID zed := zed]} (ChatChannel_new 100 "Trade").

Definition shadowed_chat : Chat :=
  set_normal {[100 := trade_channel]}
    (set_private {[100 := bob_channel]} emptyChat).

(** ** Vocabulary of the statements *)

(** The effects that put a spoken message before a member. *)
Definition delivers (e : Effect) : Prop :=
  match e with sendToChannel _ _ _ _ _ => True | _ => False end.

(** The answers of [onSpeak] that [executeOnSpeakEvent] turns into a
    refusal: [false], a script error, or a value that is neither a boolean
    nor a number. *)
Definition vetoes (r : LuaResult) : Prop :=
  match r with
  | LuaBoolean true | LuaNumber _ => False
  | _ => True
  end.

(** Every id of the private range is taken. *)
Definition slots_full (chat : Chat) : Prop :=
  ∀ i, 100 ≤ i < 10000 → is_Some (privateChannels chat !! i).

(** The player owns no private channel of the registry. *)
Definition owns_none (chat : Chat) (p : Player) : Prop :=
  ∀ k c, privateChannels chat !! k = Some c → owner c ≠ getGUID p.

(** A bound or unbound hook [event] lets the player pass. *)
Definition admits (lua : LuaScriptInterface) (event : Z) (q : Player) : Prop :=
  (executeEvent lua event q).1 = true.

Global Instance admits_dec lua event q : Decision (admits lua event q).
Proof. unfold admits. apply _. Defined.

(** The calls made to the hook evaluator. *)
Definition is_luaCall (e : Effect) : Prop :=
  match e with luaCall _ _ _ => True | _ => False end.

Global Instance is_luaCall_dec e : Decision (is_luaCall e).
Proof. destruct e; simpl; apply _. Defined.

(** Every member is filed under its own creature id, as [addUser] files
    it. *)
Definition users_keyed (c : ChatChannel) : Prop :=
  ∀ k q, users c !! k = Some q → getID q = k.

(** A populated static channel 5 without hooks, the same channel with its
    hooks bound to events 3 to 6, and two configuration nodes for it. *)
Definition help_channel : ChatChannel :=
  set_users {[getID alice := alice]} (ChatChannel_new 5 "Help").

Definition help_chat : Chat := set_normal {[5 := help_channel]} emptyChat.

Definition scripted_channel : ChatChannel :=
  {| users := {[getID alice := alice]}; chan_id := 5; chan_name := "Help";
     canJoinEvent := 3; onJoinEvent := 4; onLeaveEvent := 5;
     onSpeakEvent := 6; publicChannel := false |}.

Definition scripted_chat : Chat :=
  set_normal {[5 := scripted_channel]} emptyChat.

Definition node_scripted : ChannelNode :=
  {| node_id := 5; node_name := "Help desk"; node_public := true;
     node_script := Some "help.lua" |}.

Definition node_plain : ChannelNode :=
  {| node_id := 5; node_name := "Help desk"; node_public := true;
     node_script := None |}.

(** A static channel 6 whose only bound hook is [onSpeak] (event 6), with
    Alice and Carol in it. *)
Definition moderated_channel : ChatChannel :=
  {| users := {[getID alice := alice; getID carol := carol]}; chan_id := 6;
     chan_name := "Trade"; canJoinEvent := -1; onJoinEvent := -1;
     onLeaveEvent := -1; onSpeakEvent := 6; publicChannel := true |}.

Definition moderated_chat : Chat :=
  set_normal {[6 := moderated_channel]} emptyChat.

(** A registry whose private range is exhausted: under every id [i] of
    [100, 10000) sits the channel of the player with GUID [i]. *)
Definition squatter (i : Z) : PrivateChatChannel :=
  setOwner i (PrivateChatChannel_new i "Channel").

Definition full_chat : Chat :=
  set_private (list_to_map ((λ i, (i, squatter i)) <$> seqZ 100 9900))
    emptyChat.

(** The effects that reach a player or the scheduler; the calls to the
    hook evaluator and the log lines are the others. *)
Definition notifies (e : Effect) : Prop :=
  match e with
  | luaCall _ _ _ | logError _ | logWarn _ => False
  | _ => True
  end.

(** The join, leave, invite and exclude events. *)
Definition is_channelEvent (e : Effect) : Prop :=
  match e with sendChannelEvent _ _ _ _ => True | _ => False end.

Global Instance is_channelEvent_dec e : Decision (is_channelEvent e).
Proof. destruct e; simpl; apply _. Defined.

(** The shape the registry gives its private collection: a channel sits
    under its own id, the id lies in the private range, and no two
    channels have the same owner. *)
Definition private_wf (chat : Chat) : Prop :=
  (∀ k c, privateChannels chat !! k = Some c →
     chan_id (base c) = k ∧ 100 ≤ k < 10000)
  ∧ (∀ k1 k2 c1 c2,
       privateChannels chat !! k1 = Some c1 →
       privateChannels chat !! k2 = Some c2 →
       owner c1 = owner c2 → k1 = k2).

(** The player is in the membership ledger of no channel of a
    collection. *)
Definition member_nowhere (m : gmap Z ChatChannel) (p : Player) : Prop :=
  ∀ k c, m !! k = Some c → users c !! getID p = None.

(** The entries of a channel list that point into the guild, party or
    static collection. *)
Definition shared_entry (e : ListEntry) : Prop :=
  match e with
  | Listed (InPrivate _) _ | ListedDummy => False
  | Listed _ _ => True
  end.

(** The scheduled guild message of the day. *)
Definition is_motd (e : Effect) : Prop :=
  match e with addEvent_sendGuildMotd _ _ => True | _ => False end.

Global Instance is_motd_dec e : Decision (is_motd e).
Proof. destruct e; simpl; apply _. Defined.

(** The shape the registry gives its static collection: a channel sits
    under its own id, its members are filed under their own ids, and the
    channel under the guild id, which no player can resolve, has no
    member. *)
Definition static_wf {hdr : Header} (chat : Chat) : Prop :=
  ∀ k c, normalChannels chat !! k = Some c →
    chan_id c = k ∧ users_keyed c ∧ (k = CHANNEL_GUILD → users c = ∅).

Section resolved.
Context {hdr : Header}.
Variable lua : LuaScriptInterface.

(** What a successful resolution says about the registry. *)
Inductive resolved (chat : Chat) (p : Player) (channelId : Z)
  : ChannelRef → Channel → list Effect → Prop :=
  | resolved_guild g c :
      channelId = CHANNEL_GUILD → getGuild p = Some g →
      guildChannels chat !! guild_getId g = Some c →
      resolved chat p channelId (InGuild (guild_getId g)) (Plain c) []
  | resolved_party party c :
      channelId ≠ CHANNEL_GUILD → channelId = CHANNEL_PARTY →
      getParty p = Some party → partyChannels chat !! party = Some c →
      resolved chat p channelId (InParty party) (Plain c) []
  | resolved_normal c t :
      channelId ≠ CHANNEL_GUILD → channelId ≠ CHANNEL_PARTY →
      normalChannels chat !! channelId = Some c →
      executeCanJoinEvent lua c p = (true, t) →
      resolved chat p channelId (InNormal channelId) (Plain c) t
  | resolved_private pc :
      channelId ≠ CHANNEL_GUILD → channelId ≠ CHANNEL_PARTY →
      normalChannels chat !! channelId = None →
      privateChannels chat !! channelId = Some pc →
      isInvited pc (getGUID p) = true →
      resolved chat p channelId (InPrivate channelId) (Private pc) [].

End resolved.

(** * Properties *)

(** ** Iteration order *)

Section in_order.
Context {V : Type}.
Implicit Types m : gmap Z V.

Lemma in_order_perm m : in_order m ≡ₚ map_to_list m.
Proof. apply merge_sort_Permutation. Qed.

Lemma elem_of_in_order m k v : (k, v) ∈ in_order m ↔ m !! k = Some v.
Proof. by rewrite in_order_perm, elem_of_map_to_list. Qed.

Lemma in_order_empty : in_order (∅ : gmap Z V) = [].
Proof. unfold in_order. by rewrite map_to_list_empty. Qed.

Lemma NoDup_fst_in_order m : NoDup (in_order m).*1.
Proof. rewrite in_order_perm. apply NoDup_fst_map_to_list. Qed.

(** The visit goes by ascending key, as the iteration of a [std::map]. *)
Lemma in_order_sorted m : Sorted key_le (in_order m).
Proof.
  apply Sorted_merge_sort. intros x y. unfold key_le. lia.
Qed.

End in_order.

(** ** Channel operations *)

Section channel_facts.
Context {hdr : Header}.
Variable lua : LuaScriptInterface.

Lemma removeInvite_absent c guid :
  invites c !! guid = None → removeInvite c guid = (false, c).
Proof. intros H. unfold removeInvite. by rewrite H. Qed.

Lemma removeInvite_present c guid p :
  invites c !! guid = Some p →
  removeInvite c guid = (true, set_invites (delete guid (invites c)) c).
Proof. intros H. unfold removeInvite. by rewrite H. Qed.

(** A failed [addUser] or [removeUser] hands the channel back as it was. *)
Lemma addUser_false c p c' t : addUser lua c p = (false, c', t) → c' = c.
Proof.
  unfold addUser. destruct (users c !! getID p); [by intros [= <- _]|].
  destruct (executeOnJoinEvent lua c p) as [[] t1]; simpl; by intros [=].
Qed.

Lemma removeUser_absent c p :
  users c !! getID p = None → removeUser lua c p = (false, c, []).
Proof. intros H. unfold removeUser. by rewrite H. Qed.

Lemma removeUser_present c p q :
  users c !! getID p = Some q →
  removeUser lua c p =
    (true, set_users (delete (getID p) (users c)) c,
     (if publicChannel c then []
      else (λ it, sendChannelEvent it.2 (chan_id c) (getName p)
                    CHANNELEVENT_LEAVE)
             <$> in_order (delete (getID p) (users c)))
     ++ (executeOnLeaveEvent lua c p).2).
Proof.
  intros H. unfold removeUser. rewrite H. simpl.
  unfold executeOnLeaveEvent. simpl.
  by destruct (executeEvent lua (onLeaveEvent c) p).
Qed.

Lemma removeUser_users c p :
  users (removeUser lua c p).1.2 = delete (getID p) (users c).
Proof.
  destruct (users c !! getID p) as [q|] eqn:H.
  - by rewrite (removeUser_present _ _ _ H).
  - rewrite (removeUser_absent _ _ H). simpl. by rewrite delete_id.
Qed.

(** C9. For every private channel, [isInvited guid] answers true exactly
    when [guid] is the channel's owner or a key of its invite ledger; so
    the owner counts as invited whatever the ledger holds, even when it is
    empty. *)
Theorem isInvited_owner_or_invited (c : PrivateChatChannel) (guid : Z) :
  (isInvited c guid = true ↔ guid = owner c ∨ guid ∈ dom (invites c))
  ∧ isInvited c (owner c) = true
  ∧ isInvited (set_invites ∅ c) (owner c) = true.
Proof.
  unfold isInvited. split; [|split].
  - destruct (decide (guid = owner c)) as [->|Hne].
    + split; auto.
    + rewrite bool_decide_eq_true, elem_of_dom. split; [auto|].
      by intros [?|?].
  - by rewrite decide_True.
  - simpl. by rewrite decide_True.
Qed.

(** C6. When [addUser p] has succeeded on a channel, a second [addUser p]
    on the resulting channel fails, sends nothing and leaves the channel
    as it was: the membership ledger, and so the member count, is the one
    the first call left. *)
Theorem addUser_twice_fails (c c1 : ChatChannel) (p : Player)
    (t1 : list Effect) :
  addUser lua c p = (true, c1, t1) →
  addUser lua c1 p = (false, c1, [])
  ∧ users (addUser lua c1 p).1.2 = users c1
  ∧ size (users (addUser lua c1 p).1.2) = size (users c1)
  ∧ size (users c1) = S (size (users c)).
Proof.
  intros H.
  assert (users c !! getID p = None ∧
          users c1 = <[getID p := p]> (users c)) as [Hnew Hu].
  { revert H. unfold addUser.
    destruct (users c !! getID p); [by intros [=]|].
    destruct (executeOnJoinEvent lua c p) as [[] t]; simpl; [|by intros [=]].
    by intros [= <- _]. }
  assert (addUser lua c1 p = (false, c1, [])) as H2.
  { unfold addUser at 1. by rewrite Hu, lookup_insert_eq. }
  rewrite H2. simpl. repeat split; [done..|].
  rewrite Hu. by apply map_size_insert_None.
Qed.

(** C5. [excludePlayer] does nothing when the target holds no invite: the
    channel is unchanged and nothing is sent.  When the target holds an
    invite, the invite is revoked, the target leaves the membership ledger
    if it was in it (with the effects of [removeUser]), the inviter is told
    of the exclusion, the target receives the close notice, and every
    remaining member receives the exclude event. *)
Theorem excludePlayer_spec (c : PrivateChatChannel)
    (player excluded : Player) :
  (invites c !! getGUID excluded = None →
   excludePlayer lua c player excluded = (c, []))
  ∧ (is_Some (invites c !! getGUID excluded) →
     let c' := (excludePlayer lua c player excluded).1 in
     let left := delete (getID excluded) (users (base c)) in
     invites c' = delete (getGUID excluded) (invites c)
     ∧ users (base c') = left
     ∧ owner c' = owner c
     ∧ (excludePlayer lua c player excluded).2 =
         (removeUser lua (base c) excluded).2
         ++ [sendTextMessage player
               (getName excluded ++ " has been excluded.")%string;
             sendClosePrivate excluded (chan_id (base c))]
         ++ ((λ it, sendChannelEvent it.2 (chan_id (base c))
                      (getName excluded) CHANNELEVENT_EXCLUDE)
               <$> in_order left)).
Proof.
  split.
  - intros H. unfold excludePlayer. by rewrite (removeInvite_absent _ _ H).
  - intros [q H]. unfold excludePlayer.
    rewrite (removeInvite_present _ _ _ H). simpl.
    pose proof (removeUser_users (base c) excluded) as Hu.
    destruct (users (base c) !! getID excluded) as [u|] eqn:Hm.
    + rewrite (removeUser_present _ _ _ Hm) in Hu |- *. simpl.
      repeat split; done.
    + rewrite (removeUser_absent _ _ Hm) in Hu |- *. simpl in *.
      rewrite <- Hu. repeat split; done.
Qed.

End channel_facts.

(** ** Speaking in a channel *)

Section speak_facts.
Context {hdr : Header}.
Variable lua : LuaScriptInterface.

Lemma executeEvent_quiet event p :
  Forall (λ e, ¬ delivers e) (executeEvent lua event p).2.
Proof.
  unfold executeEvent. repeat case_match; simpl;
    repeat constructor; auto.
Qed.

Lemma getChannel_quiet chat p channelId :
  Forall (λ e, ¬ delivers e) (getChannel lua chat p channelId).2.
Proof.
  unfold getChannel, executeCanJoinEvent.
  pose proof (executeEvent_quiet) as Hq.
  repeat case_match; simpl; try constructor.
  all: match goal with
       | H : executeEvent lua ?ev ?q = (_, ?t) |- Forall _ ?t =>
         specialize (Hq ev q); by rewrite H in Hq
       end.
Qed.

Lemma talk_member c p type text q :
  users c !! getID p = Some q →
  talk c p type text =
    (true, (λ it, sendToChannel it.2 p type text (to_uint16 it.1))
             <$> in_order (users c)).
Proof. intros H. unfold talk. by rewrite H. Qed.

Lemma talk_stranger c p type text :
  users c !! getID p = None → talk c p type text = (false, []).
Proof. intros H. unfold talk. by rewrite H. Qed.

(** C4. Let the utterance resolve to a channel whose [onSpeak] hook is
    bound.  If the nesting guard trips or the hook refuses, [talkToChannel]
    fails and its trace delivers the message to nobody.  If the hook
    answers a number, [talk] runs with that number as the type: the result
    is the one of [talk] at that type, and when the speaker is a member
    every member receives the message with that type. *)
Theorem talkToChannel_onSpeak (chat : Chat) (player : Player) (type : Z)
    (text : string) (channelId : Z) (r : ChannelRef) (ch : Channel)
    (t0 : list Effect) :
  getChannel lua chat player channelId = (Some (r, ch), t0) →
  onSpeakEvent (as_base ch) ≠ -1 →
  let c := as_base ch in
  let type1 := coerceType player type channelId in
  let answer := protectedCall lua (onSpeakEvent c) player type1 text in
  (reserveScriptEnv lua = false ∨ vetoes answer →
   (talkToChannel lua chat player type text channelId).1 = false
   ∧ Forall (λ e, ¬ delivers e)
       (talkToChannel lua chat player type text channelId).2)
  ∧ (∀ v, reserveScriptEnv lua = true → answer = LuaNumber v →
     talkToChannel lua chat player type text channelId =
       ((talk c player v text).1,
        t0 ++ [luaCall (onSpeakEvent c) player (Some (type1, text))]
           ++ (talk c player v text).2)
     ∧ (is_Some (users c !! getID player) →
        (talkToChannel lua chat player type text channelId).1 = true
        ∧ ∀ k q, users c !! k = Some q →
            sendToChannel q player v text (to_uint16 k)
            ∈ (talkToChannel lua chat player type text channelId).2)).
Proof.
  intros Hget Hbound c type1 answer.
  pose proof (getChannel_quiet chat player channelId) as Hq.
  rewrite Hget in Hq. simpl in Hq.
  unfold talkToChannel. rewrite Hget. fold c type1.
  unfold speakAndTalk, executeOnSpeakEvent.
  rewrite decide_False by done. fold answer.
  split.
  - intros [Hguard|Hveto].
    + rewrite Hguard. simpl. split; [done|].
      apply Forall_app. split; [done|]. repeat constructor. auto.
    + destruct (reserveScriptEnv lua); simpl.
      * destruct answer as [|[]| |]; simpl in *; try done;
          (split; [done|]; apply Forall_app; split; [done|];
           repeat constructor; auto).
      * split; [done|]. apply Forall_app. split; [done|].
        repeat constructor. auto.
  - intros v Hguard Hv. rewrite Hguard, Hv. simpl.
    destruct (talk c player v text) as [res t2] eqn:Ht. simpl.
    split; [done|]. intros [q0 Hmem].
    rewrite (talk_member _ _ _ _ _ Hmem) in Ht. injection Ht as <- <-.
    split; [done|]. intros k q Hk.
    rewrite !elem_of_app. right. right.
    apply list_elem_of_fmap. exists (k, q). split; [done|].
    by apply elem_of_in_order.
Qed.

End speak_facts.

(** ** The registry: leaving every channel *)

Section leave_all_facts.
Context {hdr : Header}.
Variable lua : LuaScriptInterface.

(** The three collections visited by reference lose the player in every
    channel. *)
Lemma removeUser_each_lookup (m : gmap Z ChatChannel) p k :
  (removeUser_each lua m p).1 !! k =
    (λ c, set_users (delete (getID p) (users c)) c) <$> m !! k.
Proof.
  unfold removeUser_each. simpl. rewrite lookup_fmap.
  destruct (m !! k) as [c|]; simpl; [|done]. f_equal.
  destruct (users c !! getID p) as [q|] eqn:H.
  - by rewrite (removeUser_present _ _ _ _ H).
  - rewrite (removeUser_absent _ _ _ H). simpl.
    rewrite delete_id by done. by destruct c.
Qed.

(** The private collection: when the player owns none of the visited
    channels the registry's entries are left exactly as they were. *)
Lemma removeFromPrivate_not_owner snapshot live p :
  Forall (λ it, owner it.2 ≠ getGUID p) snapshot →
  (removeFromPrivate lua snapshot live p).1 = live.
Proof.
  induction 1 as [|[k c] rest Hc _ IH]; simpl; [done|].
  destruct (removeInvite c (getGUID p)) as [b1 c1] eqn:Hinv.
  assert (owner c1 = owner c) as Ho.
  { revert Hinv. unfold removeInvite. case_match; by intros [= _ <-]. }
  destruct (removeUser lua (base c1) p) as [[b2 b] t1].
  simpl. rewrite decide_False by (simpl in *; congruence).
  destruct (removeFromPrivate lua rest live p). simpl in *. done.
Qed.

(** When the player owns one of the visited channels, the whole private
    collection is emptied. *)
Lemma removeFromPrivate_owner snapshot live p :
  Exists (λ it, owner it.2 = getGUID p) snapshot →
  (removeFromPrivate lua snapshot live p).1 = ∅.
Proof.
  induction snapshot as [|[k c] rest IH]; intros HE; [by inversion HE|].
  simpl.
  destruct (removeInvite c (getGUID p)) as [b1 c1] eqn:Hinv.
  assert (owner c1 = owner c) as Ho.
  { revert Hinv. unfold removeInvite. case_match; by intros [= _ <-]. }
  destruct (removeUser lua (base c1) p) as [[b2 b] t1].
  simpl. destruct (decide (owner c1 = getGUID p)) as [|Hne]; [done|].
  apply Exists_cons in HE as [HE|HE]; [simpl in HE; congruence|].
  specialize (IH HE).
  destruct (removeFromPrivate lua rest live p). simpl in *. done.
Qed.

Lemma removeUserFromAllChannels_private chat p :
  privateChannels (removeUserFromAllChannels lua chat p).1 =
    (removeFromPrivate lua (in_order (privateChannels chat))
       (privateChannels chat) p).1.
Proof.
  unfold removeUserFromAllChannels.
  repeat match goal with |- context [let '(_, _) := ?x in _] =>
    destruct x end.
  done.
Qed.

(** A player who owns a private channel takes every private channel of
    the registry down with them. *)
Lemma removeUserFromAllChannels_owner_clears chat p k c :
  privateChannels chat !! k = Some c → owner c = getGUID p →
  privateChannels (removeUserFromAllChannels lua chat p).1 = ∅.
Proof.
  intros Hk Ho. rewrite removeUserFromAllChannels_private.
  apply removeFromPrivate_owner, Exists_exists.
  exists (k, c). split; [|done]. by apply elem_of_in_order.
Qed.

(** A player who owns no private channel leaves all of them as they were:
    their membership and their invite stay in the ledgers. *)
Lemma removeUserFromAllChannels_guest_kept chat p :
  (∀ k c, privateChannels chat !! k = Some c → owner c ≠ getGUID p) →
  privateChannels (removeUserFromAllChannels lua chat p).1 =
    privateChannels chat.
Proof.
  intros H. rewrite removeUserFromAllChannels_private.
  apply removeFromPrivate_not_owner, Forall_forall.
  intros [k c] Hin. apply elem_of_in_order in Hin. simpl. eauto.
Qed.

End leave_all_facts.

(** C1. The code at two registries.  In the first Bob owns private channel
    100 and Alice owns 101, where Carol is a member: when Alice leaves all
    channels, Carol gets the close notice and the private collection is
    emptied, so Bob's channel 100 is erased with Alice's (Alice's channel
    is the last one visited, no iteration follows the clear).  In the second
    Alice is only a guest of Bob's channel 100: after she leaves all
    channels the registry is unchanged, she is still in the membership and
    invite ledgers of channel 100. *)
Theorem removeUserFromAllChannels_at_failing_input :
  (owner <$> privateChannels two_private !! 100 = Some (getGUID bob)
   ∧ removeUserFromAllChannels lua_allow two_private alice =
       (emptyChat,
        [sendChannelEvent carol 101 "Alice" CHANNELEVENT_LEAVE;
         sendClosePrivate carol 101])
   ∧ privateChannels (removeUserFromAllChannels lua_allow two_private alice).1
       !! 100 = None)
  ∧ (removeUserFromAllChannels lua_allow bob_hosts_alice alice).1
      = bob_hosts_alice.
Proof. vm_compute. repeat split; reflexivity. Qed.

(** ** The registry: the speak type *)

Section coercion_facts.
Context {hdr : Header}.

(** On the guild id the type is decided by the rank alone. *)
Lemma coerceType_guild p type :
  coerceType p type CHANNEL_GUILD =
    match getGuildRank p with
    | Some rank =>
      if decide (level rank > 1) then TALKTYPE_CHANNEL_O
      else TALKTYPE_CHANNEL_Y
    | None => TALKTYPE_CHANNEL_Y
    end.
Proof.
  unfold coerceType. rewrite decide_True by done.
  repeat case_match; try done; by destruct (decide (type = TALKTYPE_CHANNEL_Y)).
Qed.

(** On the party id, and on the reserved id [CHANNEL_PRIVATE], the type
    becomes the party class. *)
Lemma coerceType_party_or_reserved p type channelId :
  channelId ≠ CHANNEL_GUILD →
  channelId = CHANNEL_PARTY ∨ channelId = CHANNEL_PRIVATE →
  coerceType p type channelId = TALKTYPE_CHANNEL_Y.
Proof.
  intros Hg Hp. unfold coerceType. rewrite decide_False by done.
  destruct (decide (type = TALKTYPE_CHANNEL_Y)) as [->|Hne].
  - by case_decide.
  - rewrite decide_True; [done|]. split; [done|]. tauto.
Qed.

(** On every other id, the ids of the live private channels among them,
    the requested type is kept. *)
Lemma coerceType_other p type channelId :
  channelId ≠ CHANNEL_GUILD → channelId ≠ CHANNEL_PARTY →
  channelId ≠ CHANNEL_PRIVATE →
  coerceType p type channelId = type.
Proof.
  intros Hg Hp Hr. unfold coerceType. rewrite decide_False by done.
  rewrite decide_False; [done|]. tauto.
Qed.

End coercion_facts.

(** C8. The code at a live private channel.  Alice owns private channel
    101 and is a member of it with Carol.  She speaks there with type 1,
    which is not the party class: both members receive the message with
    type 1, the type has not been forced. *)
Theorem talkToChannel_private_type_kept :
  (1 : Z) ≠ TALKTYPE_CHANNEL_Y
  ∧ (∃ pc, deref two_private (InPrivate 101) = Some (Private pc)
           ∧ owner pc = getGUID alice)
  ∧ talkToChannel lua_allow two_private alice 1 "hi" 101 =
      (true,
       [sendToChannel alice alice 1 "hi" (to_uint16 (getID alice));
        sendToChannel carol alice 1 "hi" (to_uint16 (getID carol))]).
Proof.
  split; [done|]. split; [by eexists|]. vm_compute. reflexivity.
Qed.

(** ** The registry: resolving and leaving one channel *)

Section resolve_facts.
Context {hdr : Header}.
Variable lua : LuaScriptInterface.

Lemma getChannel_resolved chat p channelId r ch t :
  getChannel lua chat p channelId = (Some (r, ch), t) ↔
  resolved lua chat p channelId r ch t.
Proof.
  unfold getChannel. split.
  - repeat case_match; intros [=]; subst;
      try (by econstructor; eauto).
  - destruct 1 as [g c ? Hg Hc|party c ? ? Hp Hc|c t' ? ? Hc Hj
                   |pc ? ? Hn Hc Hi]; subst.
    + rewrite decide_True by done. by rewrite Hg, Hc.
    + rewrite decide_False, decide_True by done. by rewrite Hp, Hc.
    + rewrite !decide_False by done. by rewrite Hc, Hj.
    + rewrite !decide_False by done. by rewrite Hn, Hc, Hi.
Qed.

Lemma resolved_deref chat p channelId r ch t :
  resolved lua chat p channelId r ch t → deref chat r = Some ch.
Proof. destruct 1; simpl; by simplify_option_eq. Qed.

Lemma deref_store_base chat r ch b :
  deref chat r = Some ch →
  deref (store_base chat r b) r = Some (with_base b ch).
Proof.
  destruct r; simpl; intros H.
  1-3: rewrite lookup_insert_eq; simpl;
       by destruct (_ !! _); simplify_eq/=.
  rewrite lookup_alter_eq. by destruct (_ !! _); simplify_eq/=.
Qed.

(** The cascade where it works.  Let [removeUserFromChannel] resolve the
    channel and find the player in its membership ledger, so that the
    removal succeeds.  If the channel is a private channel owned by the
    player, that one channel is deleted: its entry is erased from the
    private collection, the rest of the registry is untouched, and after
    the effects of the removal every remaining member receives the close
    notice.  If the answer of [getOwner] is not the player's GUID, the
    channel stays registered under the same key, less that member, and
    nothing is closed. *)
Theorem removeUserFromChannel_cascade (chat : Chat) (player : Player)
    (channelId : Z) (r : ChannelRef) (ch : Channel) (t0 : list Effect) :
  getChannel lua chat player channelId = (Some (r, ch), t0) →
  is_Some (users (as_base ch) !! getID player) →
  let res := removeUserFromChannel lua chat player channelId in
  let gone := removeUser lua (as_base ch) player in
  let rest := delete (getID player) (users (as_base ch)) in
  res.1.1 = true
  ∧ users gone.1.2 = rest
  ∧ (∀ pc, ch = Private pc → owner pc = getGUID player →
       res.1.2 = set_private (delete channelId (privateChannels chat)) chat
       ∧ deref res.1.2 r = None
       ∧ res.2 =
           t0 ++ gone.2
           ++ ((λ it, sendClosePrivate it.2 (chan_id (base pc)))
                 <$> in_order rest)
       ∧ ∀ k q, rest !! k = Some q →
           sendClosePrivate q (chan_id (base pc)) ∈ res.2)
  ∧ (getOwner ch ≠ getGUID player →
       res.1.2 = store_base chat r gone.1.2
       ∧ deref res.1.2 r = Some (with_base gone.1.2 ch)
       ∧ res.2 = t0 ++ gone.2).
Proof.
  intros Hget [q Hmem] res gone rest.
  pose proof (proj1 (getChannel_resolved _ _ _ _ _ _) Hget) as Hres.
  pose proof (resolved_deref _ _ _ _ _ _ Hres) as Hderef.
  assert (gone = (true, set_users rest (as_base ch), gone.2)) as Hgone.
  { unfold gone. by rewrite (removeUser_present _ _ _ _ Hmem). }
  subst res. unfold removeUserFromChannel. rewrite Hget.
  fold gone. rewrite Hgone. simpl.
  destruct (decide (getOwner ch = getGUID player)) as [Hown|Hown].
  - split; [by destruct (deleteChannel _ _ _) as [[] ?]|].
    split; [done|]. split; [|done].
    intros pc -> _. simpl in *.
    inversion Hres; subst.
    unfold deleteChannel. rewrite !decide_False by done. simpl.
    rewrite lookup_alter_eq.
    match goal with H : privateChannels chat !! _ = Some _ |- _ =>
      rewrite H end.
    simpl. rewrite delete_alter_eq, lookup_delete_eq.
    unfold set_private at 1. simpl.
    split; [done|]. split; [done|].
    unfold closeChannel. simpl. split; [done|].
    intros k u Hk. apply elem_of_app. right.
    apply list_elem_of_fmap. exists (k, u). split; [done|].
    by apply elem_of_in_order.
  - split; [done|]. split; [done|]. split.
    + intros pc -> Ho. simpl in Hown. done.
    + intros _. split; [done|]. split; [|done].
      by apply deref_store_base.
Qed.

(** The case the test [getOwner() == getGUID()] misses.  A channel that is
    not private has no owner and answers [baseOwner]; a member of a guild
    channel whose GUID is that number is taken for its owner: when that
    player leaves, [deleteChannel] runs under the guild id and erases the
    guild's channel, with its other members still in it, and nobody is
    sent a close notice. *)
Lemma removeUserFromChannel_base_owner_erases_guild chat p g c q :
  getGuild p = Some g → guildChannels chat !! guild_getId g = Some c →
  users c !! getID p = Some q → getGUID p = baseOwner →
  let res := removeUserFromChannel lua chat p CHANNEL_GUILD in
  res.1 = (true, set_guild (delete (guild_getId g) (guildChannels chat)) chat)
  ∧ res.2 = (removeUser lua c p).2
  ∧ ∀ u cid, sendClosePrivate u cid ∉ res.2.
Proof.
  intros Hg Hc Hq Hguid res.
  assert (res = (true,
                 set_guild (delete (guild_getId g) (guildChannels chat)) chat,
                 (removeUser lua c p).2)) as ->.
  { subst res. unfold removeUserFromChannel, getChannel.
    rewrite decide_True, Hg, Hc by done. cbn [as_base].
    rewrite (removeUser_present _ _ _ _ Hq). cbn [negb getOwner fst snd].
    rewrite decide_True by done.
    unfold deleteChannel. rewrite decide_True, Hg by done.
    cbn [store_base guildChannels set_guild]. rewrite lookup_insert_eq.
    rewrite delete_insert_eq, app_nil_r. by destruct chat. }
  split; [done|]. split; [done|].
  intros u cid. cbn [snd]. rewrite (removeUser_present _ _ _ _ Hq).
  cbn [snd]. rewrite elem_of_app. intros [Hin|Hin].
  - destruct (publicChannel c); [by apply elem_of_nil in Hin|].
    by apply list_elem_of_fmap in Hin as (? & [=] & _).
  - revert Hin. unfold executeOnLeaveEvent, executeEvent.
    repeat case_match; simpl; intros Hin;
      repeat (apply elem_of_cons in Hin as [[=]|Hin]);
      by apply elem_of_nil in Hin.
Qed.

End resolve_facts.

(** C3. The code at two registries.  Zed's GUID is the number a channel
    without an owner answers to [getOwner].  In the first registry Zed and
    Dave are in the channel of their guild: when Zed leaves it, the
    removal succeeds and the guild's channel is erased from the registry,
    although Zed did not own it and Dave is still in it, and Dave is told
    that Zed left but not that the channel closed.  In the second Zed is
    in the static channel 100, and Bob's private channel has the same
    number: when Zed leaves the static channel, it is Bob's private
    channel that is closed and erased. *)
Theorem removeUserFromChannel_at_failing_input :
  (getGUID zed = getOwner (Plain trade_channel)
   ∧ users <$> guildChannels knights_hall !! 9
     = Some {[getID dave := dave; getID zed := zed]}
   ∧ removeUserFromChannel lua_allow knights_hall zed CHANNEL_GUILD =
       (true, emptyChat, [sendChannelEvent dave 0 "Zed" CHANNELEVENT_LEAVE])
   ∧ getGuildChannelById
       (removeUserFromChannel lua_allow knights_hall zed CHANNEL_GUILD).1.2
       9 = None)
  ∧ (owner <$> privateChannels shadowed_chat !! 100 = Some (getGUID bob)
     ∧ removeUserFromChannel lua_allow shadowed_chat zed 100 =
         (true,
          set_normal {[100 := ChatChannel_new 100 "Trade"]} emptyChat,
          [sendClosePrivate bob 100])).
Proof. vm_compute. repeat split; reflexivity. Qed.

(** ** The registry: creating a private channel *)

Section create_facts.
Context {hdr : Header}.
Variable lua : LuaScriptInterface.

(** The labels of one [switch] are distinct. *)
Hypothesis private_not_guild : CHANNEL_PRIVATE ≠ CHANNEL_GUILD.
Hypothesis private_not_party : CHANNEL_PRIVATE ≠ CHANNEL_PARTY.

Lemma filter_none {A} (P : A → Prop) `{∀ x, Decision (P x)} (l : list A) :
  (∀ x, x ∈ l → ¬ P x) → filter P l = [].
Proof.
  induction l as [|x l IH]; intros Hl; [done|].
  rewrite filter_cons_False.
  - apply IH. intros y Hy. apply Hl. by right.
  - apply Hl. by left.
Qed.

Lemma getPrivateChannel_None chat p :
  getPrivateChannel chat p = None ↔ owns_none chat p.
Proof.
  unfold getPrivateChannel, owns_none. rewrite head_None. split.
  - intros Hnil k c Hk Ho.
    eapply (filter_nil_not_elem_of _ _ (k, c)); [done|done|].
    by apply elem_of_in_order.
  - intros Hnone. apply filter_none. intros [k c] Hin. simpl.
    apply elem_of_in_order in Hin. eauto.
Qed.

(** The scan over [a, a + n): it stops at the first free id and places
    there a channel owned by the player, with empty ledgers; it places
    nothing when every id is taken. *)
Lemma createPrivate_scan (n : nat) a chat p :
  match createPrivate (seqZ a (Z.of_nat n)) chat p with
  | (None, chat') =>
    chat' = chat
    ∧ ∀ j, a ≤ j < a + Z.of_nat n → is_Some (privateChannels chat !! j)
  | (Some (r, ch), chat') =>
    ∃ i pc,
      a ≤ i < a + Z.of_nat n
      ∧ privateChannels chat !! i = None
      ∧ (∀ j, a ≤ j < i → is_Some (privateChannels chat !! j))
      ∧ r = InPrivate i ∧ ch = Private pc
      ∧ owner pc = getGUID p ∧ chan_id (base pc) = i
      ∧ users (base pc) = ∅ ∧ invites pc = ∅
      ∧ onJoinEvent (base pc) = -1 ∧ onSpeakEvent (base pc) = -1
      ∧ chat' = set_private (<[i := pc]> (privateChannels chat)) chat
  end.
Proof.
  revert a. induction n as [|n IH]; intros a.
  - simpl. split; [done|]. intros j. lia.
  - rewrite seqZ_cons by lia.
    replace (Z.pred (Z.of_nat (S n))) with (Z.of_nat n) by lia.
    simpl. destruct (privateChannels chat !! a) as [c|] eqn:Ha.
    + specialize (IH (Z.succ a)).
      destruct (createPrivate (seqZ (Z.succ a) (Z.of_nat n)) chat p)
        as [[[r ch]|] chat'].
      * destruct IH as (i & pc & Hi & Hfree & Hbelow & Hrest).
        exists i, pc. split; [lia|]. split; [done|]. split; [|done].
        intros j Hj. destruct (decide (j = a)) as [->|]; [by eexists|].
        apply Hbelow. lia.
      * destruct IH as [-> Hall]. split; [done|]. intros j Hj.
        destruct (decide (j = a)) as [->|]; [by eexists|].
        apply Hall. lia.
    + eexists a, _. split; [lia|]. split; [done|].
      split; [intros j; lia|]. repeat split; reflexivity.
Qed.

Lemma createPrivate_range chat p :
  match createPrivate (seqZ 100 9900) chat p with
  | (None, chat') => chat' = chat ∧ slots_full chat
  | (Some (r, ch), chat') =>
    ∃ i pc,
      100 ≤ i < 10000
      ∧ privateChannels chat !! i = None
      ∧ (∀ j, 100 ≤ j < i → is_Some (privateChannels chat !! j))
      ∧ r = InPrivate i ∧ ch = Private pc
      ∧ owner pc = getGUID p ∧ chan_id (base pc) = i
      ∧ users (base pc) = ∅ ∧ invites pc = ∅
      ∧ onJoinEvent (base pc) = -1 ∧ onSpeakEvent (base pc) = -1
      ∧ chat' = set_private (<[i := pc]> (privateChannels chat)) chat
  end.
Proof.
  pose proof (createPrivate_scan (Z.to_nat 9900) 100 chat p) as Hscan.
  rewrite Z2Nat.id in Hscan by lia.
  destruct (createPrivate (seqZ 100 9900) chat p) as [[[r ch]|] chat'].
  - destruct Hscan as (i & pc & Hi & Hrest). exists i, pc.
    split; [lia|done].
  - destruct Hscan as [-> Hall]. split; [done|].
    intros j Hj. apply Hall. lia.
Qed.

Lemma createChannel_private chat p :
  createChannel lua chat p CHANNEL_PRIVATE =
    let '(found, t0) := getChannel lua chat p CHANNEL_PRIVATE in
    match found with
    | Some _ => (None, chat, t0)
    | None =>
      if negb (isPremium p)
         || bool_decide (is_Some (getPrivateChannel chat p))
      then (None, chat, t0)
      else
        let '(r, chat') := createPrivate (seqZ 100 9900) chat p in
        (r, chat', t0)
    end.
Proof.
  unfold createChannel.
  destruct (getChannel lua chat p CHANNEL_PRIVATE) as [[?|] t0]; [done|].
  by rewrite !decide_False, decide_True by done.
Qed.

Lemma createChannel_full chat p :
  slots_full chat → (createChannel lua chat p CHANNEL_PRIVATE).1 = (None, chat).
Proof.
  intros Hfull. rewrite createChannel_private.
  destruct (getChannel lua chat p CHANNEL_PRIVATE) as [[?|] t0]; [done|].
  destruct (negb (isPremium p) || _); [done|].
  pose proof (createPrivate_range chat p) as Hscan.
  destruct (createPrivate (seqZ 100 9900) chat p) as [[[r ch]|] chat'].
  - destruct Hscan as (i & pc & Hi & Hfree & _).
    destruct (Hfull i) as [? Hc]; [done|]. congruence.
  - by destruct Hscan as [-> _].
Qed.

(** C2. Creating a private channel.  A successful
    [createChannel p CHANNEL_PRIVATE] implies that [p] is premium and owned
    no private channel; the channel returned is new, is owned by [p] and
    sits under the first id of [100, 10000) that no private channel held.
    When every id of the range is taken, no channel is returned and the
    registry is unchanged.  From such a full registry, once one id [k] is
    freed by [deleteChannel], the request of an eligible player succeeds
    and receives [k], which fills the range again, so that every further
    request fails. *)
Theorem createChannel_private_allocates :
  (∀ chat p r ch chat' t,
     createChannel lua chat p CHANNEL_PRIVATE = (Some (r, ch), chat', t) →
     isPremium p = true ∧ owns_none chat p
     ∧ ∃ i pc,
         100 ≤ i < 10000
         ∧ privateChannels chat !! i = None
         ∧ (∀ j, 100 ≤ j < i → is_Some (privateChannels chat !! j))
         ∧ r = InPrivate i ∧ ch = Private pc
         ∧ owner pc = getGUID p ∧ chan_id (base pc) = i
         ∧ chat' = set_private (<[i := pc]> (privateChannels chat)) chat)
  ∧ (∀ chat p,
       slots_full chat →
       (createChannel lua chat p CHANNEL_PRIVATE).1 = (None, chat))
  ∧ (∀ chat q k p,
       slots_full chat → 100 ≤ k < 10000 →
       k ≠ CHANNEL_GUILD → k ≠ CHANNEL_PARTY →
       let freed := deleteChannel chat q k in
       isPremium p = true → owns_none freed.1.2 p →
       (getChannel lua freed.1.2 p CHANNEL_PRIVATE).1 = None →
       freed.1.1 = true
       ∧ privateChannels freed.1.2 = delete k (privateChannels chat)
       ∧ ∃ pc chat2,
           (createChannel lua freed.1.2 p CHANNEL_PRIVATE).1 =
             (Some (InPrivate k, Private pc), chat2)
           ∧ owner pc = getGUID p
           ∧ slots_full chat2
           ∧ ∀ p', (createChannel lua chat2 p' CHANNEL_PRIVATE).1
                   = (None, chat2)).
Proof.
  split; [|split].
  - intros chat p r ch chat' t. rewrite createChannel_private.
    destruct (getChannel lua chat p CHANNEL_PRIVATE) as [[?|] t0]; [done|].
    destruct (isPremium p); cbn [negb orb]; [|done].
    case_bool_decide as Hown; [done|].
    rewrite <- not_eq_None_Some in Hown.
    apply dec_stable in Hown. apply getPrivateChannel_None in Hown.
    pose proof (createPrivate_range chat p) as Hscan.
    destruct (createPrivate (seqZ 100 9900) chat p) as [[[r' ch']|] chat''];
      [|done].
    intros [= -> -> -> _]. split; [done|]. split; [done|].
    destruct Hscan as (i & pc & Hi & Hfree & Hbelow & -> & -> & Ho & Hid & _
                       & _ & _ & _ & ->).
    exists i, pc. repeat split; (done || lia).
  - apply createChannel_full.
  - intros chat q k p Hfull Hk Hg Hp freed Hprem Hnone Hres.
    destruct (Hfull k Hk) as [old Hold].
    assert (freed = (true, set_private (delete k (privateChannels chat)) chat,
                     closeChannel old)) as Hfreed.
    { unfold freed, deleteChannel. by rewrite !decide_False, Hold by done. }
    rewrite Hfreed in *. cbn [fst snd] in *. clear Hfreed freed.
    set (chat1 := set_private (delete k (privateChannels chat)) chat) in *.
    split; [done|]. split; [done|].
    rewrite createChannel_private.
    destruct (getChannel lua chat1 p CHANNEL_PRIVATE) as [found t0].
    cbn [fst] in Hres. subst found. rewrite Hprem. cbn [negb orb].
    apply getPrivateChannel_None in Hnone. rewrite Hnone.
    rewrite bool_decide_eq_false_2 by (by intros [? [=]]).
    pose proof (createPrivate_range chat1 p) as Hscan.
    destruct (createPrivate (seqZ 100 9900) chat1 p) as [[[r ch]|] chat2].
    + destruct Hscan as (i & pc & Hi & Hfree & Hbelow & -> & -> & Ho & Hid
                         & _ & _ & _ & _ & ->).
      assert (i = k) as ->.
      { destruct (decide (i = k)) as [|Hne]; [done|]. exfalso.
        simpl in Hfree. rewrite lookup_delete_ne in Hfree by done.
        destruct (Hfull i) as [? Hc]; [lia|]. congruence. }
      exists pc, (set_private (<[k:=pc]> (privateChannels chat1)) chat1).
      simpl. split; [done|]. split; [done|].
      assert (slots_full
                (set_private (<[k:=pc]> (privateChannels chat1)) chat1))
        as Hfull2.
      { intros j Hj. simpl. destruct (decide (j = k)) as [->|Hne].
        - rewrite lookup_insert_eq. by eexists.
        - rewrite lookup_insert_ne, lookup_delete_ne by done.
          by apply Hfull. }
      split; [done|]. intros p'. by apply createChannel_full.
    + exfalso. destruct Hscan as [_ Hall].
      destruct (Hall k) as [? Hc]; [done|].
      simpl in Hc. by rewrite lookup_delete_eq in Hc.
Qed.

(** The request of an eligible player when id 100 is free. *)
Lemma createChannel_private_first chat p t0 :
  getChannel lua chat p CHANNEL_PRIVATE = (None, t0) →
  isPremium p = true → owns_none chat p →
  privateChannels chat !! 100 = None →
  let pc := setOwner (getGUID p)
              (PrivateChatChannel_new 100 (getName p ++ "'s Channel")) in
  createChannel lua chat p CHANNEL_PRIVATE =
    (Some (InPrivate 100, Private pc),
     set_private (<[100 := pc]> (privateChannels chat)) chat, t0).
Proof.
  intros Hget Hprem Hnone Hfree pc. rewrite createChannel_private, Hget.
  rewrite Hprem. cbn [negb orb].
  apply getPrivateChannel_None in Hnone. rewrite Hnone.
  rewrite bool_decide_eq_false_2 by (by intros [? [=]]).
  rewrite seqZ_cons by lia. cbn [createPrivate]. by rewrite Hfree.
Qed.

(** Deleting a channel gives nobody a private channel, and leaves the
    reserved id unresolved when it was. *)
Lemma owns_none_deleteChannel chat q k p :
  owns_none chat p → owns_none (deleteChannel chat q k).1.2 p.
Proof.
  intros Hnone. unfold deleteChannel.
  repeat case_match; simpl; try done.
  intros j c Hj. cbn [privateChannels set_private] in Hj.
  apply lookup_delete_Some in Hj as [_ Hj]. by eapply Hnone.
Qed.

Lemma getChannel_reserved_deleteChannel chat q k p :
  normalChannels chat !! CHANNEL_PRIVATE = None →
  privateChannels chat !! CHANNEL_PRIVATE = None →
  (getChannel lua (deleteChannel chat q k).1.2 p CHANNEL_PRIVATE).1 = None.
Proof.
  intros Hn Hp. unfold getChannel. rewrite !decide_False by done.
  assert (normalChannels (deleteChannel chat q k).1.2 !! CHANNEL_PRIVATE
          = None
          ∧ privateChannels (deleteChannel chat q k).1.2 !! CHANNEL_PRIVATE
            = None) as [-> ->]; [|done].
  unfold deleteChannel. repeat case_match; simpl; try done.
  split; [done|]. rewrite lookup_delete_None. by right.
Qed.

Lemma in_order_singleton (k : Z) (q : Player) :
  in_order (<[k := q]> (∅ : gmap Z Player)) = [(k, q)].
Proof.
  unfold in_order. by rewrite insert_empty, map_to_list_singleton.
Qed.

(** C10. A private channel just created has an empty membership ledger,
    its owner included.  So on the channel returned (which is the one the
    registry now holds) the owner's [talk] fails and delivers nothing, a
    broadcast reaches nobody, and [talkToChannel] under the new id fails
    without a delivery; only after a separate, successful [addUser] does
    the owner's [talk] succeed and reach the owner. *)
Theorem createChannel_private_owner_not_member (chat : Chat) (p : Player)
    (r : ChannelRef) (ch : Channel) (chat' : Chat) (t : list Effect) :
  createChannel lua chat p CHANNEL_PRIVATE = (Some (r, ch), chat', t) →
  users (as_base ch) = ∅
  ∧ users (as_base ch) !! getID p = None
  ∧ deref chat' r = Some ch
  ∧ (∀ type text, talk (as_base ch) p type text = (false, []))
  ∧ (∀ message type, sendToAll (as_base ch) message type = [])
  ∧ (∀ i type text,
       r = InPrivate i → i ≠ CHANNEL_GUILD → i ≠ CHANNEL_PARTY →
       normalChannels chat' !! i = None →
       talkToChannel lua chat' p type text i = (false, []))
  ∧ (let joined := addUser lua (as_base ch) p in
     joined.1.1 = true
     ∧ ∀ type text,
         talk joined.1.2 p type text =
           (true, [sendToChannel p p type text (to_uint16 (getID p))])).
Proof.
  rewrite createChannel_private.
  destruct (getChannel lua chat p CHANNEL_PRIVATE) as [[?|] t0]; [done|].
  destruct (negb (isPremium p) || _); [done|].
  pose proof (createPrivate_range chat p) as Hscan.
  destruct (createPrivate (seqZ 100 9900) chat p) as [[[r' ch']|] chat''];
    [|done].
  intros [= -> -> -> _].
  destruct Hscan as (i & pc & Hi & Hfree & Hbelow & -> & -> & Ho & Hid & Hu
                     & Hinv & Hjoin & Hspeak & ->).
  simpl. rewrite Hu.
  split; [done|]. split; [done|].
  split; [by rewrite lookup_insert_eq|].
  split; [intros; apply talk_stranger; by rewrite Hu|].
  split; [intros; unfold sendToAll; by rewrite Hu, in_order_empty|].
  split.
  - intros ? type text [= <-] Hg Hp Hn.
    unfold talkToChannel, getChannel. simpl.
    rewrite !decide_False by done. rewrite Hn, lookup_insert_eq.
    unfold isInvited. rewrite decide_True by done. simpl.
    unfold speakAndTalk, executeOnSpeakEvent.
    rewrite decide_True by done. simpl.
    rewrite talk_stranger; [done|]. by rewrite Hu.
  - unfold addUser, executeOnJoinEvent, executeEvent.
    rewrite Hu, lookup_empty, decide_True by done. simpl.
    split; [done|]. intros type text.
    erewrite talk_member by (simpl; apply lookup_insert_eq).
    simpl. by rewrite in_order_singleton.
Qed.

End create_facts.

(** ** The registry: reloading the static channels *)

Section load_facts.
Context {hdr : Header}.
Variable lua : LuaScriptInterface.

(** [addUser] on a player the ledger does not hold. *)
Lemma addUser_fresh c q :
  users c !! getID q = None →
  addUser lua c q =
    if decide (admits lua (onJoinEvent c) q) then
      (true, set_users (<[getID q := q]> (users c)) c,
       (executeEvent lua (onJoinEvent c) q).2
       ++ (if decide (chan_id c = CHANNEL_GUILD) then
             match getGuild q with
             | Some guild =>
               if decide (guild_getMotd guild = ""%string) then []
               else [addEvent_sendGuildMotd 150 (getID q)]
             | None => []
             end
           else [])
       ++ (if publicChannel c then []
           else (λ it, sendChannelEvent it.2 (chan_id c) (getName q)
                         CHANNELEVENT_JOIN) <$> in_order (users c)))
    else (false, c, (executeEvent lua (onJoinEvent c) q).2).
Proof.
  intros H. unfold addUser, executeOnJoinEvent. rewrite H.
  destruct (decide (admits lua (onJoinEvent c) q)) as [Hyes|Hno];
    unfold admits in *;
    destruct (executeEvent lua (onJoinEvent c) q) as [[] t1]; simpl in *;
    done.
Qed.

Lemma readdUsers_fields l : ∀ c,
  let c' := (readdUsers lua l c).1 in
  chan_id c' = chan_id c ∧ chan_name c' = chan_name c
  ∧ publicChannel c' = publicChannel c
  ∧ canJoinEvent c' = canJoinEvent c ∧ onJoinEvent c' = onJoinEvent c
  ∧ onLeaveEvent c' = onLeaveEvent c ∧ onSpeakEvent c' = onSpeakEvent c.
Proof.
  induction l as [|[k q] l IH]; intros c; simpl; [done|].
  destruct (addUser lua c q) as [[ok c1] t1] eqn:Hadd.
  specialize (IH c1). destruct (readdUsers lua l c1) as [c2 t2].
  simpl in *.
  assert (chan_id c1 = chan_id c ∧ chan_name c1 = chan_name c
          ∧ publicChannel c1 = publicChannel c
          ∧ canJoinEvent c1 = canJoinEvent c ∧ onJoinEvent c1 = onJoinEvent c
          ∧ onLeaveEvent c1 = onLeaveEvent c
          ∧ onSpeakEvent c1 = onSpeakEvent c) as H1.
  { revert Hadd. unfold addUser. repeat case_match; by intros [= _ <- _]. }
  destruct IH as (?&?&?&?&?&?&?), H1 as (?&?&?&?&?&?&?).
  repeat split; congruence.
Qed.

(** The members the loop hands back to the channel, and in which order the
    hook has been asked about them. *)
Lemma readdUsers_users l : ∀ c,
  NoDup l.*1 →
  (∀ k q, (k, q) ∈ l → getID q = k ∧ users c !! k = None) →
  users (readdUsers lua l c).1 =
    list_to_map (filter (λ it, admits lua (onJoinEvent c) it.2) l)
    ∪ users c.
Proof.
  induction l as [|[k q] l IH]; intros c Hdup Hl; simpl.
  { by rewrite (left_id_L ∅ (∪)). }
  apply NoDup_cons in Hdup as [Hk Hdup].
  destruct (Hl k q) as [Hid Hnew]; [by left|].
  rewrite addUser_fresh by (by rewrite Hid).
  assert (∀ P `{∀ x, Decision (P x)},
            (list_to_map (filter P l) : gmap Z Player) !! k = None) as Hk'.
  { intros P ?. apply not_elem_of_list_to_map. intros Hin. apply Hk.
    apply list_elem_of_fmap in Hin as ([k' q'] & -> & Hin).
    apply list_elem_of_filter in Hin as [_ Hin].
    apply list_elem_of_fmap. by exists (k', q'). }
  rewrite filter_cons. simpl.
  destruct (decide (admits lua (onJoinEvent c) q)) as [Hyes|Hno].
  - specialize (IH (set_users (<[getID q := q]> (users c)) c) Hdup).
    destruct (readdUsers lua l _) as [c2 t2]. simpl in *.
    rewrite IH.
    + rewrite Hid, <- insert_union_r by apply Hk'.
      by rewrite insert_union_l.
    + intros k' q' Hin. destruct (Hl k' q') as [? ?]; [by right|].
      split; [done|]. rewrite lookup_insert_ne; [done|].
      rewrite Hid. intros ->. apply Hk.
      apply list_elem_of_fmap. by exists (k', q').
  - specialize (IH c Hdup).
    destruct (readdUsers lua l c) as [c2 t2]. simpl in *.
    apply IH. intros k' q' Hin. apply Hl. by right.
Qed.

Lemma readdUsers_calls l : ∀ c,
  NoDup l.*1 →
  (∀ k q, (k, q) ∈ l → getID q = k ∧ users c !! k = None) →
  filter is_luaCall (readdUsers lua l c).2 =
    if decide (onJoinEvent c = -1) then []
    else if reserveScriptEnv lua
    then (λ it, luaCall (onJoinEvent c) it.2 None) <$> l
    else [].
Proof.
  induction l as [|[k q] l IH]; intros c Hdup Hl; simpl.
  { by repeat case_match. }
  apply NoDup_cons in Hdup as [Hk Hdup].
  destruct (Hl k q) as [Hid Hnew]; [by left|].
  rewrite addUser_fresh by (by rewrite Hid).
  assert (∀ c1, onJoinEvent c1 = onJoinEvent c →
            (∀ k' q', (k', q') ∈ l → users c1 !! k' = None) →
            filter is_luaCall (readdUsers lua l c1).2 =
              if decide (onJoinEvent c = -1) then []
              else if reserveScriptEnv lua
              then (λ it, luaCall (onJoinEvent c) it.2 None) <$> l
              else []) as IH'.
  { intros c1 Hev Hfresh. rewrite <- Hev. apply IH; [done|].
    intros k' q' Hin. split; [|by eapply Hfresh].
    by apply (Hl k' q'); right. }
  assert (∀ q', filter is_luaCall
            ((if decide (chan_id c = CHANNEL_GUILD) then
                match getGuild q' with
                | Some guild =>
                  if decide (guild_getMotd guild = ""%string) then []
                  else [addEvent_sendGuildMotd 150 (getID q')]
                | None => []
                end
              else [])
             ++ (if publicChannel c then []
                 else (λ it, sendChannelEvent it.2 (chan_id c) (getName q')
                               CHANNELEVENT_JOIN) <$> in_order (users c)))
          = []) as Hquiet.
  { intros q'. apply filter_none. intros e He Hcall.
    apply elem_of_app in He as [He|He].
    - destruct (decide (chan_id c = CHANNEL_GUILD));
        [|by apply elem_of_nil in He].
      destruct (getGuild q') as [g|]; [|by apply elem_of_nil in He].
      destruct (decide (guild_getMotd g = ""%string));
        [by apply elem_of_nil in He|].
      apply list_elem_of_singleton in He. by subst.
    - destruct (publicChannel c); [by apply elem_of_nil in He|].
      apply list_elem_of_fmap in He as (? & -> & _). done. }
  destruct (decide (admits lua (onJoinEvent c) q)) as [Hyes|Hno].
  - specialize (IH' (set_users (<[getID q := q]> (users c)) c) eq_refl).
    destruct (readdUsers lua l _) as [c2 t2]. simpl in *.
    rewrite !filter_app, IH'.
    + rewrite <- filter_app, Hquiet. unfold executeEvent.
      repeat case_match; simpl; try done.
    + intros k' q' Hin. rewrite lookup_insert_ne; [by eapply Hl; right|].
      rewrite Hid. intros ->. apply Hk.
      apply list_elem_of_fmap. by exists (k', q').
  - specialize (IH' c eq_refl).
    destruct (readdUsers lua l c) as [c2 t2]. simpl in *.
    rewrite filter_app, IH'.
    + unfold executeEvent. repeat case_match; simpl; try done.
    + intros k' q' Hin. by eapply Hl; right.
Qed.

Lemma list_to_map_filter_in_order (P : Player → Prop)
    `{∀ q, Decision (P q)} (m : gmap Z Player) :
  list_to_map (filter (λ it, P it.2) (in_order m)) =
    filter (λ it, P it.2) m.
Proof.
  assert (∀ l : list (Z * Player),
            NoDup l.*1 → NoDup (filter (λ it, P it.2) l).*1) as Hdup.
  { induction l as [|[k q] l IH]; [done|]. rewrite fmap_cons, NoDup_cons.
    intros [Hk Hl]. rewrite filter_cons. case_decide; [|by apply IH].
    rewrite fmap_cons. apply NoDup_cons. split; [|by apply IH].
    intros Hin. apply Hk.
    apply list_elem_of_fmap in Hin as ([k' q'] & -> & Hin).
    apply list_elem_of_filter in Hin as [_ Hin].
    apply list_elem_of_fmap. by exists (k', q'). }
  apply map_eq. intros k. apply option_eq. intros q.
  rewrite <- elem_of_list_to_map by apply Hdup, NoDup_fst_in_order.
  rewrite list_elem_of_filter, elem_of_in_order, map_lookup_filter_Some.
  simpl. tauto.
Qed.

Lemma loadScript_spec script c :
  let c2 := (loadScript lua script c).1 in
  users c2 = users c ∧ chan_id c2 = chan_id c ∧ chan_name c2 = chan_name c
  ∧ publicChannel c2 = publicChannel c
  ∧ filter is_luaCall (loadScript lua script c).2 = []
  ∧ (∀ e, e ∈ (loadScript lua script c).2 → ∃ s, e = logWarn s)
  ∧ ∀ s, script = Some s →
      loadFile lua ("data/chatchannels/scripts/" ++ s)%string = 0 →
      canJoinEvent c2 =
        getEvent lua ("data/chatchannels/scripts/" ++ s)%string "canJoin"
      ∧ onJoinEvent c2 =
          getEvent lua ("data/chatchannels/scripts/" ++ s)%string "onJoin"
      ∧ onLeaveEvent c2 =
          getEvent lua ("data/chatchannels/scripts/" ++ s)%string "onLeave"
      ∧ onSpeakEvent c2 =
          getEvent lua ("data/chatchannels/scripts/" ++ s)%string "onSpeak".
Proof.
  unfold loadScript. destruct script as [s|]; simpl.
  - case_decide as Hload; simpl.
    + repeat split; try done;
        try (by intros e He; apply elem_of_nil in He); by simplify_eq.
    + repeat split; try done;
        try (by intros e He; apply list_elem_of_singleton in He; eexists);
        by simplify_eq.
  - repeat split; try done. intros e He. by apply elem_of_nil in He.
Qed.

End load_facts.

(** ** Channel operations: ledgers, broadcasts and round trips *)

Section ledger_facts.
Context {hdr : Header}.
Variable lua : LuaScriptInterface.

Lemma length_in_order {V} (m : gmap Z V) : length (in_order m) = size m.
Proof. by rewrite in_order_perm, length_map_to_list. Qed.

Lemma filter_all {A} (P : A → Prop) `{∀ x, Decision (P x)} (l : list A) :
  (∀ x, x ∈ l → P x) → filter P l = l.
Proof.
  induction l as [|x l IH]; intros Hl; [done|].
  rewrite filter_cons_True by (apply Hl; by left).
  f_equal. apply IH. intros y Hy. apply Hl. by right.
Qed.

Lemma set_users_id c : set_users (users c) c = c.
Proof. by destruct c. Qed.

Lemma executeEvent_calm event p :
  Forall (λ e, ¬ notifies e) (executeEvent lua event p).2
  ∧ filter is_channelEvent (executeEvent lua event p).2 = [].
Proof.
  unfold executeEvent. repeat case_match; simpl;
    (split; [repeat constructor; auto|done]).
Qed.

(** X1. An invitation is recorded once.  After [invitePlayer] the
    invitee counts as invited, everybody who was invited still is, nobody
    else becomes invited, and the membership ledger and the owner are
    untouched; inviting the same player again changes nothing and sends
    nothing. *)
Theorem invitePlayer_idempotent (c : PrivateChatChannel) (p q : Player) :
  let c' := (invitePlayer c p q).1 in
  isInvited c' (getGUID q) = true
  ∧ invitePlayer c' p q = (c', [])
  ∧ base c' = base c ∧ owner c' = owner c
  ∧ (∀ g, isInvited c g = true → isInvited c' g = true)
  ∧ (∀ g, g ≠ getGUID q → isInvited c' g = isInvited c g).
Proof.
  unfold invitePlayer.
  destruct (invites c !! getGUID q) as [u|] eqn:Hq; simpl.
  - rewrite Hq. repeat split; try done.
    unfold isInvited. case_decide; [done|].
    apply bool_decide_eq_true. by eexists.
  - rewrite lookup_insert_eq. simpl.
    assert (∀ g, g ≠ getGUID q →
              isInvited
                (set_invites (<[getGUID q:=q]> (invites c)) c) g
              = isInvited c g) as Hother.
    { intros g Hg. unfold isInvited. simpl.
      by rewrite lookup_insert_ne. }
    repeat split; try done.
    + unfold isInvited. simpl. case_decide; [done|].
      apply bool_decide_eq_true. rewrite lookup_insert_eq. by eexists.
    + intros g Hg. destruct (decide (g = getGUID q)) as [->|Hne].
      * unfold isInvited. simpl. case_decide; [done|].
        apply bool_decide_eq_true. rewrite lookup_insert_eq. by eexists.
      * by rewrite Hother.
Qed.

(** X2. Inviting a player who held no invite and was not a member, and
    then excluding that player, gives back the channel exactly as it
    was. *)
Theorem invite_then_exclude_restores (c : PrivateChatChannel)
    (inviter excluder q : Player) :
  invites c !! getGUID q = None →
  users (base c) !! getID q = None →
  (excludePlayer lua (invitePlayer c inviter q).1 excluder q).1 = c.
Proof.
  intros Hinv Hmem. unfold invitePlayer. rewrite Hinv. simpl.
  unfold excludePlayer, removeInvite. simpl.
  rewrite lookup_insert_eq. simpl.
  rewrite (removeUser_absent _ _ _ Hmem). simpl.
  rewrite delete_insert_id by done. by destruct c.
Qed.

(** X3. A spoken message and a broadcast reach every member exactly
    once.  [talk] succeeds exactly when the speaker is a member; it then
    sends as many messages as the ledger has members, each to a member,
    with the type and text given, and sends nothing otherwise.
    [sendToAll] sends one message per member, whoever asks. *)
Theorem talk_reaches_every_member (c : ChatChannel) (p : Player)
    (type : Z) (text : string) :
  (talk c p type text).1 = bool_decide (is_Some (users c !! getID p))
  ∧ length (talk c p type text).2 =
      (if (talk c p type text).1 then size (users c) else 0%nat)
  ∧ (∀ e, e ∈ (talk c p type text).2 →
       ∃ k q, users c !! k = Some q
              ∧ e = sendToChannel q p type text (to_uint16 k))
  ∧ ((talk c p type text).1 = true →
     ∀ k q, users c !! k = Some q →
       sendToChannel q p type text (to_uint16 k) ∈ (talk c p type text).2)
  ∧ length (sendToAll c text type) = size (users c).
Proof.
  unfold talk, sendToAll.
  destruct (users c !! getID p) as [u|] eqn:Hp; simpl.
  - rewrite !length_fmap, length_in_order. repeat split; try done.
    + intros e He. apply list_elem_of_fmap in He as ([k q] & -> & Hin).
      apply elem_of_in_order in Hin. by exists k, q.
    + intros _ k q Hk. apply list_elem_of_fmap. exists (k, q).
      split; [done|]. by apply elem_of_in_order.
  - rewrite length_fmap, length_in_order. repeat split; try done.
    intros e He. by apply elem_of_nil in He.
Qed.

(** X4. Joining and then leaving is a round trip: when [addUser] has
    succeeded, the player is a member, and [removeUser] then succeeds and
    gives back the channel exactly as it was before the join. *)
Theorem addUser_then_removeUser_restores (c c1 : ChatChannel) (p : Player)
    (t : list Effect) :
  addUser lua c p = (true, c1, t) →
  hasUser c p = false ∧ hasUser c1 p = true
  ∧ (removeUser lua c1 p).1 = (true, c)
  ∧ hasUser (removeUser lua c1 p).1.2 p = false.
Proof.
  intros Hadd.
  assert (users c !! getID p = None
          ∧ c1 = set_users (<[getID p := p]> (users c)) c) as [Hnew ->].
  { revert Hadd. unfold addUser.
    destruct (users c !! getID p); [by intros [=]|].
    destruct (executeOnJoinEvent lua c p) as [[] t1]; simpl; [|by intros [=]].
    by intros [= <- _]. }
  assert ((removeUser lua (set_users (<[getID p:=p]> (users c)) c) p).1
          = (true, c)) as Hback.
  { erewrite removeUser_present by (simpl; apply lookup_insert_eq).
    simpl. rewrite delete_insert_id by done. by destruct c. }
  rewrite Hback. unfold hasUser. simpl. rewrite Hnew, lookup_insert_eq.
  repeat split; done.
Qed.

(** X5. A refused operation changes nothing and notifies nobody.  When
    [addUser] fails (the player is a member already, the [onJoin] hook
    refuses or the nesting guard trips) the channel is handed back as it
    was and the trace holds at most the hook call or a log line; a failed
    [removeUser] and a failed [talk] have no effect at all. *)
Theorem failed_operation_is_silent (c : ChatChannel) (p : Player) :
  (∀ c' t, addUser lua c p = (false, c', t) →
     c' = c ∧ Forall (λ e, ¬ notifies e) t)
  ∧ (∀ c' t, removeUser lua c p = (false, c', t) → c' = c ∧ t = [])
  ∧ (∀ type text t, talk c p type text = (false, t) → t = []).
Proof.
  split; [|split].
  - intros c' t. unfold addUser, executeOnJoinEvent.
    destruct (users c !! getID p); [by intros [= <- <-]|].
    pose proof (proj1 (executeEvent_calm (onJoinEvent c) p)) as Hcalm.
    destruct (executeEvent lua (onJoinEvent c) p) as [[] t1]; simpl;
      [by intros [=]|].
    by intros [= <- <-].
  - intros c' t. unfold removeUser.
    destruct (users c !! getID p); [|by intros [= <- <-]].
    simpl. by destruct (executeOnLeaveEvent lua _ p).
  - intros type text t. unfold talk.
    by destruct (users c !! getID p); intros [=].
Qed.

Lemma users_keyed_addUser c p :
  users_keyed c → users_keyed (addUser lua c p).1.2.
Proof.
  intros Hk. unfold addUser. destruct (users c !! getID p); [done|].
  destruct (executeOnJoinEvent lua c p) as [[] t1]; simpl; [|done].
  intros k q. simpl. rewrite lookup_insert_Some.
  intros [[<- <-]|[_ Hq]]; [done|by apply Hk].
Qed.

Lemma users_keyed_removeUser c p :
  users_keyed c → users_keyed (removeUser lua c p).1.2.
Proof.
  intros Hk k q. rewrite removeUser_users, lookup_delete_Some.
  intros [_ Hq]. by apply Hk.
Qed.

(** X6. The public flag decides the join and leave broadcasts, and nothing
    else does.  On a channel whose members are filed under their own id
    (as [addUser] and [removeUser] keep them), the channel events of a
    successful [addUser] are the join event for every member the ledger
    held before, in id order, and none on a public channel; those of a
    successful [removeUser] are the leave event for every member left, and
    none on a public channel.  No channel event of either goes to the
    player who joins or leaves, nor to anybody with that player's id. *)
Theorem broadcast_follows_public_flag (c c' : ChatChannel) (p : Player)
    (t : list Effect) :
  users_keyed c →
  (addUser lua c p = (true, c', t) →
   filter is_channelEvent t =
     (if publicChannel c then []
      else (λ it, sendChannelEvent it.2 (chan_id c) (getName p)
                    CHANNELEVENT_JOIN) <$> in_order (users c))
   ∧ users_keyed c'
   ∧ ∀ q cid nm ev, sendChannelEvent q cid nm ev ∈ t → getID q ≠ getID p)
  ∧ (removeUser lua c p = (true, c', t) →
     filter is_channelEvent t =
       (if publicChannel c then []
        else (λ it, sendChannelEvent it.2 (chan_id c) (getName p)
                      CHANNELEVENT_LEAVE) <$> in_order (users c'))
     ∧ users_keyed c'
     ∧ ∀ q cid nm ev, sendChannelEvent q cid nm ev ∈ t → getID q ≠ getID p).
Proof.
  intros Hkeyed.
  assert (∀ (l : list (Z * Player)) ev cid nm,
            filter is_channelEvent
              ((λ it, sendChannelEvent it.2 cid nm ev) <$> l)
            = (λ it, sendChannelEvent it.2 cid nm ev) <$> l) as Hall.
  { intros l ev cid nm. apply filter_all. intros e He.
    by apply list_elem_of_fmap in He as (? & -> & _). }
  assert (∀ (m : gmap Z Player) (l : list Effect) cid0 nm0 ev0 (b : bool),
            (∀ k q, m !! k = Some q → getID q = k) → m !! getID p = None →
            filter is_channelEvent l =
              (if b then []
               else (λ it, sendChannelEvent it.2 cid0 nm0 ev0)
                      <$> in_order m) →
            ∀ q cid nm ev, sendChannelEvent q cid nm ev ∈ l →
              getID q ≠ getID p) as Hnot.
  { intros m l cid0 nm0 ev0 b Hm Hp Hl q cid nm ev Hin Hsame.
    assert (sendChannelEvent q cid nm ev ∈ filter is_channelEvent l) as Hf
      by (by apply list_elem_of_filter).
    rewrite Hl in Hf. destruct b; [by apply elem_of_nil in Hf|].
    apply list_elem_of_fmap in Hf as ([k q'] & [= -> _ _ _] & Hq).
    apply elem_of_in_order in Hq. pose proof (Hm _ _ Hq) as Hid.
    simpl in *. congruence. }
  split.
  - intros Hadd.
    assert (filter is_channelEvent t =
              (if publicChannel c then []
               else (λ it, sendChannelEvent it.2 (chan_id c) (getName p)
                             CHANNELEVENT_JOIN) <$> in_order (users c))
            ∧ users c !! getID p = None) as [Hev Hnew].
    { revert Hadd. unfold addUser, executeOnJoinEvent.
      destruct (users c !! getID p) eqn:Hp; [by intros [=]|].
      pose proof (proj2 (executeEvent_calm (onJoinEvent c) p)) as Hcalm.
      destruct (executeEvent lua (onJoinEvent c) p) as [[] t1]; simpl;
        [|by intros [=]].
      intros [= <- <-]. split; [|done].
      simpl in Hcalm. rewrite !filter_app, Hcalm. simpl.
      replace (filter is_channelEvent
                 (if decide (chan_id c = CHANNEL_GUILD) then
                    match getGuild p with
                    | Some guild =>
                      if decide (guild_getMotd guild = ""%string) then []
                      else [addEvent_sendGuildMotd 150 (getID p)]
                    | None => []
                    end
                  else [])) with (@nil Effect)
        by (by repeat case_match).
      destruct (publicChannel c); [done|]. apply Hall. }
    split; [done|]. split.
    + pose proof (users_keyed_addUser c p Hkeyed) as Hk'.
      by rewrite Hadd in Hk'.
    + by eapply (Hnot (users c)).
  - intros Hrem.
    assert (users c' = delete (getID p) (users c)) as Hu'.
    { pose proof (removeUser_users lua c p) as Hu. by rewrite Hrem in Hu. }
    assert (users_keyed c') as Hk'.
    { pose proof (users_keyed_removeUser c p Hkeyed) as Hk'.
      by rewrite Hrem in Hk'. }
    assert (filter is_channelEvent t =
              (if publicChannel c then []
               else (λ it, sendChannelEvent it.2 (chan_id c) (getName p)
                             CHANNELEVENT_LEAVE) <$> in_order (users c')))
      as Hev.
    { revert Hrem. unfold removeUser.
      destruct (users c !! getID p) eqn:Hp; [|by intros [=]].
      simpl. unfold executeOnLeaveEvent. simpl.
      pose proof (proj2 (executeEvent_calm (onLeaveEvent c) p)) as Hcalm.
      destruct (executeEvent lua (onLeaveEvent c) p) as [b t2].
      intros [= <- <-]. simpl in *.
      rewrite filter_app, Hcalm, app_nil_r.
      destruct (publicChannel c); [done|]. apply Hall. }
    split; [done|]. split; [done|].
    eapply (Hnot (users c')); [exact Hk'| |exact Hev].
    rewrite Hu'. apply lookup_delete_eq.
Qed.

End ledger_facts.

(** ** The registry: the life of a channel *)

Section lifecycle_facts.
Context {hdr : Header}.
Variable lua : LuaScriptInterface.

(** The labels of one [switch] are distinct. *)
Hypothesis private_not_guild : CHANNEL_PRIVATE ≠ CHANNEL_GUILD.
Hypothesis private_not_party : CHANNEL_PRIVATE ≠ CHANNEL_PARTY.
Hypothesis party_not_guild : CHANNEL_PARTY ≠ CHANNEL_GUILD.

(** Running a [switch] whose label is known. *)
Ltac run_switch :=
  repeat first
    [ rewrite decide_True by done
    | rewrite decide_False by done
    | match goal with H : _ = _ |- _ => rewrite H end ].

Lemma set_guild_restore chat k c :
  guildChannels chat !! k = None →
  set_guild (delete k (<[k := c]> (guildChannels chat)))
    (set_guild (<[k := c]> (guildChannels chat)) chat) = chat.
Proof.
  intros Hk. unfold set_guild. simpl.
  rewrite delete_insert_id by done. by destruct chat.
Qed.

Lemma set_party_restore chat k c :
  partyChannels chat !! k = None →
  set_party (delete k (<[k := c]> (partyChannels chat)))
    (set_party (<[k := c]> (partyChannels chat)) chat) = chat.
Proof.
  intros Hk. unfold set_party. simpl.
  rewrite delete_insert_id by done. by destruct chat.
Qed.

Lemma set_private_restore chat k c :
  privateChannels chat !! k = None →
  set_private (delete k (<[k := c]> (privateChannels chat)))
    (set_private (<[k := c]> (privateChannels chat)) chat) = chat.
Proof.
  intros Hk. unfold set_private. simpl.
  rewrite delete_insert_id by done. by destruct chat.
Qed.

(** X7. A private channel just created resolves for its owner under the
    new id exactly when no static channel has that id: [getChannel] looks
    the id up among the static channels first, and a static channel under
    the same id hides the private one from every player. *)
Theorem created_private_resolves_unless_shadowed (chat : Chat) (p : Player)
    (r : ChannelRef) (ch : Channel) (chat' : Chat) (t : list Effect) :
  createChannel lua chat p CHANNEL_PRIVATE = (Some (r, ch), chat', t) →
  ∃ i pc,
    r = InPrivate i ∧ ch = Private pc
    ∧ (i ≠ CHANNEL_GUILD → i ≠ CHANNEL_PARTY →
       normalChannels chat !! i = None →
       getChannel lua chat' p i = (Some (InPrivate i, Private pc), []))
    ∧ (i ≠ CHANNEL_GUILD → i ≠ CHANNEL_PARTY →
       is_Some (normalChannels chat !! i) →
       ∀ q r' ch' t', getChannel lua chat' q i = (Some (r', ch'), t') →
         r' = InNormal i).
Proof.
  rewrite createChannel_private by done.
  destruct (getChannel lua chat p CHANNEL_PRIVATE) as [[?|] t0]; [done|].
  destruct (negb (isPremium p) || _); [done|].
  pose proof (createPrivate_range chat p) as Hscan.
  destruct (createPrivate (seqZ 100 9900) chat p) as [[[r' ch']|] chat''];
    [|done].
  intros [= -> -> -> _].
  destruct Hscan as (i & pc & Hi & Hfree & Hbelow & -> & -> & Ho & Hid & Hu
                     & Hinv & Hjoin & Hspeak & ->).
  exists i, pc. split; [done|]. split; [done|]. split.
  - intros Hg Hp Hn. unfold getChannel.
    rewrite !decide_False by done. cbn [normalChannels set_private].
    rewrite Hn. cbn [privateChannels set_private].
    rewrite lookup_insert_eq.
    unfold isInvited. by rewrite decide_True.
  - intros Hg Hp [c Hc] q r' ch' t'. unfold getChannel.
    rewrite !decide_False by done. cbn [normalChannels set_private].
    rewrite Hc. destruct (executeCanJoinEvent lua c q) as [[] ?];
      by intros [=].
Qed.

(** X8. The life of a guild channel.  A player without a guild can
    neither create nor delete one.  For a player whose guild has no
    channel yet, [createChannel] files a new, empty channel under the
    guild's id, named after the guild; from then on the guild id resolves
    to it for every member of that guild and a second creation is
    refused, so a guild never has two channels; and [deleteChannel] then
    gives back the registry exactly as it was, without a notification. *)
Theorem guild_channel_lifecycle (chat : Chat) (p : Player) :
  (getGuild p = None →
   createChannel lua chat p CHANNEL_GUILD = (None, chat, [])
   ∧ deleteChannel chat p CHANNEL_GUILD = (false, chat, []))
  ∧ (∀ g, getGuild p = Some g →
       guildChannels chat !! guild_getId g = None →
       let c := ChatChannel_new CHANNEL_GUILD (guild_getName g) in
       let chat' :=
         set_guild (<[guild_getId g := c]> (guildChannels chat)) chat in
       createChannel lua chat p CHANNEL_GUILD =
         (Some (InGuild (guild_getId g), Plain c), chat', [])
       ∧ (∀ q g', getGuild q = Some g' → guild_getId g' = guild_getId g →
            getChannel lua chat' q CHANNEL_GUILD =
              (Some (InGuild (guild_getId g), Plain c), [])
            ∧ createChannel lua chat' q CHANNEL_GUILD = (None, chat', []))
       ∧ deleteChannel chat' p CHANNEL_GUILD = (true, chat, [])).
Proof.
  split.
  - intros Hg. unfold createChannel, deleteChannel, getChannel.
    by run_switch.
  - intros g Hg Hnone c chat'. split; [|split].
    + unfold createChannel, getChannel. by run_switch.
    + intros q g' Hq Hsame.
      assert (getChannel lua chat' q CHANNEL_GUILD =
                (Some (InGuild (guild_getId g), Plain c), [])) as Hget.
      { unfold getChannel. rewrite decide_True, Hq, Hsame by done.
        unfold chat'. cbn [guildChannels set_guild].
        by rewrite lookup_insert_eq. }
      split; [done|]. unfold createChannel. by rewrite Hget.
    + unfold deleteChannel. rewrite decide_True, Hg by done.
      unfold chat'. cbn [guildChannels set_guild].
      rewrite lookup_insert_eq. by rewrite set_guild_restore.
Qed.

(** X9. The life of a party channel, keyed by the party's identity: no
    party, no channel; a first creation files an empty channel named
    "Party"; every member of that party then resolves it and a second
    creation is refused; deletion gives the registry back as it was. *)
Theorem party_channel_lifecycle (chat : Chat) (p : Player) :
  (getParty p = None →
   createChannel lua chat p CHANNEL_PARTY = (None, chat, [])
   ∧ deleteChannel chat p CHANNEL_PARTY = (false, chat, []))
  ∧ (∀ party, getParty p = Some party →
       partyChannels chat !! party = None →
       let c := ChatChannel_new CHANNEL_PARTY "Party" in
       let chat' := set_party (<[party := c]> (partyChannels chat)) chat in
       createChannel lua chat p CHANNEL_PARTY =
         (Some (InParty party, Plain c), chat', [])
       ∧ (∀ q, getParty q = Some party →
            getChannel lua chat' q CHANNEL_PARTY =
              (Some (InParty party, Plain c), [])
            ∧ createChannel lua chat' q CHANNEL_PARTY = (None, chat', []))
       ∧ deleteChannel chat' p CHANNEL_PARTY = (true, chat, [])).
Proof.
  split.
  - intros Hg. unfold createChannel, deleteChannel, getChannel.
    by run_switch.
  - intros party Hg Hnone c chat'. split; [|split].
    + unfold createChannel, getChannel. by run_switch.
    + intros q Hq.
      assert (getChannel lua chat' q CHANNEL_PARTY =
                (Some (InParty party, Plain c), [])) as Hget.
      { unfold getChannel.
        rewrite (decide_False (P := CHANNEL_PARTY = CHANNEL_GUILD)) by done.
        rewrite decide_True, Hq by done.
        unfold chat'. cbn [partyChannels set_party].
        by rewrite lookup_insert_eq. }
      split; [done|]. unfold createChannel. by rewrite Hget.
    + unfold deleteChannel.
      rewrite (decide_False (P := CHANNEL_PARTY = CHANNEL_GUILD)) by done.
      rewrite decide_True, Hg by done.
      unfold chat'. cbn [partyChannels set_party].
      rewrite lookup_insert_eq. by rewrite set_party_restore.
Qed.

(** X10. Creating a private channel and deleting it again is a round
    trip, whoever deletes: after a successful creation, [deleteChannel]
    under the new id succeeds for every player, sends nothing (the channel
    has no member yet) and gives back the registry exactly as it was. *)
Theorem create_then_delete_private_restores (chat : Chat) (p q : Player)
    (i : Z) (ch : Channel) (chat' : Chat) (t : list Effect) :
  createChannel lua chat p CHANNEL_PRIVATE = (Some (InPrivate i, ch), chat', t) →
  i ≠ CHANNEL_GUILD → i ≠ CHANNEL_PARTY →
  deleteChannel chat' q i = (true, chat, []).
Proof.
  rewrite createChannel_private by done.
  destruct (getChannel lua chat p CHANNEL_PRIVATE) as [[?|] t0]; [done|].
  destruct (negb (isPremium p) || _); [done|].
  pose proof (createPrivate_range chat p) as Hscan.
  destruct (createPrivate (seqZ 100 9900) chat p) as [[[r' ch']|] chat''];
    [|done].
  intros [= -> -> -> _] Hg Hp.
  destruct Hscan as (i' & pc & Hi & Hfree & Hbelow & [= ->] & -> & Ho & Hid
                     & Hu & Hinv & Hjoin & Hspeak & ->).
  unfold deleteChannel. rewrite !decide_False by done.
  cbn [privateChannels set_private]. rewrite lookup_insert_eq.
  rewrite set_private_restore by done.
  unfold closeChannel. by rewrite Hu, in_order_empty.
Qed.

(** X11. [deleteChannel] on an id other than the guild and party ids acts
    on the private collection alone and does not look at the player: two
    players get the same result.  It fails, changing nothing, when no
    private channel has the id; otherwise it erases that one entry, and
    its trace is one close notice for each member of the channel and
    nothing else.  A static channel under the same id is never touched. *)
Theorem deleteChannel_private_by_anyone (chat : Chat) (p q : Player)
    (k : Z) :
  k ≠ CHANNEL_GUILD → k ≠ CHANNEL_PARTY →
  let res := deleteChannel chat p k in
  res = deleteChannel chat q k
  ∧ res.1.1 = bool_decide (is_Some (privateChannels chat !! k))
  ∧ privateChannels res.1.2 = delete k (privateChannels chat)
  ∧ normalChannels res.1.2 = normalChannels chat
  ∧ guildChannels res.1.2 = guildChannels chat
  ∧ partyChannels res.1.2 = partyChannels chat
  ∧ (res.1.1 = false → res.1.2 = chat ∧ res.2 = [])
  ∧ (∀ pc, privateChannels chat !! k = Some pc →
       length res.2 = size (users (base pc))
       ∧ ∀ e, e ∈ res.2 ↔
           ∃ k' u, users (base pc) !! k' = Some u
                   ∧ e = sendClosePrivate u (chan_id (base pc))).
Proof.
  intros Hg Hp. unfold deleteChannel. rewrite !decide_False by done.
  destruct (privateChannels chat !! k) as [pc|] eqn:Hk; simpl.
  - repeat split; try done.
    + by injection H as <-; unfold closeChannel;
        rewrite length_fmap, length_in_order.
    + injection H as <-. unfold closeChannel. intros He.
      apply list_elem_of_fmap in He as ([k' u] & -> & Hin).
      apply elem_of_in_order in Hin. by exists k', u.
    + injection H as <-. intros (k' & u & Hu & ->). unfold closeChannel.
      apply list_elem_of_fmap. exists (k', u). split; [done|].
      by apply elem_of_in_order.
  - rewrite delete_id by done. repeat split; try done.
Qed.

End lifecycle_facts.

(** ** The registry: what every operation keeps *)

Section invariant_facts.
Context {hdr : Header}.
Variable lua : LuaScriptInterface.

Lemma addUser_chan_id c p : chan_id (addUser lua c p).1.2 = chan_id c.
Proof.
  unfold addUser. destruct (users c !! getID p); [done|].
  by destruct (executeOnJoinEvent lua c p) as [[] ?].
Qed.

Lemma removeUser_chan_id c p : chan_id (removeUser lua c p).1.2 = chan_id c.
Proof.
  unfold removeUser. destruct (users c !! getID p); [|done].
  simpl. by destruct (executeOnLeaveEvent lua _ p).
Qed.

Lemma private_wf_same chat chat' :
  privateChannels chat' = privateChannels chat →
  private_wf chat → private_wf chat'.
Proof. unfold private_wf. by intros ->. Qed.

Lemma private_wf_delete chat chat' k :
  privateChannels chat' = delete k (privateChannels chat) →
  private_wf chat → private_wf chat'.
Proof.
  unfold private_wf. intros -> [Hid Hown]. split.
  - intros j c Hj. apply lookup_delete_Some in Hj as [_ Hj]. eauto.
  - intros k1 k2 c1 c2 H1 H2. apply lookup_delete_Some in H1 as [_ H1].
    apply lookup_delete_Some in H2 as [_ H2]. eauto.
Qed.

Lemma private_wf_alter chat chat' k b :
  privateChannels chat' = alter (set_base b) k (privateChannels chat) →
  (∀ c, privateChannels chat !! k = Some c → chan_id b = chan_id (base c)) →
  private_wf chat → private_wf chat'.
Proof.
  unfold private_wf. intros -> Hb [Hid Hown].
  assert (∀ j c, alter (set_base b) k (privateChannels chat) !! j = Some c →
            ∃ c0, privateChannels chat !! j = Some c0
                  ∧ owner c = owner c0
                  ∧ chan_id (base c) = chan_id (base c0)) as Hback.
  { intros j c. rewrite lookup_alter. case_decide as Hj.
    - subst j. destruct (privateChannels chat !! k) as [c0|] eqn:Hk;
        simpl; [|done].
      intros [= <-]. exists c0. simpl. split; [done|]. split; [done|].
      by apply Hb.
    - intros Hc. by exists c. }
  split.
  - intros j c Hj. apply Hback in Hj as (c0 & Hj & _ & ->). eauto.
  - intros k1 k2 c1 c2 H1 H2.
    apply Hback in H1 as (d1 & H1 & -> & _).
    apply Hback in H2 as (d2 & H2 & -> & _). eauto.
Qed.

Lemma private_wf_insert chat chat' i pc :
  privateChannels chat' = <[i := pc]> (privateChannels chat) →
  chan_id (base pc) = i → 100 ≤ i < 10000 →
  (∀ k c, privateChannels chat !! k = Some c → owner c ≠ owner pc) →
  private_wf chat → private_wf chat'.
Proof.
  unfold private_wf. intros -> Hid Hi Hfresh [Hkey Hown]. split.
  - intros j c. rewrite lookup_insert. case_decide as Hj.
    + subst j. by intros [= <-].
    + eauto.
  - intros k1 k2 c1 c2. rewrite !lookup_insert.
    repeat case_decide; subst; try done.
    + intros [= <-] H2 Ho. by destruct (Hfresh _ _ H2).
    + intros H1 [= <-] Ho. by destruct (Hfresh _ _ H1).
    + eauto.
Qed.

(** What [createChannel] does to the private collection, whatever the id
    asked for. *)
Lemma createChannel_private_effect chat p channelId :
  let chat' := (createChannel lua chat p channelId).1.2 in
  normalChannels chat' = normalChannels chat
  ∧ (privateChannels chat' = privateChannels chat
     ∨ ∃ i pc,
         privateChannels chat' = <[i := pc]> (privateChannels chat)
         ∧ chan_id (base pc) = i ∧ 100 ≤ i < 10000
         ∧ owner pc = getGUID p ∧ owns_none chat p).
Proof.
  unfold createChannel.
  destruct (getChannel lua chat p channelId) as [[?|] t0]; [by auto|].
  case_decide; [repeat case_match; by auto|].
  case_decide; [repeat case_match; by auto|].
  case_decide; [|by auto].
  destruct (isPremium p); cbn [negb orb]; [|by auto].
  case_bool_decide as Hown; [by auto|].
  rewrite <- not_eq_None_Some in Hown.
  apply dec_stable in Hown. apply getPrivateChannel_None in Hown.
  pose proof (createPrivate_range chat p) as Hscan.
  destruct (createPrivate (seqZ 100 9900) chat p) as [[[r ch]|] chat''].
  - destruct Hscan as (i & pc & Hi & Hfree & Hbelow & -> & -> & Ho & Hid & _
                       & _ & _ & _ & ->).
    cbn [fst snd normalChannels privateChannels set_private].
    split; [done|]. right. by exists i, pc.
  - destruct Hscan as [-> _]. by auto.
Qed.

Lemma deleteChannel_effect chat p channelId :
  let chat' := (deleteChannel chat p channelId).1.2 in
  normalChannels chat' = normalChannels chat
  ∧ (privateChannels chat' = privateChannels chat
     ∨ privateChannels chat' = delete channelId (privateChannels chat)).
Proof.
  unfold deleteChannel. repeat case_match; simpl; auto.
Qed.

Lemma store_base_effect chat p channelId r ch t b :
  resolved lua chat p channelId r ch t →
  chan_id b = chan_id (as_base ch) →
  let chat' := store_base chat r b in
  dom (normalChannels chat') = dom (normalChannels chat)
  ∧ (privateChannels chat' = privateChannels chat
     ∨ ∃ k, privateChannels chat' = alter (set_base b) k (privateChannels chat)
            ∧ ∀ c, privateChannels chat !! k = Some c →
                chan_id b = chan_id (base c)).
Proof.
  intros Hres Hb. destruct Hres; simpl in *; try by auto.
  - split; [|by auto]. by apply dom_insert_lookup_L.
  - split; [done|]. right. exists channelId. split; [done|].
    intros c Hc. congruence.
Qed.

Lemma listOrCreate_effect chat p channelId :
  let chat' := (listOrCreate lua chat p channelId).1.2 in
  normalChannels chat' = normalChannels chat
  ∧ (privateChannels chat' = privateChannels chat
     ∨ ∃ i pc,
         privateChannels chat' = <[i := pc]> (privateChannels chat)
         ∧ chan_id (base pc) = i ∧ 100 ≤ i < 10000
         ∧ owner pc = getGUID p ∧ owns_none chat p).
Proof.
  unfold listOrCreate.
  destruct (getChannel lua chat p channelId) as [[[r ch]|] t0]; [by auto|].
  pose proof (createChannel_private_effect chat p channelId) as H.
  destruct (createChannel lua chat p channelId) as [[created chat'] t1].
  by destruct created as [[]|].
Qed.

Lemma private_wf_effect chat chat' p :
  (privateChannels chat' = privateChannels chat
   ∨ ∃ i pc,
       privateChannels chat' = <[i := pc]> (privateChannels chat)
       ∧ chan_id (base pc) = i ∧ 100 ≤ i < 10000
       ∧ owner pc = getGUID p ∧ owns_none chat p) →
  private_wf chat → private_wf chat'.
Proof.
  intros [Hsame|(i & pc & Hins & Hid & Hi & Ho & Hnone)] Hwf.
  - by eapply private_wf_same.
  - eapply private_wf_insert; try done. intros k c Hk. rewrite Ho.
    by eapply Hnone.
Qed.

Lemma addUserToChannel_effect chat p channelId :
  let chat' := (addUserToChannel lua chat p channelId).1.2 in
  dom (normalChannels chat') = dom (normalChannels chat)
  ∧ (privateChannels chat' = privateChannels chat
     ∨ ∃ k b, privateChannels chat' = alter (set_base b) k (privateChannels chat)
              ∧ ∀ c, privateChannels chat !! k = Some c →
                  chan_id b = chan_id (base c)).
Proof.
  unfold addUserToChannel.
  destruct (getChannel lua chat p channelId) as [[[r ch]|] t0] eqn:Hget;
    [|by auto].
  apply getChannel_resolved in Hget.
  pose proof (addUser_chan_id (as_base ch) p) as Hid.
  destruct (addUser lua (as_base ch) p) as [[ok b] t1]. simpl in Hid.
  destruct (store_base_effect _ _ _ _ _ _ b Hget Hid) as [Hn [Hp|[k Hp]]];
    cbn [fst snd]; eauto.
Qed.

Lemma removeUserFromChannel_effect chat p channelId :
  let chat' := (removeUserFromChannel lua chat p channelId).1.2 in
  dom (normalChannels chat') = dom (normalChannels chat)
  ∧ ∃ chat1,
      (privateChannels chat1 = privateChannels chat
       ∨ ∃ k b, privateChannels chat1
                = alter (set_base b) k (privateChannels chat)
                ∧ ∀ c, privateChannels chat !! k = Some c →
                    chan_id b = chan_id (base c))
      ∧ (privateChannels chat' = privateChannels chat1
         ∨ privateChannels chat' = delete channelId (privateChannels chat1)).
Proof.
  unfold removeUserFromChannel.
  destruct (getChannel lua chat p channelId) as [[[r ch]|] t0] eqn:Hget;
    [|cbn [fst snd]; split; [done|]; exists chat; by auto].
  apply getChannel_resolved in Hget.
  pose proof (removeUser_chan_id (as_base ch) p) as Hid.
  destruct (removeUser lua (as_base ch) p) as [[ok b] t1]. simpl in Hid.
  destruct (store_base_effect _ _ _ _ _ _ b Hget Hid) as [Hn Hp].
  assert (privateChannels (store_base chat r b) = privateChannels chat
          ∨ ∃ k b0, privateChannels (store_base chat r b)
                    = alter (set_base b0) k (privateChannels chat)
                    ∧ ∀ c, privateChannels chat !! k = Some c →
                        chan_id b0 = chan_id (base c)) as Hp'.
  { destruct Hp as [Hp|[k Hp]]; eauto. }
  destruct ok; cbn [negb fst snd];
    [|split; [done|]; exists (store_base chat r b); by auto].
  case_decide;
    [|cbn [fst snd]; split; [done|]; exists (store_base chat r b); by auto].
  pose proof (deleteChannel_effect (store_base chat r b) p channelId)
    as [Hdn Hdp].
  destruct (deleteChannel (store_base chat r b) p channelId) as [[? chat2] t2].
  cbn [fst snd] in *. split; [congruence|].
  exists (store_base chat r b). by split.
Qed.

Lemma loadNode_effect chat node :
  let chat' := (loadNode lua chat node).1 in
  privateChannels chat' = privateChannels chat
  ∧ guildChannels chat' = guildChannels chat
  ∧ partyChannels chat' = partyChannels chat
  ∧ dom (normalChannels chat')
    = {[to_uint16 (node_id node)]} ∪ dom (normalChannels chat).
Proof.
  unfold loadNode.
  destruct (normalChannels chat !! to_uint16 (node_id node)) as [c|].
  - destruct (loadScript lua _ _) as [c2 t1].
    destruct (readdUsers lua _ _) as [c3 t2]. simpl.
    by rewrite dom_insert_L.
  - pose proof (loadScript_spec lua (node_script node)
                  (set_public_name (node_public node) (node_name node)
                     (ChatChannel_new (to_uint16 (node_id node))
                        (node_name node)))) as (_ & Hid & _).
    destruct (loadScript lua _ _) as [c2 t1]. simpl in *.
    by rewrite dom_insert_L, Hid.
Qed.

Lemma getChannelList_effect chat p :
  let chat' := (getChannelList lua chat p).1.2 in
  normalChannels chat' = normalChannels chat
  ∧ ∃ chat1,
      normalChannels chat1 = normalChannels chat
      ∧ (privateChannels chat1 = privateChannels chat
         ∨ ∃ i pc,
             privateChannels chat1 = <[i := pc]> (privateChannels chat)
             ∧ chan_id (base pc) = i ∧ 100 ≤ i < 10000
             ∧ owner pc = getGUID p ∧ owns_none chat p)
      ∧ (privateChannels chat' = privateChannels chat1
         ∨ ∃ i pc,
             privateChannels chat' = <[i := pc]> (privateChannels chat1)
             ∧ chan_id (base pc) = i ∧ 100 ≤ i < 10000
             ∧ owner pc = getGUID p ∧ owns_none chat1 p).
Proof.
  unfold getChannelList.
  assert (∃ r1, r1 = match getGuild p with
                     | Some _ => listOrCreate lua chat p CHANNEL_GUILD
                     | None => ([], chat, [])
                     end) as [r1 Hr1] by eauto.
  rewrite <- Hr1. destruct r1 as [[l1 chat1] t1].
  assert (normalChannels chat1 = normalChannels chat
          ∧ (privateChannels chat1 = privateChannels chat
             ∨ ∃ i pc,
                 privateChannels chat1 = <[i := pc]> (privateChannels chat)
                 ∧ chan_id (base pc) = i ∧ 100 ≤ i < 10000
                 ∧ owner pc = getGUID p ∧ owns_none chat p)) as [Hn1 Hp1].
  { destruct (getGuild p).
    - pose proof (listOrCreate_effect chat p CHANNEL_GUILD) as H.
      by rewrite <- Hr1 in H.
    - injection Hr1 as _ -> _. by auto. }
  assert (∃ r2, r2 = match getParty p with
                     | Some _ => listOrCreate lua chat1 p CHANNEL_PARTY
                     | None => ([], chat1, [])
                     end) as [r2 Hr2] by eauto.
  rewrite <- Hr2. destruct r2 as [[l2 chat2] t2].
  assert (normalChannels chat2 = normalChannels chat1
          ∧ (privateChannels chat2 = privateChannels chat1
             ∨ ∃ i pc,
                 privateChannels chat2 = <[i := pc]> (privateChannels chat1)
                 ∧ chan_id (base pc) = i ∧ 100 ≤ i < 10000
                 ∧ owner pc = getGUID p ∧ owns_none chat1 p)) as [Hn2 Hp2].
  { destruct (getParty p).
    - pose proof (listOrCreate_effect chat1 p CHANNEL_PARTY) as H.
      by rewrite <- Hr2 in H.
    - injection Hr2 as _ -> _. by auto. }
  destruct (listNormal lua _ chat2 p) as [l3 t3].
  destruct (listPrivate _ _) as [l4 hasPrivate]. cbn [fst snd].
  split; [congruence|]. by exists chat1.
Qed.

(** X12. The operations of the registry keep the private collection in
    shape: if each private channel sits under its own id, the ids lie in
    [100, 10000) and no two private channels have the same owner, the
    same holds after [createChannel], [deleteChannel], [addUserToChannel],
    [removeUserFromChannel], the load of a configuration node and
    [getChannelList], and after [removeUserFromAllChannels] for a player
    who owns no private channel.  (For an owner that loop runs on after
    [privateChannels.clear()], where the C++ is undefined; nothing is
    stated about it.) *)
Theorem private_collection_stays_well_formed (chat : Chat) (p : Player)
    (channelId : Z) (node : ChannelNode) :
  private_wf chat →
  private_wf (createChannel lua chat p channelId).1.2
  ∧ private_wf (deleteChannel chat p channelId).1.2
  ∧ private_wf (addUserToChannel lua chat p channelId).1.2
  ∧ private_wf (removeUserFromChannel lua chat p channelId).1.2
  ∧ (owns_none chat p → private_wf (removeUserFromAllChannels lua chat p).1)
  ∧ private_wf (loadNode lua chat node).1
  ∧ private_wf (getChannelList lua chat p).1.2.
Proof.
  intros Hwf. split; [|split; [|split; [|split; [|split; [|split]]]]].
  - eapply private_wf_effect; [|done].
    apply (createChannel_private_effect chat p channelId).
  - destruct (deleteChannel_effect chat p channelId) as [_ [H|H]].
    + by eapply private_wf_same.
    + by eapply private_wf_delete.
  - destruct (addUserToChannel_effect chat p channelId)
      as [_ [H|(k & b & H & Hb)]].
    + by eapply private_wf_same.
    + by eapply private_wf_alter.
  - destruct (removeUserFromChannel_effect chat p channelId)
      as [_ (chat1 & H1 & H2)].
    assert (private_wf chat1) as Hwf1.
    { destruct H1 as [H|(k & b & H & Hb)].
      - by eapply private_wf_same.
      - by eapply private_wf_alter. }
    destruct H2 as [H|H].
    + by eapply private_wf_same.
    + by eapply private_wf_delete.
  - intros Hnone. eapply private_wf_same; [|done].
    by apply removeUserFromAllChannels_guest_kept.
  - eapply private_wf_same; [|done]. apply (loadNode_effect chat node).
  - destruct (getChannelList_effect chat p) as [_ (chat1 & _ & H1 & H2)].
    eapply private_wf_effect; [exact H2|].
    by eapply private_wf_effect.
Qed.

Lemma removeUserFromAllChannels_shared chat p :
  let chat' := (removeUserFromAllChannels lua chat p).1 in
  normalChannels chat' = (removeUser_each lua (normalChannels chat) p).1
  ∧ partyChannels chat' = (removeUser_each lua (partyChannels chat) p).1
  ∧ guildChannels chat' = (removeUser_each lua (guildChannels chat) p).1.
Proof.
  unfold removeUserFromAllChannels.
  repeat match goal with |- context [let '(_, _) := ?x in _] =>
    destruct x end.
  done.
Qed.

Lemma removeUser_each_map (m : gmap Z ChatChannel) p :
  (removeUser_each lua m p).1 =
    (λ c, set_users (delete (getID p) (users c)) c) <$> m.
Proof.
  apply map_eq. intros k.
  by rewrite removeUser_each_lookup, lookup_fmap.
Qed.

Lemma loadNodes_effect nodes : ∀ chat,
  let chat' := (loadNodes lua nodes chat).1 in
  privateChannels chat' = privateChannels chat
  ∧ guildChannels chat' = guildChannels chat
  ∧ partyChannels chat' = partyChannels chat
  ∧ dom (normalChannels chat')
    = list_to_set ((λ n, to_uint16 (node_id n)) <$> nodes)
      ∪ dom (normalChannels chat).
Proof.
  induction nodes as [|node nodes IH]; intros chat; simpl.
  { repeat split; try done. by rewrite (left_id_L ∅ (∪)). }
  pose proof (loadNode_effect chat node) as (H1 & H2 & H3 & H4).
  destruct (loadNode lua chat node) as [chat1 t1].
  specialize (IH chat1). destruct (loadNodes lua nodes chat1) as [chat2 t2].
  simpl in *. destruct IH as (I1 & I2 & I3 & I4).
  repeat split; try congruence.
  rewrite I4, H4, (assoc_L (∪)).
  by rewrite (comm_L (∪) (list_to_set _) {[_]}).
Qed.

(** X13. Static channels are never removed at run time.  The set of
    static channel ids is the same after [createChannel], [deleteChannel],
    [addUserToChannel], [removeUserFromChannel] and [getChannelList], and
    after [removeUserFromAllChannels] for a player who owns no private
    channel (for an owner the C++ is undefined after
    [privateChannels.clear()], and nothing is stated).  Loading a list of
    configuration nodes adds to it exactly the ids of the nodes, each cut
    to 16 bits, removes none, and leaves the private, guild and party
    collections as they were. *)
Theorem static_channels_are_never_removed (chat : Chat) (p : Player)
    (channelId : Z) (nodes : list ChannelNode) :
  dom (normalChannels (createChannel lua chat p channelId).1.2)
    = dom (normalChannels chat)
  ∧ dom (normalChannels (deleteChannel chat p channelId).1.2)
    = dom (normalChannels chat)
  ∧ dom (normalChannels (addUserToChannel lua chat p channelId).1.2)
    = dom (normalChannels chat)
  ∧ dom (normalChannels (removeUserFromChannel lua chat p channelId).1.2)
    = dom (normalChannels chat)
  ∧ (owns_none chat p →
     dom (normalChannels (removeUserFromAllChannels lua chat p).1)
     = dom (normalChannels chat))
  ∧ dom (normalChannels (getChannelList lua chat p).1.2)
    = dom (normalChannels chat)
  ∧ dom (normalChannels (loadNodes lua nodes chat).1)
    = list_to_set ((λ n, to_uint16 (node_id n)) <$> nodes)
      ∪ dom (normalChannels chat)
  ∧ privateChannels (loadNodes lua nodes chat).1 = privateChannels chat
  ∧ guildChannels (loadNodes lua nodes chat).1 = guildChannels chat
  ∧ partyChannels (loadNodes lua nodes chat).1 = partyChannels chat.
Proof.
  pose proof (loadNodes_effect nodes chat) as (L1 & L2 & L3 & L4).
  split; [|split; [|split; [|split; [|split; [|split; [|by repeat split]]]]]].
  - by destruct (createChannel_private_effect chat p channelId) as [-> _].
  - by destruct (deleteChannel_effect chat p channelId) as [-> _].
  - by destruct (addUserToChannel_effect chat p channelId) as [-> _].
  - by destruct (removeUserFromChannel_effect chat p channelId) as [-> _].
  - intros _. destruct (removeUserFromAllChannels_shared chat p) as (-> & _).
    by rewrite removeUser_each_map, dom_fmap_L.
  - by destruct (getChannelList_effect chat p) as [-> _].
Qed.

(** X14. Leaving every channel, for a player who owns no private channel
    (for an owner the C++ is undefined after [privateChannels.clear()]),
    as far as the static, party and guild collections go: each of them
    keeps all its channels, and each channel keeps its id, name, hooks and
    members, less the player.  Afterwards the player is in the membership
    ledger of none of them; the [onLeave] hook cannot keep a member in. *)
Theorem removeUserFromAllChannels_leaves_shared_channels (chat : Chat)
    (p : Player) :
  owns_none chat p →
  let chat' := (removeUserFromAllChannels lua chat p).1 in
  let without := λ c, set_users (delete (getID p) (users c)) c in
  normalChannels chat' = without <$> normalChannels chat
  ∧ partyChannels chat' = without <$> partyChannels chat
  ∧ guildChannels chat' = without <$> guildChannels chat
  ∧ member_nowhere (normalChannels chat') p
  ∧ member_nowhere (partyChannels chat') p
  ∧ member_nowhere (guildChannels chat') p.
Proof.
  intros _ chat' without.
  destruct (removeUserFromAllChannels_shared chat p) as (Hn & Hp & Hg).
  fold chat' in Hn, Hp, Hg.
  rewrite removeUser_each_map in Hn, Hp, Hg. fold without in Hn, Hp, Hg.
  assert (∀ m, member_nowhere (without <$> m) p) as Hnowhere.
  { intros m k c. rewrite lookup_fmap.
    destruct (m !! k) as [c0|]; simpl; [|done].
    intros [= <-]. simpl. apply lookup_delete_eq. }
  rewrite Hn, Hp, Hg. by repeat split.
Qed.

(** X15. A private channel is closed to strangers.  [addUserToChannel]
    hands out a private channel only to a player who is its owner or
    holds an invite.  And when an id resolves to no static channel, a
    player who is neither owner nor invited gets nothing from the private
    channel under it: resolving, joining, leaving and speaking all fail,
    change nothing and send nothing, even for a player who is still in its
    membership ledger. *)
Theorem private_channel_needs_invitation (chat : Chat) (p : Player)
    (channelId : Z) :
  (∀ k chat' t,
     addUserToChannel lua chat p channelId = (Some (InPrivate k), chat', t) →
     ∃ pc, k = channelId ∧ privateChannels chat !! k = Some pc
           ∧ isInvited pc (getGUID p) = true
           ∧ users (base pc) !! getID p = None)
  ∧ (∀ pc type text,
       channelId ≠ CHANNEL_GUILD → channelId ≠ CHANNEL_PARTY →
       normalChannels chat !! channelId = None →
       privateChannels chat !! channelId = Some pc →
       isInvited pc (getGUID p) = false →
       getChannel lua chat p channelId = (None, [])
       ∧ addUserToChannel lua chat p channelId = (None, chat, [])
       ∧ removeUserFromChannel lua chat p channelId = (false, chat, [])
       ∧ talkToChannel lua chat p type text channelId = (false, [])).
Proof.
  split.
  - intros k chat' t. unfold addUserToChannel.
    destruct (getChannel lua chat p channelId) as [[[r ch]|] t0] eqn:Hget;
      [|by intros [=]].
    apply getChannel_resolved in Hget.
    destruct (addUser lua (as_base ch) p) as [[ok b] t1] eqn:Hadd.
    destruct ok; [|by intros [=]]. intros [= -> _ _].
    inversion Hget; subst. exists pc. repeat split; try done.
    simpl in Hadd. revert Hadd. unfold addUser.
    by destruct (users (base pc) !! getID p); [intros [=]|].
  - intros pc type text Hg Hp Hn Hk Hinv.
    assert (getChannel lua chat p channelId = (None, [])) as Hget.
    { unfold getChannel. by rewrite !decide_False, Hn, Hk, Hinv by done. }
    unfold addUserToChannel, removeUserFromChannel, talkToChannel.
    by rewrite Hget.
Qed.

End invariant_facts.

(** ** The registry: the channel list *)

Section list_facts.
Context {hdr : Header}.
Variable lua : LuaScriptInterface.

Hypothesis party_not_guild : CHANNEL_PARTY ≠ CHANNEL_GUILD.

Lemma getChannel_calm chat p channelId :
  Forall (λ e, ¬ notifies e) (getChannel lua chat p channelId).2.
Proof.
  unfold getChannel, executeCanJoinEvent.
  pose proof (λ ev q, proj1 (executeEvent_calm lua ev q)) as Hq.
  repeat case_match; simpl; try constructor.
  all: match goal with
       | H : executeEvent lua ?ev ?q = (_, ?t) |- Forall _ ?t =>
         specialize (Hq ev q); by rewrite H in Hq
       end.
Qed.

(** On the guild and party ids nothing private is resolved or created. *)
Lemma getChannel_reserved chat p channelId r ch t :
  channelId = CHANNEL_GUILD ∨ channelId = CHANNEL_PARTY →
  getChannel lua chat p channelId = (Some (r, ch), t) →
  shared_entry (Listed r ch) ∧ t = [].
Proof.
  intros Hid Hget. apply getChannel_resolved in Hget.
  destruct Hget; simpl; try done; by destruct Hid.
Qed.

Lemma createChannel_reserved chat p channelId :
  channelId = CHANNEL_GUILD ∨ channelId = CHANNEL_PARTY →
  let res := createChannel lua chat p channelId in
  privateChannels res.1.2 = privateChannels chat
  ∧ normalChannels res.1.2 = normalChannels chat
  ∧ (∀ r ch, res.1.1 = Some (r, ch) → shared_entry (Listed r ch))
  ∧ Forall (λ e, ¬ notifies e) res.2.
Proof.
  intros Hid. unfold createChannel.
  pose proof (getChannel_calm chat p channelId) as Hcalm.
  destruct (getChannel lua chat p channelId) as [[?|] t0]; simpl in Hcalm;
    [done|].
  case_decide; [by repeat case_match; simpl; repeat split; intros; simplify_eq|].
  case_decide; [by repeat case_match; simpl; repeat split; intros; simplify_eq|].
  by destruct Hid.
Qed.

Lemma listOrCreate_reserved chat p channelId :
  channelId = CHANNEL_GUILD ∨ channelId = CHANNEL_PARTY →
  let res := listOrCreate lua chat p channelId in
  privateChannels res.1.2 = privateChannels chat
  ∧ normalChannels res.1.2 = normalChannels chat
  ∧ Forall shared_entry res.1.1
  ∧ Forall (λ e, ¬ notifies e) res.2.
Proof.
  intros Hid. unfold listOrCreate.
  pose proof (getChannel_calm chat p channelId) as Hcalm.
  destruct (getChannel lua chat p channelId) as [[[r ch]|] t0] eqn:Hget;
    simpl in Hcalm.
  - simpl. repeat split; try done. repeat constructor.
    apply (getChannel_reserved chat p channelId r ch t0 Hid Hget).
  - pose proof (createChannel_reserved chat p channelId Hid)
      as (H1 & H2 & H3 & H4).
    destruct (createChannel lua chat p channelId) as [[created chat'] t1].
    simpl in *. repeat split; try done.
    + destruct created as [[r ch]|]; [|done].
      repeat constructor. by apply (H3 r ch).
    + by apply Forall_app.
Qed.

Lemma listNormal_shared ids chat p :
  (∀ k, k ∈ ids → is_Some (normalChannels chat !! k)) →
  Forall shared_entry (listNormal lua ids chat p).1
  ∧ Forall (λ e, ¬ notifies e) (listNormal lua ids chat p).2.
Proof.
  induction ids as [|k ids IH]; intros Hids; simpl; [by split|].
  pose proof (getChannel_calm chat p k) as Hcalm.
  destruct (getChannel lua chat p k) as [found t0] eqn:Hget.
  destruct IH as [IH1 IH2]; [intros; apply Hids; by right|].
  destruct (listNormal lua ids chat p) as [l t1]. simpl in *.
  split; [|by apply Forall_app].
  destruct found as [[r ch]|]; [|done]. constructor; [|done].
  apply getChannel_resolved in Hget. destruct Hget; simpl; try done.
  destruct (Hids k) as [? Hk]; [by left|]. congruence.
Qed.

Lemma listPrivate_spec l guid :
  let res := listPrivate l guid in
  (∀ e, e ∈ res.1 ↔
     ∃ k c, (k, c) ∈ l ∧ isInvited c guid = true
            ∧ e = Listed (InPrivate k) (Private c))
  ∧ (res.2 = false ↔ ∀ k c, (k, c) ∈ l → owner c ≠ guid).
Proof.
  induction l as [|[k c] l IH]; simpl.
  - split.
    + intros e. split; [by intros ?%elem_of_nil|].
      by intros (? & ? & ?%elem_of_nil & _).
    + split; [|done]. by intros _ ? ? ?%elem_of_nil.
  - destruct (listPrivate l guid) as [l' hasPrivate]. simpl in *.
    destruct IH as [IH1 IH2]. split.
    + intros e.
      assert (e ∈ l' ∨ (isInvited c guid = true
                        ∧ e = Listed (InPrivate k) (Private c))
              ↔ ∃ k0 c0, (k0, c0) ∈ (k, c) :: l ∧ isInvited c0 guid = true
                         ∧ e = Listed (InPrivate k0) (Private c0)) as Hiff.
      { rewrite IH1. split.
        - intros [(k0 & c0 & Hin & Hi & ->)|[Hi ->]].
          + exists k0, c0. split; [by right|done].
          + exists k, c. split; [by left|done].
        - intros (k0 & c0 & Hin & Hi & ->).
          apply elem_of_cons in Hin as [[= -> ->]|Hin]; [by right|].
          left. by exists k0, c0. }
      rewrite <- Hiff. destruct (isInvited c guid).
      * rewrite elem_of_cons. split.
        -- intros [->|?]; [by right|by left].
        -- intros [?|[_ ->]]; [by right|by left].
      * split; [by left|]. by intros [?|[? _]].
    + rewrite orb_false_iff, bool_decide_eq_false, IH2. split.
      * intros [Hc Hl] k0 c0 Hin.
        apply elem_of_cons in Hin as [[= -> ->]|Hin]; [done|].
        by apply (Hl k0 c0).
      * intros Hall. split; [apply (Hall k c); by left|].
        intros k0 c0 Hin. apply (Hall k0 c0). by right.
Qed.

(** X16. What a player sees of the private channels in the channel list.
    The list holds a private channel exactly when the player is its owner
    or holds an invite to it, and nothing else private.  The placeholder
    for creating a channel is listed exactly when the player is premium
    and owns no private channel, and it then comes first. *)
Theorem getChannelList_private_entries (chat : Chat) (p : Player) :
  let list := (getChannelList lua chat p).1.1 in
  (∀ k ch, Listed (InPrivate k) ch ∈ list ↔
     ∃ c, ch = Private c ∧ privateChannels chat !! k = Some c
          ∧ isInvited c (getGUID p) = true)
  ∧ (ListedDummy ∈ list ↔ isPremium p = true ∧ owns_none chat p)
  ∧ (ListedDummy ∈ list → head list = Some ListedDummy).
Proof.
  unfold getChannelList.
  assert (∃ r1, r1 = match getGuild p with
                     | Some _ => listOrCreate lua chat p CHANNEL_GUILD
                     | None => ([], chat, [])
                     end) as [r1 Hr1] by eauto.
  rewrite <- Hr1. destruct r1 as [[l1 chat1] t1].
  assert (privateChannels chat1 = privateChannels chat
          ∧ normalChannels chat1 = normalChannels chat
          ∧ Forall shared_entry l1) as (Hp1 & Hn1 & Hs1).
  { destruct (getGuild p).
    - pose proof (listOrCreate_reserved chat p CHANNEL_GUILD
                    ltac:(by left)) as H.
      rewrite <- Hr1 in H. simpl in H. tauto.
    - by injection Hr1 as -> -> _. }
  assert (∃ r2, r2 = match getParty p with
                     | Some _ => listOrCreate lua chat1 p CHANNEL_PARTY
                     | None => ([], chat1, [])
                     end) as [r2 Hr2] by eauto.
  rewrite <- Hr2. destruct r2 as [[l2 chat2] t2].
  assert (privateChannels chat2 = privateChannels chat1
          ∧ normalChannels chat2 = normalChannels chat1
          ∧ Forall shared_entry l2) as (Hp2 & Hn2 & Hs2).
  { destruct (getParty p).
    - pose proof (listOrCreate_reserved chat1 p CHANNEL_PARTY
                    ltac:(by right)) as H.
      rewrite <- Hr2 in H. simpl in H. tauto.
    - by injection Hr2 as -> -> _. }
  pose proof (listNormal_shared (in_order (normalChannels chat2)).*1 chat2 p)
    as [Hs3 _].
  { intros k Hk. apply list_elem_of_fmap in Hk as ([k' c] & -> & Hin).
    apply elem_of_in_order in Hin. by eexists. }
  destruct (listNormal lua _ chat2 p) as [l3 t3].
  pose proof (listPrivate_spec (in_order (privateChannels chat2)) (getGUID p))
    as [Hl4 Hhas].
  destruct (listPrivate _ _) as [l4 hasPrivate]. simpl in Hs3, Hl4, Hhas.
  cbn [fst snd]. rewrite Hp2, Hp1 in Hl4, Hhas.
  assert (Forall shared_entry (l1 ++ l2 ++ l3)) as Hshared
    by (by rewrite !Forall_app).
  rewrite Forall_forall in Hshared.
  assert (hasPrivate = false ↔ owns_none chat p) as Hown.
  { rewrite Hhas. unfold owns_none. split.
    - intros H k c Hk. apply (H k c). by apply elem_of_in_order.
    - intros H k c Hk. apply (H k c). by apply elem_of_in_order. }
  assert (∀ e, ¬ shared_entry e →
            e ∈ l1 ++ l2 ++ l3 ++ l4 ↔ e ∈ l4) as Hin4.
  { intros e He. replace (l1 ++ l2 ++ l3 ++ l4) with ((l1 ++ l2 ++ l3) ++ l4)
      by (by rewrite <- !(assoc_L (++))).
    rewrite elem_of_app. split; [|by right].
    intros [Hin|Hin]; [|done]. destruct He. by apply Hshared. }
  assert (ListedDummy ∉ l1 ++ l2 ++ l3 ++ l4) as Hnodummy.
  { rewrite Hin4 by (by intros []). rewrite Hl4.
    by intros (? & ? & _ & _ & [=]). }
  assert (∀ k ch, Listed (InPrivate k) ch ∈ l1 ++ l2 ++ l3 ++ l4 ↔
            ∃ c, ch = Private c ∧ privateChannels chat !! k = Some c
                 ∧ isInvited c (getGUID p) = true) as Hpriv.
  { intros k ch. rewrite Hin4 by (by intros []). rewrite Hl4. split.
    - intros (k0 & c0 & Hin & Hi & [= -> ->]).
      apply elem_of_in_order in Hin. by exists c0.
    - intros (c & -> & Hk & Hi). exists k, c.
      split; [by apply elem_of_in_order|done]. }
  destruct hasPrivate, (isPremium p); cbn [negb andb].
  1,2,4: split; [exact Hpriv|];
         (split; [|by intros Hin; destruct Hnodummy]);
         (split; [by intros Hin; destruct Hnodummy|]);
         intros [Hprem Hnone]; try done; by apply Hown in Hnone.
  split; [|split].
  - intros k ch. rewrite elem_of_cons, Hpriv. split.
    + by intros [[=]|?].
    + by right.
  - split; [intros _|by left]. split; [done|]. by apply Hown.
  - done.
Qed.

Lemma listOrCreate_guild chat p g :
  getGuild p = Some g →
  let c := default (ChatChannel_new CHANNEL_GUILD (guild_getName g))
             (guildChannels chat !! guild_getId g) in
  (listOrCreate lua chat p CHANNEL_GUILD).1.1
    = [Listed (InGuild (guild_getId g)) (Plain c)]
  ∧ guildChannels (listOrCreate lua chat p CHANNEL_GUILD).1.2
    = <[guild_getId g := c]> (guildChannels chat).
Proof.
  intros Hg. unfold listOrCreate.
  destruct (guildChannels chat !! guild_getId g) as [c0|] eqn:Hc;
    cbn [default].
  - assert (getChannel lua chat p CHANNEL_GUILD
            = (Some (InGuild (guild_getId g), Plain c0), [])) as ->.
    { unfold getChannel. by rewrite decide_True, Hg, Hc by done. }
    cbn [fst snd]. split; [done|]. by rewrite insert_id.
  - assert (getChannel lua chat p CHANNEL_GUILD = (None, [])) as Hget.
    { unfold getChannel. by rewrite decide_True, Hg, Hc by done. }
    rewrite Hget. unfold createChannel. rewrite Hget.
    rewrite decide_True, Hg, Hc by done. by cbn [fst snd].
Qed.

Lemma listOrCreate_party_guild chat p :
  guildChannels (listOrCreate lua chat p CHANNEL_PARTY).1.2
    = guildChannels chat.
Proof.
  unfold listOrCreate.
  destruct (getChannel lua chat p CHANNEL_PARTY) as [[[r ch]|] t0] eqn:Hget;
    [done|].
  unfold createChannel. rewrite Hget.
  rewrite (decide_False (P := CHANNEL_PARTY = CHANNEL_GUILD)) by done.
  rewrite decide_True by done.
  destruct (getParty p) as [party|]; [|done].
  by destruct (partyChannels chat !! party).
Qed.

(** X17. Asking for the channel list opens the guild channel.  For a
    player in a guild, [getChannelList] leaves the guild's channel in the
    registry, creating an empty one named after the guild when the guild
    had none, and the list holds it; the guild id resolves to it
    afterwards.  The static and private collections are as before, and
    listing notifies nobody: the trace holds hook calls and log lines
    only. *)
Theorem getChannelList_opens_guild_channel (chat : Chat) (p : Player)
    (g : Guild) :
  getGuild p = Some g →
  let res := getChannelList lua chat p in
  let c := default (ChatChannel_new CHANNEL_GUILD (guild_getName g))
             (guildChannels chat !! guild_getId g) in
  guildChannels res.1.2 = <[guild_getId g := c]> (guildChannels chat)
  ∧ Listed (InGuild (guild_getId g)) (Plain c) ∈ res.1.1
  ∧ getChannel lua res.1.2 p CHANNEL_GUILD
    = (Some (InGuild (guild_getId g), Plain c), [])
  ∧ privateChannels res.1.2 = privateChannels chat
  ∧ normalChannels res.1.2 = normalChannels chat
  ∧ Forall (λ e, ¬ notifies e) res.2.
Proof.
  intros Hg res c. subst res. unfold getChannelList. rewrite Hg.
  pose proof (listOrCreate_guild chat p g Hg) as [Hl1 Hg1].
  pose proof (listOrCreate_reserved chat p CHANNEL_GUILD ltac:(by left))
    as (Hp1 & Hn1 & _ & Hq1).
  destruct (listOrCreate lua chat p CHANNEL_GUILD) as [[l1 chat1] t1].
  simpl in Hl1, Hg1, Hp1, Hn1, Hq1. fold c in Hl1, Hg1.
  assert (∃ r2, r2 = match getParty p with
                     | Some _ => listOrCreate lua chat1 p CHANNEL_PARTY
                     | None => ([], chat1, [])
                     end) as [r2 Hr2] by eauto.
  rewrite <- Hr2. destruct r2 as [[l2 chat2] t2].
  assert (privateChannels chat2 = privateChannels chat1
          ∧ normalChannels chat2 = normalChannels chat1
          ∧ guildChannels chat2 = guildChannels chat1
          ∧ Forall (λ e, ¬ notifies e) t2) as (Hp2 & Hn2 & Hg2 & Hq2).
  { destruct (getParty p).
    - pose proof (listOrCreate_reserved chat1 p CHANNEL_PARTY
                    ltac:(by right)) as H.
      pose proof (listOrCreate_party_guild chat1 p) as H'.
      rewrite <- Hr2 in H, H'. simpl in H, H'. tauto.
    - by injection Hr2 as -> -> ->. }
  pose proof (listNormal_shared (in_order (normalChannels chat2)).*1 chat2 p)
    as [_ Hq3].
  { intros k Hk. apply list_elem_of_fmap in Hk as ([k' c'] & -> & Hin).
    apply elem_of_in_order in Hin. by eexists. }
  destruct (listNormal lua _ chat2 p) as [l3 t3].
  destruct (listPrivate _ _) as [l4 hasPrivate]. cbn [fst snd] in *.
  split; [congruence|]. split.
  { rewrite Hl1. destruct (negb hasPrivate && isPremium p).
    - right. by left.
    - by left. }
  split.
  { unfold getChannel. rewrite decide_True, Hg, Hg2, Hg1 by done.
    by rewrite lookup_insert_eq. }
  split; [congruence|]. split; [congruence|].
  by rewrite !Forall_app.
Qed.

Lemma head_filter_split {A} (P : A → Prop) `{∀ x, Decision (P x)}
    (l : list A) x :
  head (filter P l) = Some x →
  ∃ l1 l2, l = l1 ++ x :: l2 ∧ P x ∧ Forall (λ y, ¬ P y) l1.
Proof.
  induction l as [|y l IH]; [done|]. rewrite filter_cons.
  case_decide as Hy.
  - intros [= ->]. by exists [], l.
  - intros Hx. destruct (IH Hx) as (l1 & l2 & -> & Hpx & Hl1).
    exists (y :: l1), l2. split; [done|]. split; [done|].
    by constructor.
Qed.

(** X18. [getPrivateChannel] answers the player's own channel: the channel
    it returns is in the registry and owned by the player, and it is the
    one with the least id should the player own several; it answers none
    exactly when the player owns no private channel. *)
Theorem getPrivateChannel_finds_owned (chat : Chat) (p : Player) :
  match getPrivateChannel chat p with
  | Some (k, c) =>
    privateChannels chat !! k = Some c ∧ owner c = getGUID p
    ∧ ∀ k' c', privateChannels chat !! k' = Some c' →
        owner c' = getGUID p → k ≤ k'
  | None => owns_none chat p
  end.
Proof.
  destruct (getPrivateChannel chat p) as [[k c]|] eqn:Hget.
  - unfold getPrivateChannel in Hget.
    apply head_filter_split in Hget as (l1 & l2 & Hl & Ho & Hl1).
    assert ((k, c) ∈ in_order (privateChannels chat)) as Hin
      by (rewrite Hl; apply elem_of_app; right; by left).
    split; [by apply elem_of_in_order|]. split; [done|].
    intros k' c' Hk' Ho'.
    apply elem_of_in_order in Hk'. rewrite Hl in Hk'.
    pose proof (in_order_sorted (privateChannels chat)) as Hsort.
    apply Sorted_StronglySorted in Hsort;
      [|intros x y z; unfold key_le; lia].
    rewrite Hl in Hsort. apply StronglySorted_app_1_r in Hsort.
    apply StronglySorted_inv in Hsort as [_ Hle].
    apply elem_of_app in Hk' as [Hk'|Hk'].
    + rewrite Forall_forall in Hl1. by destruct (Hl1 _ Hk').
    + apply elem_of_cons in Hk' as [[= -> ->]|Hk']; [done|].
      rewrite Forall_forall in Hle. apply (Hle _ Hk').
  - by apply getPrivateChannel_None.
Qed.

End list_facts.

(** ** The registry: failures and the speak type *)

Section dispatch_facts.
Context {hdr : Header}.
Variable lua : LuaScriptInterface.

Lemma executeOnSpeakEvent_calm c p type text :
  Forall (λ e, ¬ notifies e) (executeOnSpeakEvent lua c p type text).2.
Proof.
  unfold executeOnSpeakEvent. repeat case_match; simpl;
    repeat constructor; auto.
Qed.

Lemma addUser_false_calm c p c' t :
  addUser lua c p = (false, c', t) → Forall (λ e, ¬ notifies e) t.
Proof.
  unfold addUser, executeOnJoinEvent.
  destruct (users c !! getID p); [by intros [= _ <-]|].
  pose proof (proj1 (executeEvent_calm lua (onJoinEvent c) p)) as Hcalm.
  destruct (executeEvent lua (onJoinEvent c) p) as [[] t1]; simpl;
    [by intros [=]|].
  by intros [= _ <-].
Qed.

Lemma removeUser_false c p c' t :
  removeUser lua c p = (false, c', t) → c' = c ∧ t = [].
Proof.
  unfold removeUser. destruct (users c !! getID p); [|by intros [= <- <-]].
  simpl. by destruct (executeOnLeaveEvent lua _ p).
Qed.

(** Writing back the object a pointer designates changes nothing. *)
Lemma store_base_same chat p channelId r ch t :
  resolved lua chat p channelId r ch t →
  store_base chat r (as_base ch) = chat.
Proof.
  destruct 1; simpl.
  1-3: rewrite insert_id by done; by destruct chat.
  rewrite alter_id; [by destruct chat|].
  intros x Hx. assert (x = pc) as -> by congruence. by destruct pc.
Qed.

(** X19. A failed operation of the registry changes nothing and notifies
    nobody.  When [createChannel] returns no channel, [addUserToChannel]
    returns none, [removeUserFromChannel] returns false or
    [deleteChannel] returns false, the registry is exactly as it was; a
    failed [deleteChannel] has no effect at all, and the trace of the
    others, and of a failed [talkToChannel], holds hook calls and log lines
    only. *)
Theorem failed_registry_operation_changes_nothing (chat : Chat)
    (p : Player) (channelId : Z) :
  (∀ chat' t, createChannel lua chat p channelId = (None, chat', t) →
     chat' = chat ∧ Forall (λ e, ¬ notifies e) t)
  ∧ (∀ chat' t, deleteChannel chat p channelId = (false, chat', t) →
       chat' = chat ∧ t = [])
  ∧ (∀ chat' t, addUserToChannel lua chat p channelId = (None, chat', t) →
       chat' = chat ∧ Forall (λ e, ¬ notifies e) t)
  ∧ (∀ chat' t,
       removeUserFromChannel lua chat p channelId = (false, chat', t) →
       chat' = chat ∧ Forall (λ e, ¬ notifies e) t)
  ∧ (∀ type text t,
       talkToChannel lua chat p type text channelId = (false, t) →
       Forall (λ e, ¬ notifies e) t).
Proof.
  pose proof (getChannel_calm lua chat p channelId) as Hcalm.
  split; [|split; [|split; [|split]]].
  - intros chat' t. unfold createChannel.
    destruct (getChannel lua chat p channelId) as [[?|] t0]; simpl in Hcalm;
      [by intros [= <- <-]|].
    case_decide; [by repeat case_match; intros [= <- <-]|].
    case_decide; [by repeat case_match; intros [= <- <-]|].
    case_decide; [|by intros [= <- <-]].
    destruct (negb (isPremium p) || _); [by intros [= <- <-]|].
    pose proof (createPrivate_range chat p) as Hscan.
    destruct (createPrivate (seqZ 100 9900) chat p) as [[[r ch]|] chat''];
      [by intros [=]|].
    destruct Hscan as [-> _]. by intros [= <- <-].
  - intros chat' t. unfold deleteChannel.
    by repeat case_match; intros [= <- <-].
  - intros chat' t. unfold addUserToChannel.
    destruct (getChannel lua chat p channelId) as [[[r ch]|] t0] eqn:Hget;
      simpl in Hcalm; [|by intros [= <- <-]].
    apply getChannel_resolved in Hget.
    destruct (addUser lua (as_base ch) p) as [[ok b] t1] eqn:Hadd.
    destruct ok; [by intros [=]|]. intros [= <- <-].
    pose proof (addUser_false_calm _ _ _ _ Hadd) as Ht1.
    apply addUser_false in Hadd as ->.
    split; [by eapply store_base_same|]. by apply Forall_app.
  - intros chat' t. unfold removeUserFromChannel.
    destruct (getChannel lua chat p channelId) as [[[r ch]|] t0] eqn:Hget;
      simpl in Hcalm; [|by intros [= <- <-]].
    apply getChannel_resolved in Hget.
    destruct (removeUser lua (as_base ch) p) as [[ok b] t1] eqn:Hrem.
    destruct ok; cbn [negb].
    + case_decide; [|by intros [=]].
      by destruct (deleteChannel _ p channelId) as [[? ?] ?]; intros [=].
    + apply removeUser_false in Hrem as [-> ->]. intros [= <- <-].
      split; [by eapply store_base_same|]. by rewrite app_nil_r.
  - intros type text t. unfold talkToChannel.
    destruct (getChannel lua chat p channelId) as [[[r ch]|] t0];
      simpl in Hcalm; [|by intros [= <-]].
    unfold speakAndTalk.
    pose proof (executeOnSpeakEvent_calm (as_base ch) p
                  (coerceType p type channelId) text) as Hspeak.
    destruct (executeOnSpeakEvent lua _ p _ text) as [[ok type'] t1].
    simpl in Hspeak. destruct ok; cbn [negb].
    + unfold talk. destruct (users (as_base ch) !! getID p);
        [by intros [=]|].
      intros [= <-]. rewrite app_nil_r. by apply Forall_app.
    + intros [= <-]. by apply Forall_app.
Qed.

(** X20. On the guild and party channels the type the speaker asks for
    is ignored.  In a guild channel without an [onSpeak] hook, as
    [createChannel] makes them, [talkToChannel] is [talk] with the officer
    class for a speaker whose guild rank is above 1 and the party class
    otherwise; in such a party channel it is [talk] with the party class.
    So two requests that differ in the type alone do the same. *)
Theorem talkToChannel_guild_party_class (chat : Chat) (p : Player)
    (type : Z) (text : string) :
  (∀ g c, getGuild p = Some g →
     guildChannels chat !! guild_getId g = Some c → onSpeakEvent c = -1 →
     talkToChannel lua chat p type text CHANNEL_GUILD =
       talk c p
         (match getGuildRank p with
          | Some rank =>
            if decide (level rank > 1) then TALKTYPE_CHANNEL_O
            else TALKTYPE_CHANNEL_Y
          | None => TALKTYPE_CHANNEL_Y
          end) text)
  ∧ (∀ party c, CHANNEL_PARTY ≠ CHANNEL_GUILD →
       getParty p = Some party → partyChannels chat !! party = Some c →
       onSpeakEvent c = -1 →
       talkToChannel lua chat p type text CHANNEL_PARTY =
         talk c p TALKTYPE_CHANNEL_Y text).
Proof.
  split.
  - intros g c Hg Hc Hhook. unfold talkToChannel, getChannel.
    rewrite decide_True, Hg, Hc by done. cbn [as_base].
    rewrite coerceType_guild. unfold speakAndTalk, executeOnSpeakEvent.
    rewrite decide_True by done. cbn [negb].
    by destruct (talk c p _ text).
  - intros party c Hne Hp Hc Hhook. unfold talkToChannel, getChannel.
    rewrite decide_False, decide_True, Hp, Hc by done. cbn [as_base].
    rewrite coerceType_party_or_reserved by (done || by left).
    unfold speakAndTalk, executeOnSpeakEvent.
    rewrite decide_True by done. cbn [negb].
    by destruct (talk c p _ text).
Qed.

Lemma ChatChannel_eq (a b : ChatChannel) :
  users a = users b → chan_id a = chan_id b → chan_name a = chan_name b →
  canJoinEvent a = canJoinEvent b → onJoinEvent a = onJoinEvent b →
  onLeaveEvent a = onLeaveEvent b → onSpeakEvent a = onSpeakEvent b →
  publicChannel a = publicChannel b → a = b.
Proof. destruct a, b; simpl. by intros -> -> -> -> -> -> -> ->. Qed.

(** The state a node leaves when its channel exists. *)
Lemma loadNode_existing chat node c :
  normalChannels chat !! to_uint16 (node_id node) = Some c →
  users_keyed c →
  ∃ c2 t1,
    loadScript lua (node_script node)
      (set_public_name (node_public node) (node_name node) c) = (c2, t1)
    ∧ (loadNode lua chat node).1 =
        set_normal
          (<[to_uint16 (node_id node) :=
               set_users
                 (filter (λ it, admits lua (onJoinEvent c2) it.2) (users c))
                 c2]> (normalChannels chat)) chat.
Proof.
  intros Hc Hkeyed. unfold loadNode. rewrite Hc.
  pose proof (loadScript_spec lua (node_script node)
                (set_public_name (node_public node) (node_name node) c))
    as (Hu & _).
  destruct (loadScript lua _ _) as [c2 t1]. simpl in Hu.
  exists c2, t1. split; [done|].
  assert (NoDup (in_order (users c2)).*1) as Hdup
    by apply NoDup_fst_in_order.
  assert (∀ k q, (k, q) ∈ in_order (users c2) →
            getID q = k ∧ users (set_users ∅ c2) !! k = None) as Hfresh.
  { intros k q Hin. apply elem_of_in_order in Hin. rewrite Hu in Hin.
    split; [by apply Hkeyed|]. simpl. apply lookup_empty. }
  pose proof (readdUsers_fields lua (in_order (users c2)) (set_users ∅ c2))
    as (Hf1 & Hf2 & Hf3 & Hf4 & Hf5 & Hf6 & Hf7).
  pose proof (readdUsers_users lua _ _ Hdup Hfresh) as Husers.
  destruct (readdUsers lua (in_order (users c2)) (set_users ∅ c2))
    as [c3 t2].
  simpl in *. do 2 f_equal. apply ChatChannel_eq; simpl; try done.
  rewrite Husers, (right_id_L ∅ (∪)), Hu.
  apply (list_to_map_filter_in_order (λ q, admits lua (onJoinEvent c2) q)).
Qed.

End dispatch_facts.

(** ** The registry: reloading twice *)

Section reload_facts.
Context {hdr : Header}.
Variables lua1 lua2 : LuaScriptInterface.



End reload_facts.


(** ** The registry: reloading a populated static channel *)

Section static_facts.
Context {hdr : Header}.
Variable lua : LuaScriptInterface.

(** In a ledger visited by ascending key, the smaller key comes first. *)
Lemma in_order_before {V} (m : gmap Z V) k1 v1 k2 v2 :
  m !! k1 = Some v1 → m !! k2 = Some v2 → k1 < k2 →
  ∃ l1 l2, in_order m = l1 ++ (k1, v1) :: l2 ∧ (k2, v2) ∈ l2.
Proof.
  intros H1 H2 Hlt.
  apply elem_of_in_order in H1, H2.
  apply list_elem_of_split in H1 as (l1 & l2 & Hl).
  exists l1, l2. split; [done|].
  pose proof (in_order_sorted m) as Hsort.
  apply Sorted_StronglySorted in Hsort;
    [|intros x y z; unfold key_le; lia].
  rewrite Hl in Hsort, H2.
  apply elem_of_app in H2 as [H2|H2].
  - pose proof (StronglySorted_app_1_elem_of _ _ _ (k2, v2) (k1, v1) Hsort H2
                  ltac:(by left)) as Hle.
    unfold key_le in Hle. simpl in Hle. lia.
  - apply elem_of_cons in H2 as [[= -> ->]|H2]; [lia|done].
Qed.

(** The message of the day belongs to the channel with the guild id. *)
Lemma addUser_no_motd c p :
  chan_id c ≠ CHANNEL_GUILD →
  Forall (λ e, ¬ is_motd e) (addUser lua c p).2.
Proof.
  intros Hid. unfold addUser.
  destruct (users c !! getID p); [by constructor|].
  assert (Forall (λ e, ¬ is_motd e) (executeOnJoinEvent lua c p).2) as Hhook.
  { unfold executeOnJoinEvent, executeEvent.
    repeat case_match; simpl; repeat constructor; auto. }
  destruct (executeOnJoinEvent lua c p) as [[] t1]; simpl in *; [|done].
  rewrite decide_False by done. simpl.
  apply Forall_app. split; [done|].
  destruct (publicChannel c); [by constructor|]. apply Forall_forall.
  intros e He Hm. by apply list_elem_of_fmap in He as (? & -> & _).
Qed.

Lemma readdUsers_no_motd l : ∀ c,
  chan_id c ≠ CHANNEL_GUILD →
  Forall (λ e, ¬ is_motd e) (readdUsers lua l c).2.
Proof.
  induction l as [|[k q] l IH]; intros c Hid; simpl; [done|].
  pose proof (addUser_no_motd c q Hid) as Hadd.
  pose proof (addUser_chan_id lua c q) as Hsame.
  destruct (addUser lua c q) as [[ok c1] t1]. simpl in Hadd, Hsame.
  specialize (IH c1 ltac:(congruence)).
  destruct (readdUsers lua l c1) as [c2 t2]. simpl in *.
  by apply Forall_app.
Qed.

(** On a channel that is not public, a member handed back to the channel
    is announced to the members who are in it by then: to those the
    channel held before the loop, and to those the loop has handed back
    earlier. *)
Lemma readdUsers_join l : ∀ c,
  NoDup l.*1 →
  (∀ k q, (k, q) ∈ l → getID q = k ∧ users c !! k = None) →
  publicChannel c = false →
  (∀ k1 q1 k2 q2,
     users c !! k1 = Some q1 → (k2, q2) ∈ l →
     admits lua (onJoinEvent c) q2 →
     sendChannelEvent q1 (chan_id c) (getName q2) CHANNELEVENT_JOIN
     ∈ (readdUsers lua l c).2)
  ∧ (∀ l1 l2 k1 q1 k2 q2,
       l = l1 ++ (k1, q1) :: l2 → (k2, q2) ∈ l2 →
       admits lua (onJoinEvent c) q1 → admits lua (onJoinEvent c) q2 →
       sendChannelEvent q1 (chan_id c) (getName q2) CHANNELEVENT_JOIN
       ∈ (readdUsers lua l c).2).
Proof.
  induction l as [|[k0 q0] l IH]; intros c Hdup Hl Hpub.
  { split.
    - intros k1 q1 k2 q2 _ Hin. by apply elem_of_nil in Hin.
    - intros l1 l2 k1 q1 k2 q2 Hnil. by destruct l1. }
  simpl. apply NoDup_cons in Hdup as [Hk Hdup].
  destruct (Hl k0 q0) as [Hid0 Hnew]; [by left|].
  rewrite addUser_fresh by (by rewrite Hid0).
  assert (∀ k' q', (k', q') ∈ l → k' ≠ k0) as Hother.
  { intros k' q' Hin ->. apply Hk. apply list_elem_of_fmap.
    by exists (k0, q'). }
  destruct (decide (admits lua (onJoinEvent c) q0)) as [Hyes|Hno].
  - destruct (IH (set_users (<[getID q0 := q0]> (users c)) c) Hdup)
      as [IHa IHb]; [|done|].
    { intros k' q' Hin. destruct (Hl k' q') as [? ?]; [by right|].
      split; [done|]. simpl. rewrite lookup_insert_ne; [done|].
      rewrite Hid0. intros <-. by eapply Hother. }
    destruct (readdUsers lua l _) as [c2 t2]. simpl in *.
    rewrite Hpub. split.
    + intros k1 q1 k2 q2 H1 Hin Hadm.
      apply elem_of_cons in Hin as [[= -> ->]|Hin].
      * rewrite !elem_of_app. left. right. right.
        apply list_elem_of_fmap. exists (k1, q1). split; [done|].
        by apply elem_of_in_order.
      * rewrite elem_of_app. right. apply (IHa k1 q1 k2 q2); [|done|done].
        rewrite lookup_insert_ne; [done|]. rewrite Hid0. congruence.
    + intros l1 l2 k1 q1 k2 q2 Heq Hin Ha1 Ha2.
      rewrite elem_of_app. right. destruct l1 as [|x l1].
      * simpl in Heq. injection Heq as Hk1 Hq1 Hl2. subst k1 q1 l2.
        apply (IHa (getID q0) q0 k2 q2); [|done|done].
        apply lookup_insert_eq.
      * simpl in Heq. injection Heq as Hx Hl'. subst x l.
        by apply (IHb l1 l2 k1 q1 k2 q2).
  - destruct (IH c Hdup) as [IHa IHb]; [|done|].
    { intros k' q' Hin. apply Hl. by right. }
    destruct (readdUsers lua l c) as [c2 t2]. simpl in *. split.
    + intros k1 q1 k2 q2 H1 Hin Hadm.
      apply elem_of_cons in Hin as [[= -> ->]|Hin]; [done|].
      rewrite elem_of_app. right. by apply (IHa k1 q1 k2 q2).
    + intros l1 l2 k1 q1 k2 q2 Heq Hin Ha1 Ha2.
      rewrite elem_of_app. right. destruct l1 as [|x l1].
      * simpl in Heq. injection Heq as Hk1 Hq1 Hl2. by subst k1 q1 l2.
      * simpl in Heq. injection Heq as Hx Hl'. subst x l.
        by apply (IHb l1 l2 k1 q1 k2 q2).
Qed.

(** *** The shape of the static collection *)

Lemma static_wf_same chat chat' :
  normalChannels chat' = normalChannels chat →
  static_wf chat → static_wf chat'.
Proof. unfold static_wf. by intros ->. Qed.

Lemma static_wf_insert chat chat' k b :
  normalChannels chat' = <[k := b]> (normalChannels chat) →
  chan_id b = k → users_keyed b → (k = CHANNEL_GUILD → users b = ∅) →
  static_wf chat → static_wf chat'.
Proof.
  unfold static_wf. intros -> Hid Hkeyed Hguild Hwf j c.
  rewrite lookup_insert_Some. intros [[<- <-]|[_ Hj]]; [done|by apply Hwf].
Qed.

(** A write through a resolved pointer reaches the static collection only
    under an id other than the guild id. *)
Lemma static_wf_store_base chat p channelId r ch t b :
  resolved lua chat p channelId r ch t →
  chan_id b = chan_id (as_base ch) →
  (users_keyed (as_base ch) → users_keyed b) →
  static_wf chat → static_wf (store_base chat r b).
Proof.
  intros Hres Hid Hkeyed Hwf.
  destruct Hres as [| |c t' Hg Hp Hc Hj|]; simpl in *;
    try (by eapply static_wf_same).
  destruct (Hwf _ _ Hc) as (Hcid & Hck & _).
  eapply static_wf_insert; [done|congruence|by apply Hkeyed|done|done].
Qed.

Lemma static_wf_loadNode chat node :
  static_wf chat → static_wf (loadNode lua chat node).1.
Proof.
  intros Hwf.
  destruct (normalChannels chat !! to_uint16 (node_id node)) as [c|] eqn:Hc.
  - destruct (Hwf _ _ Hc) as (Hid & Hk & Hg).
    destruct (loadNode_existing lua chat node c Hc Hk)
      as (c2 & t1 & Hcfg & ->).
    pose proof (loadScript_spec lua (node_script node)
                  (set_public_name (node_public node) (node_name node) c))
      as (_ & Hid2 & _).
    rewrite Hcfg in Hid2. simpl in Hid2.
    eapply static_wf_insert; [done| | | |done].
    + simpl. congruence.
    + intros j q. simpl. rewrite map_lookup_filter_Some.
      intros [Hq _]. by apply Hk.
    + intros Hguild. simpl. by rewrite (Hg Hguild), map_filter_empty.
  - unfold loadNode. rewrite Hc.
    pose proof (loadScript_spec lua (node_script node)
                  (set_public_name (node_public node) (node_name node)
                     (ChatChannel_new (to_uint16 (node_id node))
                        (node_name node)))) as (Hu & Hid & _).
    destruct (loadScript lua _ _) as [c2 t1]. simpl in *.
    eapply static_wf_insert; [done|done| |done|done].
    intros j q. rewrite Hu. by rewrite lookup_empty.
Qed.

(** The registry starts well formed and every operation keeps it so: the
    static channel under the guild id never gains a member, since
    [getChannel] sends the guild id to the guild collection. *)
Lemma static_wf_kept chat p channelId node :
  static_wf chat →
  static_wf (createChannel lua chat p channelId).1.2
  ∧ static_wf (deleteChannel chat p channelId).1.2
  ∧ static_wf (addUserToChannel lua chat p channelId).1.2
  ∧ static_wf (removeUserFromChannel lua chat p channelId).1.2
  ∧ (owns_none chat p → static_wf (removeUserFromAllChannels lua chat p).1)
  ∧ static_wf (loadNode lua chat node).1
  ∧ static_wf (getChannelList lua chat p).1.2.
Proof.
  intros Hwf. split; [|split; [|split; [|split; [|split; [|split]]]]].
  - eapply static_wf_same; [|done].
    by destruct (createChannel_private_effect lua chat p channelId).
  - eapply static_wf_same; [|done].
    by destruct (deleteChannel_effect chat p channelId).
  - unfold addUserToChannel.
    destruct (getChannel lua chat p channelId) as [[[r ch]|] t0] eqn:Hget;
      [|done].
    apply getChannel_resolved in Hget.
    pose proof (addUser_chan_id lua (as_base ch) p) as Hid.
    pose proof (users_keyed_addUser lua (as_base ch) p) as Hk.
    destruct (addUser lua (as_base ch) p) as [[ok b] t1]. simpl in *.
    by eapply static_wf_store_base.
  - unfold removeUserFromChannel.
    destruct (getChannel lua chat p channelId) as [[[r ch]|] t0] eqn:Hget;
      [|done].
    apply getChannel_resolved in Hget.
    pose proof (removeUser_chan_id lua (as_base ch) p) as Hid.
    pose proof (users_keyed_removeUser lua (as_base ch) p) as Hk.
    destruct (removeUser lua (as_base ch) p) as [[ok b] t1]. simpl in Hid, Hk.
    assert (static_wf (store_base chat r b)) as Hwf1
      by (by eapply static_wf_store_base).
    destruct ok; cbn [negb fst snd]; [|done].
    case_decide; [|done].
    pose proof (deleteChannel_effect (store_base chat r b) p channelId)
      as [Hn _].
    destruct (deleteChannel (store_base chat r b) p channelId)
      as [[? chat2] t2].
    cbn [fst snd] in *. by eapply static_wf_same.
  - intros _ k c.
    destruct (removeUserFromAllChannels_shared lua chat p) as (-> & _).
    rewrite removeUser_each_map, lookup_fmap.
    destruct (normalChannels chat !! k) as [c0|] eqn:Hc0; simpl; [|done].
    intros [= <-]. destruct (Hwf _ _ Hc0) as (Hid & Hk & Hg). simpl.
    split; [done|]. split.
    + intros j q. simpl. rewrite lookup_delete_Some. intros [_ Hq].
      by apply Hk.
    + intros Hguild. by rewrite (Hg Hguild), delete_empty.
  - by apply static_wf_loadNode.
  - eapply static_wf_same; [|done].
    by destruct (getChannelList_effect lua chat p).
Qed.

Lemma static_wf_empty chat : normalChannels chat = ∅ → static_wf chat.
Proof. intros He k c. by rewrite He, lookup_empty. Qed.

(** C7, as the code has it.  Reloading the configuration of a populated
    static channel rewrites the channel where it stands: the name and the
    public flag are replaced, and the hooks too when the entry names a
    script that loads.  The membership ledger is emptied and every former
    member is handed to [addUser], by ascending id: a bound [onJoin] hook
    is asked about each of them once, in that order; the members it admits
    make up the new ledger, the members it refuses are dropped.  On a
    channel that is not public each member re-added is announced again to
    the members re-added before it.  The guild message of the day is not
    scheduled again: [addUser] ties it to the channel with the guild id,
    and the static channel under that id has no member to hand back.  The
    registry stays well formed. *)
Theorem loadNode_reloads_members (chat : Chat) (node : ChannelNode)
    (c : ChatChannel) :
  normalChannels chat !! to_uint16 (node_id node) = Some c →
  static_wf chat →
  ∃ c',
    (loadNode lua chat node).1 =
      set_normal (<[to_uint16 (node_id node) := c']> (normalChannels chat))
        chat
    ∧ chan_id c' = chan_id c
    ∧ chan_name c' = node_name node
    ∧ publicChannel c' = node_public node
    ∧ (∀ s, node_script node = Some s →
         loadFile lua ("data/chatchannels/scripts/" ++ s)%string = 0 →
         canJoinEvent c' =
           getEvent lua ("data/chatchannels/scripts/" ++ s)%string "canJoin"
         ∧ onJoinEvent c' =
             getEvent lua ("data/chatchannels/scripts/" ++ s)%string "onJoin"
         ∧ onLeaveEvent c' =
             getEvent lua ("data/chatchannels/scripts/" ++ s)%string
               "onLeave"
         ∧ onSpeakEvent c' =
             getEvent lua ("data/chatchannels/scripts/" ++ s)%string
               "onSpeak")
    ∧ users c' = filter (λ it, admits lua (onJoinEvent c') it.2) (users c)
    ∧ filter is_luaCall (loadNode lua chat node).2 =
        (if decide (onJoinEvent c' = -1) then []
         else if reserveScriptEnv lua
         then (λ it, luaCall (onJoinEvent c') it.2 None)
                <$> in_order (users c)
         else [])
    ∧ (publicChannel c' = false →
       ∀ k1 q1 k2 q2,
         users c' !! k1 = Some q1 → users c' !! k2 = Some q2 → k1 < k2 →
         sendChannelEvent q1 (chan_id c') (getName q2) CHANNELEVENT_JOIN
         ∈ (loadNode lua chat node).2)
    ∧ Forall (λ e, ¬ is_motd e) (loadNode lua chat node).2
    ∧ static_wf (loadNode lua chat node).1.
Proof.
  intros Hc Hwf.
  destruct (Hwf _ _ Hc) as (Hcid & Hkeyed & Hguild).
  pose proof (static_wf_loadNode chat node Hwf) as Hwf'.
  revert Hwf'. unfold loadNode. rewrite Hc.
  pose proof (loadScript_spec lua (node_script node)
                (set_public_name (node_public node) (node_name node) c))
    as (Hu & Hid & Hname & Hpub & Hq1 & Hwarn & Hhooks).
  destruct (loadScript lua _ _) as [c2 t1]. simpl in Hu, Hid, Hname, Hpub,
    Hq1, Hwarn, Hhooks.
  assert (NoDup (in_order (users c2)).*1) as Hdup
    by apply NoDup_fst_in_order.
  assert (∀ k q, (k, q) ∈ in_order (users c2) →
            getID q = k ∧ users (set_users ∅ c2) !! k = None) as Hfresh.
  { intros k q Hin. apply elem_of_in_order in Hin. rewrite Hu in Hin.
    split; [by apply Hkeyed|]. simpl. apply lookup_empty. }
  pose proof (readdUsers_fields lua (in_order (users c2)) (set_users ∅ c2))
    as (Hf1 & Hf2 & Hf3 & Hf4 & Hf5 & Hf6 & Hf7).
  pose proof (readdUsers_users lua _ _ Hdup Hfresh) as Husers.
  pose proof (readdUsers_calls lua _ _ Hdup Hfresh) as Hcalls.
  pose proof (λ Hpub', proj2 (readdUsers_join _ _ Hdup Hfresh Hpub'))
    as Hjoin.
  assert (Forall (λ e, ¬ is_motd e)
            (readdUsers lua (in_order (users c2)) (set_users ∅ c2)).2)
    as Hmotd.
  { destruct (decide (chan_id c = CHANNEL_GUILD)) as [Heq|Hne].
    - rewrite Hu, (Hguild ltac:(congruence)), in_order_empty. by constructor.
    - apply readdUsers_no_motd. simpl. congruence. }
  destruct (readdUsers lua (in_order (users c2)) (set_users ∅ c2))
    as [c3 t2].
  simpl in *. intros Hwf'. exists c3.
  split; [done|]. split; [congruence|]. split; [congruence|].
  split; [congruence|]. split.
  { intros s Hs Hload. destruct (Hhooks s Hs Hload) as (?&?&?&?).
    repeat split; congruence. }
  assert (users c3 =
            filter (λ it, admits lua (onJoinEvent c3) it.2) (users c))
    as Hu3.
  { rewrite Husers, (right_id_L ∅ (∪)), Hu, Hf5.
    apply (list_to_map_filter_in_order
             (λ q, admits lua (onJoinEvent c2) q)). }
  split; [done|]. split.
  { rewrite filter_app, Hq1, Hcalls, Hf5, Hu. done. }
  split.
  { intros Hprivate k1 q1 k2 q2 H1 H2 Hlt. apply elem_of_app. right.
    rewrite Hu3 in H1, H2.
    apply map_lookup_filter_Some in H1 as [H1 Ha1].
    apply map_lookup_filter_Some in H2 as [H2 Ha2]. simpl in Ha1, Ha2.
    rewrite <- Hu in H1, H2.
    destruct (in_order_before _ _ _ _ _ H1 H2 Hlt) as (l1 & l2 & Hl & Hin).
    rewrite Hf1. rewrite Hf5 in Ha1, Ha2.
    apply (Hjoin ltac:(congruence) l1 l2 k1 q1 k2 q2 Hl Hin Ha1 Ha2). }
  split; [|done].
  apply Forall_app. split; [|done].
  apply Forall_forall. intros e He Hm.
  destruct (Hwarn e He) as [s ->]. done.
Qed.

End static_facts.

(** ** The statements at concrete registries

    Each statement above that carries a hypothesis is applied here to one
    of the sample registries. *)

(** [addUser_twice_fails] when Alice joins the empty channel 5 twice. *)
Lemma addUser_twice_fails_witness :
  addUser lua_allow help_channel alice = (false, help_channel, [])
  ∧ users (addUser lua_allow help_channel alice).1.2 = users help_channel
  ∧ size (users (addUser lua_allow help_channel alice).1.2)
    = size (users help_channel)
  ∧ size (users help_channel) = S (size (users (ChatChannel_new 5 "Help"))).
Proof.
  apply (addUser_twice_fails lua_allow (ChatChannel_new 5 "Help")
           help_channel alice []).
  vm_compute. reflexivity.
Defined.

(** [excludePlayer_spec] on Alice's channel: Bob holds no invite, Carol
    holds one. *)
Lemma excludePlayer_spec_witness :
  excludePlayer lua_allow alice_channel alice bob = (alice_channel, [])
  ∧ (let c' := (excludePlayer lua_allow alice_channel alice carol).1 in
     let left := delete (getID carol) (users (base alice_channel)) in
     invites c' = delete (getGUID carol) (invites alice_channel)
     ∧ users (base c') = left
     ∧ owner c' = owner alice_channel
     ∧ (excludePlayer lua_allow alice_channel alice carol).2 =
         (removeUser lua_allow (base alice_channel) carol).2
         ++ [sendTextMessage alice "Carol has been excluded.";
             sendClosePrivate carol 101]
         ++ ((λ it, sendChannelEvent it.2 101 "Carol" CHANNELEVENT_EXCLUDE)
               <$> in_order left)).
Proof.
  split.
  - apply (proj1 (excludePlayer_spec lua_allow alice_channel alice bob)).
    vm_compute. reflexivity.
  - apply (proj2 (excludePlayer_spec lua_allow alice_channel alice carol)).
    exists carol. vm_compute. reflexivity.
Defined.

(** [talkToChannel_onSpeak] on the moderated channel, with a script that
    refuses and with a script that answers 9. *)
Lemma talkToChannel_onSpeak_witness :
  ((talkToChannel lua_deny moderated_chat alice 1 "hi" 6).1 = false
   ∧ Forall (λ e, ¬ delivers e)
       (talkToChannel lua_deny moderated_chat alice 1 "hi" 6).2)
  ∧ (talkToChannel lua_number moderated_chat alice 1 "hi" 6).1 = true
  ∧ ∀ k q, users moderated_channel !! k = Some q →
      sendToChannel q alice 9 "hi" (to_uint16 k)
      ∈ (talkToChannel lua_number moderated_chat alice 1 "hi" 6).2.
Proof.
  split.
  - apply (proj1 (talkToChannel_onSpeak (hdr := canary_header) lua_deny
                    moderated_chat alice 1 "hi"
                    6 (InNormal 6) (Plain moderated_channel) []
                    ltac:(vm_compute; reflexivity) ltac:(done))).
    right. exact I.
  - apply (proj2 (talkToChannel_onSpeak (hdr := canary_header) lua_number
                    moderated_chat alice 1
                    "hi" 6 (InNormal 6) (Plain moderated_channel) []
                    ltac:(vm_compute; reflexivity) ltac:(done))
                 9 eq_refl ltac:(vm_compute; reflexivity)).
    exists alice. vm_compute. reflexivity.
Defined.

(** [removeUserFromChannel_cascade] on channel 101: the owner Alice
    leaves, and the guest Carol leaves. *)
Lemma removeUserFromChannel_cascade_witness :
  ((removeUserFromChannel lua_allow two_private alice 101).1.2 =
     set_private (delete 101 (privateChannels two_private)) two_private
   ∧ deref (removeUserFromChannel lua_allow two_private alice 101).1.2
       (InPrivate 101) = None
   ∧ sendClosePrivate carol 101
     ∈ (removeUserFromChannel lua_allow two_private alice 101).2)
  ∧ (removeUserFromChannel lua_allow two_private carol 101).1.1 = true
  ∧ is_Some (deref (removeUserFromChannel lua_allow two_private carol 101).1.2
               (InPrivate 101)).
Proof.
  split.
  - destruct (removeUserFromChannel_cascade (hdr := canary_header) lua_allow
                two_private alice 101 (InPrivate 101) (Private alice_channel)
                [] ltac:(vm_compute; reflexivity)
                ltac:(exists alice; vm_compute; reflexivity))
      as (_ & _ & Hown & _).
    destruct (Hown alice_channel eq_refl eq_refl) as (H1 & H2 & _ & H4).
    split; [exact H1|]. split; [exact H2|].
    apply (H4 (getID carol) carol). vm_compute. reflexivity.
  - destruct (removeUserFromChannel_cascade (hdr := canary_header) lua_allow
                two_private carol 101 (InPrivate 101) (Private alice_channel)
                [] ltac:(vm_compute; reflexivity)
                ltac:(exists carol; vm_compute; reflexivity))
      as (Hok & _ & _ & Hstay).
    split; [exact Hok|].
    destruct (Hstay ltac:(vm_compute; discriminate)) as (_ & H2 & _).
    rewrite H2. by eexists.
Defined.

(** [createChannel_private_owner_not_member] for Alice's request on the
    empty registry. *)
Lemma createChannel_private_owner_not_member_witness :
  let pc := setOwner (getGUID alice)
              (PrivateChatChannel_new 100 "Alice's Channel") in
  let chat' := set_private {[100 := pc]} emptyChat in
  users (base pc) !! getID alice = None
  ∧ talk (base pc) alice 7 "hi" = (false, [])
  ∧ talkToChannel lua_allow chat' alice 7 "hi" 100 = (false, []).
Proof.
  intros pc chat'.
  destruct (createChannel_private_owner_not_member (hdr := canary_header)
              lua_allow ltac:(done) ltac:(done) emptyChat alice
              (InPrivate 100) (Private pc) chat' [])
    as (_ & H2 & _ & H4 & _ & H6 & _).
  - apply (createChannel_private_first (hdr := canary_header) lua_allow
             ltac:(done) ltac:(done) emptyChat alice []).
    + vm_compute. reflexivity.
    + reflexivity.
    + intros k c Hk. unfold emptyChat in Hk. simpl in Hk.
      by rewrite lookup_empty in Hk.
    + apply lookup_empty.
  - split; [exact H2|]. split; [apply H4|].
    apply (H6 100 7 "hi"%string eq_refl); [done|done|].
    vm_compute. reflexivity.
Defined.

(** The exhausted registry. *)
Lemma full_chat_lookup k :
  privateChannels full_chat !! k =
    if decide (100 ≤ k < 10000) then Some (squatter k) else None.
Proof.
  unfold full_chat. cbn [privateChannels set_private].
  case_decide as Hk.
  - apply elem_of_list_to_map_1'.
    + intros y Hy. apply list_elem_of_fmap in Hy as (i & Heq & _).
      by injection Heq as -> ->.
    + apply list_elem_of_fmap. exists k. split; [done|].
      apply elem_of_seqZ. lia.
  - apply not_elem_of_list_to_map. rewrite <- list_fmap_compose.
    intros Hin. apply list_elem_of_fmap in Hin as (i & -> & Hi).
    apply elem_of_seqZ in Hi. cbn [compose fst] in Hk. lia.
Qed.

Lemma full_chat_full : slots_full full_chat.
Proof.
  intros i Hi. rewrite full_chat_lookup, decide_True by done. by eexists.
Qed.

(** [createChannel_private_allocates] on the empty registry, on the
    exhausted one, and on the exhausted one after id 4321 is freed. *)
Lemma createChannel_private_allocates_witness :
  (isPremium alice = true ∧ owns_none emptyChat alice)
  ∧ (createChannel lua_allow full_chat alice CHANNEL_PRIVATE).1
    = (None, full_chat)
  ∧ ∃ pc chat2,
      (createChannel lua_allow (deleteChannel full_chat bob 4321).1.2 alice
         CHANNEL_PRIVATE).1 = (Some (InPrivate 4321, Private pc), chat2)
      ∧ owner pc = getGUID alice
      ∧ slots_full chat2
      ∧ ∀ p', (createChannel lua_allow chat2 p' CHANNEL_PRIVATE).1
              = (None, chat2).
Proof.
  pose proof (createChannel_private_allocates (hdr := canary_header)
                lua_allow ltac:(done) ltac:(done)) as (H1 & H2 & H3).
  split; [|split].
  - assert (owns_none emptyChat alice) as Hnone.
    { intros k c Hk. unfold emptyChat in Hk. simpl in Hk.
      by rewrite lookup_empty in Hk. }
    destruct (H1 emptyChat alice _ _ _ _
                (createChannel_private_first (hdr := canary_header)
                   lua_allow ltac:(done) ltac:(done) emptyChat alice []
                   ltac:(vm_compute; reflexivity) eq_refl Hnone
                   (lookup_empty _)))
      as (Hp & Hn & _).
    by split.
  - apply H2, full_chat_full.
  - assert (owns_none full_chat alice) as Hnone.
    { intros k c Hk. rewrite full_chat_lookup in Hk.
      case_decide; [|done]. injection Hk as <-. cbn. lia. }
    destruct (H3 full_chat bob 4321 alice full_chat_full ltac:(lia)
                ltac:(done) ltac:(done) eq_refl
                (owns_none_deleteChannel full_chat bob 4321 alice Hnone))
      as (_ & _ & pc & chat2 & Hc & Ho & Hf & Hlast).
    + apply (getChannel_reserved_deleteChannel (hdr := canary_header)
               lua_allow ltac:(done) ltac:(done)).
      * reflexivity.
      * rewrite full_chat_lookup. by rewrite decide_False by (cbn; lia).
    + exists pc, chat2. exact (conj Hc (conj Ho (conj Hf Hlast))).
Defined.

(** [invitePlayer_idempotent] when Alice invites Bob into her channel,
    where Carol holds an invite. *)
Lemma invitePlayer_idempotent_witness :
  let c' := (invitePlayer alice_channel alice bob).1 in
  isInvited alice_channel (getGUID carol) = true
  ∧ isInvited c' (getGUID bob) = true
  ∧ invitePlayer c' alice bob = (c', [])
  ∧ isInvited c' (getGUID carol) = true.
Proof.
  intros c'.
  destruct (invitePlayer_idempotent alice_channel alice bob)
    as (H1 & H2 & _ & _ & H5 & _).
  assert (isInvited alice_channel (getGUID carol) = true) as Hcarol
    by (vm_compute; reflexivity).
  split; [exact Hcarol|]. split; [exact H1|]. split; [exact H2|].
  apply H5, Hcarol.
Defined.

(** [invite_then_exclude_restores] when Bob is invited into Alice's channel
    and excluded again. *)
Lemma invite_then_exclude_restores_witness :
  (invites alice_channel !! getGUID bob = None
   ∧ users (base alice_channel) !! getID bob = None)
  ∧ (excludePlayer lua_allow (invitePlayer alice_channel alice bob).1 alice
       bob).1 = alice_channel.
Proof.
  assert (invites alice_channel !! getGUID bob = None) as Hinv
    by (vm_compute; reflexivity).
  assert (users (base alice_channel) !! getID bob = None) as Hmem
    by (vm_compute; reflexivity).
  split; [by split|].
  apply (invite_then_exclude_restores lua_allow alice_channel alice alice bob
           Hinv Hmem).
Defined.

(** [talk_reaches_every_member] when Alice speaks in her channel: Carol
    receives the message. *)
Lemma talk_reaches_every_member_witness :
  (talk (base alice_channel) alice 7 "hi").1 = true
  ∧ sendToChannel carol alice 7 "hi" (to_uint16 (getID carol))
    ∈ (talk (base alice_channel) alice 7 "hi").2.
Proof.
  assert ((talk (base alice_channel) alice 7 "hi").1 = true) as Hok
    by (vm_compute; reflexivity).
  split; [exact Hok|].
  destruct (talk_reaches_every_member (base alice_channel) alice 7 "hi")
    as (_ & _ & _ & H4 & _).
  apply (H4 Hok (getID carol) carol). vm_compute. reflexivity.
Defined.

(** [addUser_then_removeUser_restores] when Alice joins the empty channel 5
    and leaves it. *)
Lemma addUser_then_removeUser_restores_witness :
  addUser lua_allow (ChatChannel_new 5 "Help") alice
  = (true, help_channel, [])
  ∧ hasUser help_channel alice = true
  ∧ (removeUser lua_allow help_channel alice).1
    = (true, ChatChannel_new 5 "Help").
Proof.
  assert (addUser lua_allow (ChatChannel_new 5 "Help") alice
          = (true, help_channel, [])) as Hadd by (vm_compute; reflexivity).
  split; [exact Hadd|].
  destruct (addUser_then_removeUser_restores (hdr := canary_header) lua_allow
              (ChatChannel_new 5 "Help") help_channel alice [] Hadd)
    as (_ & H2 & H3 & _).
  by split.
Defined.

(** [failed_operation_is_silent] when the [onJoin] hook of channel 5
    refuses Bob. *)
Lemma failed_operation_is_silent_witness :
  addUser lua_deny scripted_channel bob
  = (false, scripted_channel, [luaCall 4 bob None])
  ∧ Forall (λ e, ¬ notifies e) [luaCall 4 bob None]
  ∧ talk scripted_channel bob 1 "hi" = (false, []).
Proof.
  assert (addUser lua_deny scripted_channel bob
          = (false, scripted_channel, [luaCall 4 bob None])) as Hadd
    by (vm_compute; reflexivity).
  destruct (failed_operation_is_silent (hdr := canary_header) lua_deny
              scripted_channel bob) as (H1 & _ & H3).
  split; [exact Hadd|]. split; [apply (H1 _ _ Hadd)|].
  assert (∃ t, talk scripted_channel bob 1 "hi" = (false, t)) as [t Ht]
    by (eexists; vm_compute; reflexivity).
  by rewrite Ht, (H3 _ _ _ Ht).
Defined.

(** Alice's channel files its members under their own ids. *)
Lemma alice_channel_keyed : users_keyed (base alice_channel).
Proof.
  intros k q.
  change (users (base alice_channel))
    with ({[getID alice := alice; getID carol := carol]} : gmap Z Player).
  rewrite lookup_insert_Some, lookup_singleton_Some.
  by intros [[<- <-]|[_ [<- <-]]].
Qed.

(** [broadcast_follows_public_flag] when Bob joins Alice's channel, which
    is not public: Alice and Carol get the join event, Bob gets none. *)
Lemma broadcast_follows_public_flag_witness :
  let r := addUser lua_allow (base alice_channel) bob in
  users_keyed (base alice_channel)
  ∧ r.1.1 = true
  ∧ filter is_channelEvent r.2 =
      (λ it, sendChannelEvent it.2 101 "Bob" CHANNELEVENT_JOIN)
        <$> in_order (users (base alice_channel))
  ∧ ∀ q cid nm ev, sendChannelEvent q cid nm ev ∈ r.2 → getID q ≠ getID bob.
Proof.
  intros r. split; [exact alice_channel_keyed|].
  assert (r = (true, r.1.2, r.2)) as Hadd by (vm_compute; reflexivity).
  split; [by rewrite Hadd|].
  destruct (proj1 (broadcast_follows_public_flag (hdr := canary_header)
                     lua_allow (base alice_channel) r.1.2 bob r.2
                     alice_channel_keyed) Hadd)
    as (H1 & _ & H3).
  split; [exact H1|exact H3].
Defined.

(** [created_private_resolves_unless_shadowed] for the channel Alice
    creates on the empty registry. *)
Lemma created_private_resolves_unless_shadowed_witness :
  let pc := setOwner (getGUID alice)
              (PrivateChatChannel_new 100 "Alice's Channel") in
  let chat' := set_private {[100 := pc]} emptyChat in
  createChannel lua_allow emptyChat alice CHANNEL_PRIVATE
  = (Some (InPrivate 100, Private pc), chat', [])
  ∧ getChannel lua_allow chat' alice 100
    = (Some (InPrivate 100, Private pc), []).
Proof.
  intros pc chat'.
  assert (createChannel lua_allow emptyChat alice CHANNEL_PRIVATE
          = (Some (InPrivate 100, Private pc), chat', [])) as Hnew.
  { apply (createChannel_private_first (hdr := canary_header) lua_allow
             ltac:(done) ltac:(done) emptyChat alice []).
    - vm_compute. reflexivity.
    - reflexivity.
    - intros k c Hk. unfold emptyChat in Hk. simpl in Hk.
      by rewrite lookup_empty in Hk.
    - apply lookup_empty. }
  split; [exact Hnew|].
  destruct (created_private_resolves_unless_shadowed (hdr := canary_header)
              lua_allow ltac:(done) ltac:(done) emptyChat alice _ _ _ _ Hnew)
    as (i & pc' & Hr & Hch & Hres & _).
  injection Hr as <-. injection Hch as <-.
  apply Hres; [done|done|apply lookup_empty].
Defined.

(** [guild_channel_lifecycle] for Dave and his guild on the empty
    registry. *)
Lemma guild_channel_lifecycle_witness :
  let c := ChatChannel_new CHANNEL_GUILD "Knights" in
  let chat' := set_guild {[9 := c]} emptyChat in
  createChannel lua_allow emptyChat dave CHANNEL_GUILD
  = (Some (InGuild 9, Plain c), chat', [])
  ∧ createChannel lua_allow chat' dave CHANNEL_GUILD = (None, chat', [])
  ∧ deleteChannel chat' dave CHANNEL_GUILD = (true, emptyChat, []).
Proof.
  intros c chat'.
  destruct (proj2 (guild_channel_lifecycle (hdr := canary_header) lua_allow
                     emptyChat dave) knights eq_refl (lookup_empty _))
    as (H1 & H2 & H3).
  split; [exact H1|]. split; [|exact H3].
  apply (H2 dave knights eq_refl eq_refl).
Defined.

(** [party_channel_lifecycle] for Erin and her party on the empty
    registry. *)
Lemma party_channel_lifecycle_witness :
  let c := ChatChannel_new CHANNEL_PARTY "Party" in
  let chat' := set_party {[77 := c]} emptyChat in
  createChannel lua_allow emptyChat erin CHANNEL_PARTY
  = (Some (InParty 77, Plain c), chat', [])
  ∧ createChannel lua_allow chat' erin CHANNEL_PARTY = (None, chat', [])
  ∧ deleteChannel chat' erin CHANNEL_PARTY = (true, emptyChat, []).
Proof.
  intros c chat'.
  destruct (proj2 (party_channel_lifecycle (hdr := canary_header) lua_allow
                     ltac:(done) emptyChat erin) 77 eq_refl (lookup_empty _))
    as (H1 & H2 & H3).
  split; [exact H1|]. split; [|exact H3].
  apply (H2 erin eq_refl).
Defined.

(** [create_then_delete_private_restores] when Alice creates a channel on
    the empty registry and Bob deletes it. *)
Lemma create_then_delete_private_restores_witness :
  let pc := setOwner (getGUID alice)
              (PrivateChatChannel_new 100 "Alice's Channel") in
  let chat' := set_private {[100 := pc]} emptyChat in
  createChannel lua_allow emptyChat alice CHANNEL_PRIVATE
  = (Some (InPrivate 100, Private pc), chat', [])
  ∧ deleteChannel chat' bob 100 = (true, emptyChat, []).
Proof.
  intros pc chat'.
  assert (createChannel lua_allow emptyChat alice CHANNEL_PRIVATE
          = (Some (InPrivate 100, Private pc), chat', [])) as Hnew.
  { apply (createChannel_private_first (hdr := canary_header) lua_allow
             ltac:(done) ltac:(done) emptyChat alice []).
    - vm_compute. reflexivity.
    - reflexivity.
    - intros k c Hk. unfold emptyChat in Hk. simpl in Hk.
      by rewrite lookup_empty in Hk.
    - apply lookup_empty. }
  split; [exact Hnew|].
  apply (create_then_delete_private_restores (hdr := canary_header) lua_allow
           ltac:(done) ltac:(done) emptyChat alice bob 100 _ _ _ Hnew);
    done.
Defined.

(** [deleteChannel_private_by_anyone] on channel 101 of the registry with
    two private channels: Alice and Bob get the same, and its two members
    are told. *)
Lemma deleteChannel_private_by_anyone_witness :
  deleteChannel two_private alice 101 = deleteChannel two_private bob 101
  ∧ privateChannels (deleteChannel two_private alice 101).1.2
    = delete 101 (privateChannels two_private)
  ∧ length (deleteChannel two_private alice 101).2
    = size (users (base alice_channel)).
Proof.
  destruct (deleteChannel_private_by_anyone (hdr := canary_header)
              two_private alice bob 101 ltac:(done) ltac:(done))
    as (H1 & _ & H3 & _ & _ & _ & _ & H8).
  split; [exact H1|]. split; [exact H3|].
  apply (H8 alice_channel). vm_compute. reflexivity.
Defined.

(** The registry with two private channels is well formed. *)
Lemma two_private_wf : private_wf two_private.
Proof.
  assert (∀ k c, privateChannels two_private !! k = Some c →
            (k = 100 ∧ c = bob_channel) ∨ (k = 101 ∧ c = alice_channel))
    as Hcases.
  { intros k c. unfold two_private. cbn [privateChannels set_private].
    rewrite lookup_insert_Some, lookup_singleton_Some.
    intros [[<- <-]|[_ [<- <-]]]; [by left|by right]. }
  split.
  - intros k c Hk. destruct (Hcases k c Hk) as [[-> ->]|[-> ->]];
      (split; [reflexivity|lia]).
  - intros k1 k2 c1 c2 H1 H2.
    destruct (Hcases k1 c1 H1) as [[-> ->]|[-> ->]],
             (Hcases k2 c2 H2) as [[-> ->]|[-> ->]]; done.
Qed.

(** Carol owns neither of the two private channels. *)
Lemma two_private_carol_guest : owns_none two_private carol.
Proof.
  intros k c. unfold two_private. cbn [privateChannels set_private].
  rewrite lookup_insert_Some, lookup_singleton_Some.
  by intros [[<- <-]|[_ [<- <-]]].
Qed.

(** [private_collection_stays_well_formed] on the registry with two
    private channels, when Alice leaves her channel 101 and when Carol,
    who owns none, leaves every channel. *)
Lemma private_collection_stays_well_formed_witness :
  (private_wf two_private ∧ owns_none two_private carol)
  ∧ private_wf (removeUserFromChannel lua_allow two_private alice 101).1.2
  ∧ private_wf (getChannelList lua_allow two_private alice).1.2
  ∧ private_wf (removeUserFromAllChannels lua_allow two_private carol).1.
Proof.
  split; [split; [exact two_private_wf|exact two_private_carol_guest]|].
  destruct (private_collection_stays_well_formed (hdr := canary_header)
              lua_allow two_private alice 101 node_plain two_private_wf)
    as (_ & _ & _ & H4 & _ & _ & H7).
  destruct (private_collection_stays_well_formed (hdr := canary_header)
              lua_allow two_private carol 101 node_plain two_private_wf)
    as (_ & _ & _ & _ & H5 & _).
  split; [exact H4|]. split; [exact H7|].
  exact (H5 two_private_carol_guest).
Defined.

(** [private_channel_needs_invitation] when Carol, who holds no invite,
    asks for Bob's channel 100. *)
Lemma private_channel_needs_invitation_witness :
  isInvited bob_channel (getGUID carol) = false
  ∧ getChannel lua_allow two_private carol 100 = (None, [])
  ∧ addUserToChannel lua_allow two_private carol 100
    = (None, two_private, [])
  ∧ removeUserFromChannel lua_allow two_private carol 100
    = (false, two_private, [])
  ∧ talkToChannel lua_allow two_private carol 1 "hi" 100 = (false, []).
Proof.
  assert (isInvited bob_channel (getGUID carol) = false) as Hno
    by (vm_compute; reflexivity).
  split; [exact Hno|].
  apply (proj2 (private_channel_needs_invitation (hdr := canary_header)
                  lua_allow two_private carol 100) bob_channel 1 "hi"%string);
    try done.
Defined.

(** [getChannelList_private_entries] for Carol on the registry with two
    private channels: she sees Alice's channel, to which she is invited. *)
Lemma getChannelList_private_entries_witness :
  isInvited alice_channel (getGUID carol) = true
  ∧ Listed (InPrivate 101) (Private alice_channel)
    ∈ (getChannelList lua_allow two_private carol).1.1.
Proof.
  assert (isInvited alice_channel (getGUID carol) = true) as Hyes
    by (vm_compute; reflexivity).
  split; [exact Hyes|].
  apply (proj1 (getChannelList_private_entries (hdr := canary_header)
                  lua_allow ltac:(done) two_private carol)).
  exists alice_channel. by split.
Defined.

(** [getChannelList_opens_guild_channel] when Dave asks for the channel
    list on the empty registry. *)
Lemma getChannelList_opens_guild_channel_witness :
  let res := getChannelList lua_allow emptyChat dave in
  let c := ChatChannel_new CHANNEL_GUILD "Knights" in
  getGuild dave = Some knights
  ∧ guildChannels res.1.2 = {[9 := c]}
  ∧ Listed (InGuild 9) (Plain c) ∈ res.1.1
  ∧ getChannel lua_allow res.1.2 dave CHANNEL_GUILD
    = (Some (InGuild 9, Plain c), []).
Proof.
  intros res c. split; [reflexivity|].
  destruct (getChannelList_opens_guild_channel (hdr := canary_header)
              lua_allow ltac:(done) emptyChat dave knights eq_refl)
    as (H1 & H2 & H3 & _).
  split; [exact H1|]. split; [exact H2|exact H3].
Defined.

(** [getPrivateChannel_finds_owned] for Alice on the registry with two
    private channels. *)
Lemma getPrivateChannel_finds_owned_witness :
  getPrivateChannel two_private alice = Some (101, alice_channel)
  ∧ privateChannels two_private !! 101 = Some alice_channel
  ∧ owner alice_channel = getGUID alice.
Proof.
  assert (getPrivateChannel two_private alice = Some (101, alice_channel))
    as Hget by (vm_compute; reflexivity).
  split; [exact Hget|].
  pose proof (getPrivateChannel_finds_owned two_private alice) as H.
  rewrite Hget in H. destruct H as (H1 & H2 & _). by split.
Defined.

(** [failed_registry_operation_changes_nothing] when Carol, who holds no
    invite, asks to join Bob's channel 100, and when she asks to delete a
    channel 500 that does not exist. *)
Lemma failed_registry_operation_changes_nothing_witness :
  ((addUserToChannel lua_allow two_private carol 100).1.1 = None
   ∧ (addUserToChannel lua_allow two_private carol 100).1.2 = two_private)
  ∧ (deleteChannel two_private carol 500).1.1 = false
  ∧ (deleteChannel two_private carol 500).1.2 = two_private.
Proof.
  destruct (failed_registry_operation_changes_nothing (hdr := canary_header)
              lua_allow two_private carol 100) as (_ & _ & H3 & _).
  destruct (failed_registry_operation_changes_nothing (hdr := canary_header)
              lua_allow two_private carol 500) as (_ & H2 & _).
  assert (∃ chat' t, addUserToChannel lua_allow two_private carol 100
                     = (None, chat', t)) as (chat' & t & Hadd)
    by (do 2 eexists; vm_compute; reflexivity).
  assert (∃ chat' t, deleteChannel two_private carol 500
                     = (false, chat', t)) as (chat2 & t2 & Hdel)
    by (do 2 eexists; vm_compute; reflexivity).
  destruct (H3 _ _ Hadd) as [Hsame _]. destruct (H2 _ _ Hdel) as [Hsame2 _].
  rewrite Hadd, Hdel. cbn [fst snd]. by rewrite Hsame, Hsame2.
Defined.

(** [talkToChannel_guild_party_class] when the officer Dave speaks in his
    guild's channel and Erin in her party's channel, both asking for type
    1. *)
Lemma talkToChannel_guild_party_class_witness :
  talkToChannel lua_allow knights_chat dave 1 "hi" CHANNEL_GUILD
  = talk knights_channel dave TALKTYPE_CHANNEL_O "hi"
  ∧ talkToChannel lua_allow party_chat erin 1 "hi" CHANNEL_PARTY
    = talk party_channel erin TALKTYPE_CHANNEL_Y "hi".
Proof.
  split.
  - apply (proj1 (talkToChannel_guild_party_class (hdr := canary_header)
                    lua_allow knights_chat dave 1 "hi") knights
             knights_channel); reflexivity.
  - apply (proj2 (talkToChannel_guild_party_class (hdr := canary_header)
                    lua_allow party_chat erin 1 "hi") 77 party_channel);
      (done || reflexivity).
Defined.

(** The lobby files its members under their own ids. *)
Lemma lobby_channel_keyed : users_keyed lobby_channel.
Proof.
  intros k q.
  change (users lobby_channel)
    with ({[getID alice := alice; getID carol := carol;
            getID dave := dave]} : gmap Z Player).
  rewrite !lookup_insert_Some, lookup_singleton_Some.
  by intros [[<- <-]|[_ [[<- <-]|[_ [<- <-]]]]].
Qed.


(** A registry without private channels has no owner. *)
Lemma help_chat_owns_none p : owns_none help_chat p.
Proof.
  intros k c Hk. unfold help_chat, emptyChat in Hk. simpl in Hk.
  by rewrite lookup_empty in Hk.
Qed.

(** [static_channels_are_never_removed] when Alice, who owns no private
    channel, leaves every channel of the registry with static channel 5,
    and when the node for channel 5 is loaded into it. *)
Lemma static_channels_are_never_removed_witness :
  owns_none help_chat alice
  ∧ dom (normalChannels (removeUserFromAllChannels lua_allow help_chat
                           alice).1)
    = dom (normalChannels help_chat)
  ∧ dom (normalChannels (loadNodes lua_allow [node_plain] help_chat).1)
    = list_to_set [to_uint16 5] ∪ dom (normalChannels help_chat).
Proof.
  split; [apply help_chat_owns_none|].
  destruct (static_channels_are_never_removed (hdr := canary_header)
              lua_allow help_chat alice 5 [node_plain])
    as (_ & _ & _ & _ & H5 & _ & H7 & _).
  split; [apply H5, help_chat_owns_none|exact H7].
Defined.

(** [removeUserFromAllChannels_leaves_shared_channels] when Alice, who
    owns no private channel, leaves every channel of the registry with
    static channel 5. *)
Lemma removeUserFromAllChannels_leaves_shared_channels_witness :
  owns_none help_chat alice
  ∧ member_nowhere
      (normalChannels (removeUserFromAllChannels lua_allow help_chat alice).1)
      alice.
Proof.
  split; [apply help_chat_owns_none|].
  destruct (removeUserFromAllChannels_leaves_shared_channels
              lua_allow help_chat alice
              (help_chat_owns_none alice))
    as (_ & _ & _ & H4 & _).
  exact H4.
Defined.

(** The lobby is a well-formed static collection. *)
Lemma lobby_chat_wf : static_wf lobby_chat.
Proof.
  intros k c. unfold lobby_chat. cbn [normalChannels set_normal].
  rewrite lookup_singleton_Some. intros [<- <-].
  split; [reflexivity|]. split; [exact lobby_channel_keyed|done].
Qed.

(** [loadNode_reloads_members] when channel 5, with Alice, Carol and Dave
    in it, is reloaded as a non-public channel with a script that refuses
    Carol: Alice and Dave are handed back, Alice is told that Dave joined,
    Carol is dropped, and Dave, whose guild has a message of the day, is
    sent none. *)
Lemma loadNode_reloads_members_witness :
  ∃ c',
    (loadNode lua_picky lobby_chat node_members).1 =
      set_normal (<[5 := c']> (normalChannels lobby_chat)) lobby_chat
    ∧ chan_name c' = "Help desk"%string
    ∧ publicChannel c' = false
    ∧ onJoinEvent c' = 1
    ∧ users c' =
        filter (λ it, admits lua_picky (onJoinEvent c') it.2)
          (users lobby_channel)
    ∧ users c' !! getID alice = Some alice
    ∧ users c' !! getID dave = Some dave
    ∧ users c' !! getID carol = None
    ∧ sendChannelEvent alice 5 "Dave" CHANNELEVENT_JOIN
      ∈ (loadNode lua_picky lobby_chat node_members).2
    ∧ Forall (λ e, ¬ is_motd e) (loadNode lua_picky lobby_chat node_members).2.
Proof.
  destruct (loadNode_reloads_members (hdr := canary_header) lua_picky
              lobby_chat node_members lobby_channel)
    as (c' & H1 & H2 & H3 & H4 & H5 & H6 & _ & H8 & H9 & _).
  - vm_compute. reflexivity.
  - exact lobby_chat_wf.
  - destruct (H5 "help.lua"%string eq_refl eq_refl) as (_ & Hjoin & _).
    change (getEvent lua_picky _ _) with 1 in Hjoin.
    assert (users c' !! getID alice = Some alice) as Ha.
    { rewrite H6, Hjoin. vm_compute. reflexivity. }
    assert (users c' !! getID dave = Some dave) as Hd.
    { rewrite H6, Hjoin. vm_compute. reflexivity. }
    assert (users c' !! getID carol = None) as Hc.
    { rewrite H6, Hjoin. vm_compute. reflexivity. }
    exists c'. split; [exact H1|]. split; [exact H3|]. split; [exact H4|].
    split; [exact Hjoin|]. split; [exact H6|]. split; [exact Ha|].
    split; [exact Hd|]. split; [exact Hc|]. split; [|exact H9].
    rewrite <- H2 at 1.
    apply (H8 H4 (getID alice) alice (getID dave) dave Ha Hd).
    vm_compute. reflexivity.
Defined.

(** C7, as stated, fails.  Alice is a member of static channel 5.  When
    the channel is reloaded with a script whose [onJoin] refuses her, she
    is not re-added: the ledger is empty afterwards.  Dave, whose guild
    has a message of the day, is a member of static channel 5 with Alice
    and Carol.  When the channel is reloaded with a script that admits
    everybody, Dave is re-added and no message of the day is scheduled,
    while his joining the channel of his guild schedules one.  When a
    channel whose hooks are bound is reloaded from an entry that names no
    script, its hooks are not replaced: [onJoin] stays bound to the event
    it had, where the channel made anew from the same entry has no hook. *)
Lemma loadNode_reload_counterexample :
  (let before := normalChannels help_chat !! 5 in
   let after :=
     normalChannels (loadNode lua_deny help_chat node_scripted).1 !! 5 in
   users <$> before = Some {[getID alice := alice]}
   ∧ users <$> after = Some ∅
   ∧ users <$> after ≠ users <$> before)
  ∧ (let reload := loadNode lua_number lobby_chat node_members in
     guild_getMotd <$> getGuild dave = Some "Welcome"%string
     ∧ (normalChannels reload.1 !! 5 ≫= λ c, users c !! getID dave)
       = Some dave
     ∧ filter is_motd reload.2 = []
     ∧ filter is_motd
         (addUser lua_number (ChatChannel_new CHANNEL_GUILD "Knights")
            dave).2
       = [addEvent_sendGuildMotd 150 (getID dave)])
  ∧ (let before := normalChannels scripted_chat !! 5 in
     let after :=
       normalChannels (loadNode lua_allow scripted_chat node_plain).1 !! 5 in
     node_script node_plain = None
     ∧ onJoinEvent <$> before = Some 4
     ∧ onJoinEvent <$> after = Some 4
     ∧ onJoinEvent <$> after ≠ Some (-1)
     ∧ onJoinEvent
         <$> normalChannels (loadNode lua_allow emptyChat node_plain).1 !! 5
       = Some (-1)).
Proof. vm_compute. repeat split; (reflexivity || discriminate). Qed.
